(** * Car-warranty support agent: conversation state, dispatch and domain tools

    A shallow embedding of the Python sources ([core.py], [assistant.py],
    [appointment_tools.py], [notification_tools.py]) together with the
    properties of the specification that were checked against them.

    Conventions of the embedding:
    - a Python [str] is a Rocq [string]; its characters are code points
      below 256, so that every literal of the sources that matters here
      (keys, markers, error texts) is written as it is;
    - a computation that may raise is a value of [res]: [Ok v] for a normal
      return and [Raise e] for an exception that propagates;
    - a [while] loop is a [Fixpoint] on a fuel argument; [None] means that
      the fuel ran out, and the theorems say when that cannot happen;
    - the chat model, the graph runtime, the SMTP server and the clock are
      outside the repository and enter as [Variable]s of a [Section];
    - a CSV table is the list of its rows, in file order. *)

From Stdlib Require Import ZArith Ascii String DecimalString DecimalN.
From stdpp Require Import base decidable option list strings.

Local Open Scope string_scope.
Local Open Scope list_scope.
Local Open Scope Z_scope.

(** ** Exceptions and results *)

(** A raised exception, as far as the sources look at it: [repr(e)] and
    [str(e)]. *)
Record exn := Exception { exn_repr : string; exn_str : string }.

Inductive res (A : Type) : Type :=
| Ok (a : A)
| Raise (e : exn).
Arguments Ok {A} a.
Arguments Raise {A} e.

Global Instance res_ret : MRet res := fun A a => Ok a.
Global Instance res_bind : MBind res := fun A B k m =>
  match m with
  | Ok a => k a
  | Raise e => Raise e
  end.

(** [try: m except Exception as e: h e] *)
Definition try_except {A : Type} (m : res A) (h : exn -> A) : A :=
  match m with
  | Ok a => a
  | Raise e => h e
  end.

(** ** Strings *)

Definition nl : string := String (ascii_of_N 10) EmptyString.

Fixpoint is_prefix (p s : string) : bool :=
  match p, s with
  | EmptyString, _ => true
  | String a p', String b s' => if decide (a = b) then is_prefix p' s' else false
  | String _ _, EmptyString => false
  end.

Definition line_feed : ascii := ascii_of_N 10.

(** The double quote, as a character and as a one-character string. *)
Definition dquote : ascii := ascii_of_N 34.
Definition dq : string := String dquote EmptyString.
Global Arguments dquote : simpl never.
Global Arguments line_feed : simpl never.

(** [needle in hay] on [str]. *)
Fixpoint contains (needle hay : string) : bool :=
  if is_prefix needle hay then true
  else match hay with
       | EmptyString => false
       | String _ hay' => contains needle hay'
       end.

(** [str.lower] on one code point below 256. *)
Definition lower_char (c : ascii) : ascii :=
  let n := N_of_ascii c in
  if ((65 <=? n) && (n <=? 90))%N then ascii_of_N (n + 32)
  else if ((192 <=? n) && (n <=? 222) && negb (n =? 215))%N then ascii_of_N (n + 32)
  else c.

Fixpoint lower (s : string) : string :=
  match s with
  | EmptyString => EmptyString
  | String c s' => String (lower_char c) (lower s')
  end.

(** [l[-1]], which raises [IndexError] on an empty list. *)
Definition IndexError : exn :=
  Exception "IndexError('list index out of range')" "list index out of range".

Definition last_item {A : Type} (l : list A) : res A :=
  match last l with
  | Some a => Ok a
  | None => Raise IndexError
  end.

(** [l[-n:]] for [n > 0]. *)
Definition last_n {A : Type} (n : nat) (l : list A) : list A :=
  drop (length l - n)%nat l.

(** ** Messages *)

(** A structured content block, a dict; [block_text] is its [text] entry,
    [None] when the key is absent. *)
Record block := Block { block_text : option string }.

Inductive content :=
| CText (s : string)
| CBlocks (bs : list block).

Record tool_call := ToolCall { tc_name : string; tc_args : string; tc_id : string }.

(** The entries of a message log.  [id] is [None] until the graph reducer
    has given the message one.  [response_metadata] of an [AIMessage] is
    [None] for the empty dict and [Some n] for a dict that carries
    [token_usage.total_tokens = n], the two shapes that the model interface
    produces; human and tool messages have the empty dict.  [TupleMessage]
    is a raw [(role, text)] pair put into a log in place of a message
    object. *)
Inductive message :=
| HumanMessage (id : option string) (text : string)
| AIMessage (id : option string) (c : content) (tool_calls : list tool_call)
            (response_metadata : option Z)
| ToolMessage (id : option string) (c : string) (tool_call_id : string)
| TupleMessage (role text : string).

Global Instance block_eq_dec : EqDecision block.
Proof. solve_decision. Defined.
Global Instance content_eq_dec : EqDecision content.
Proof. solve_decision. Defined.
Global Instance tool_call_eq_dec : EqDecision tool_call.
Proof. solve_decision. Defined.
Global Instance message_eq_dec : EqDecision message.
Proof. solve_decision. Defined.

(** *** Facts about strings *)

Lemma str_app_nil_l (s : string) : EmptyString +:+ s = s.
Proof. reflexivity. Qed.

Lemma str_app_cons (c : ascii) (s t : string) : String c s +:+ t = String c (s +:+ t).
Proof. reflexivity. Qed.

Lemma str_app_nil_r (s : string) : s +:+ EmptyString = s.
Proof. induction s as [|c s IH]; [reflexivity|]. now rewrite str_app_cons, IH. Qed.

Lemma str_app_assoc (s t u : string) : (s +:+ t) +:+ u = s +:+ (t +:+ u).
Proof. induction s as [|c s IH]; [reflexivity|]. now rewrite !str_app_cons, IH. Qed.

Lemma str_app_length (s t : string) :
  String.length (s +:+ t) = (String.length s + String.length t)%nat.
Proof. induction s as [|c s IH]; [reflexivity|]. rewrite str_app_cons. cbn. now rewrite IH. Qed.

Ltac str_norm :=
  repeat (rewrite str_app_assoc || rewrite str_app_cons || rewrite str_app_nil_l).

(** [all_chars P s]: every character of [s] satisfies [P]. *)
Fixpoint all_chars (P : ascii -> bool) (s : string) : bool :=
  match s with
  | EmptyString => true
  | String c s' => P c && all_chars P s'
  end.

Lemma all_chars_impl (P Q : ascii -> bool) s :
  (forall c, P c = true -> Q c = true) -> all_chars P s = true -> all_chars Q s = true.
Proof.
  intros HPQ. induction s as [|c s IH]; cbn; [done|].
  intros [Hc Hs]%andb_true_iff. rewrite (HPQ _ Hc), (IH Hs). done.
Qed.

Definition not_quote (c : ascii) : bool := bool_decide (c <> dquote).

(** ** Identifier normalisation of tool messages: [update_tool_messages] *)

Module Normalize.

(** *** The two shapes of regular expression the function uses

    [re.findall] scans from left to right; where the pattern matches it
    records the group and goes on behind the match, elsewhere it moves one
    character on.  Both patterns are deterministic: after the quoted key
    and the colon the run [\s*] takes all white space (what follows is a
    digit or a quote, never white space), [\d+] takes all digits, and the
    lazy group of the second pattern stops at the first quote and fails on
    a line feed before it. *)

(** [\s] on code points below 256. *)
Definition is_space (c : ascii) : bool :=
  let n := N_of_ascii c in
  ((9 <=? n) && (n <=? 13) || (28 <=? n) && (n <=? 32)
   || (n =? 133) || (n =? 160))%N.

(** [\d] on code points below 256. *)
Definition is_digit (c : ascii) : bool :=
  let n := N_of_ascii c in ((48 <=? n) && (n <=? 57))%N.

Fixpoint strip_prefix (p s : string) : option string :=
  match p, s with
  | EmptyString, _ => Some s
  | String a p', String b s' => if decide (a = b) then strip_prefix p' s' else None
  | String _ _, EmptyString => None
  end.

Fixpoint skip_spaces (s : string) : string :=
  match s with
  | String c s' => if is_space c then skip_spaces s' else s
  | EmptyString => s
  end.

(** The longest run of digits at the head of [s], and what follows it. *)
Fixpoint take_digits (s : string) : string * string :=
  match s with
  | String c s' =>
      if is_digit c then let '(ds, rest) := take_digits s' in (String c ds, rest)
      else (EmptyString, s)
  | EmptyString => (EmptyString, s)
  end.

(** The lazy group and its closing quote: up to the first quote, with no
    line feed on the way ([.] does not match one). *)
Fixpoint lazy_to_quote (s : string) : option (string * string) :=
  match s with
  | EmptyString => None
  | String c s' =>
      if decide (c = dquote) then Some (EmptyString, s')
      else if decide (c = line_feed) then None
      else '(cap, rest) ← lazy_to_quote s'; Some (String c cap, rest)
  end.

Inductive pattern :=
| PInt (key : string)     (* the quoted key, a colon, [\s*], the group [\d+] *)
| PStr (key : string).    (* the quoted key, a colon, [\s*], a quoted lazy group *)

Definition literal (key : string) : string := dq +:+ key +:+ dq +:+ ":".

(** A match that starts at the head of [s]: the group and the rest of [s]
    behind the match. *)
Definition match_at (p : pattern) (s : string) : option (string * string) :=
  match p with
  | PInt key =>
      rest ← strip_prefix (literal key) s;
      match take_digits (skip_spaces rest) with
      | (EmptyString, _) => None
      | (ds, rest') => Some (ds, rest')
      end
  | PStr key =>
      rest ← strip_prefix (literal key) s;
      match skip_spaces rest with
      | String c rest' => if decide (c = dquote) then lazy_to_quote rest' else None
      | EmptyString => None
      end
  end.

Fixpoint scan (fuel : nat) (p : pattern) (s : string) : list string :=
  match fuel with
  | O => []
  | S fuel' =>
      match match_at p s with
      | Some (cap, rest) => cap :: scan fuel' p rest
      | None =>
          match s with
          | EmptyString => []
          | String _ s' => scan fuel' p s'
          end
      end
  end.

(** [re.findall(p, s)]; a match takes at least one character, so the
    length of [s] (and one more for the end) is fuel enough. *)
Definition findall (p : pattern) (s : string) : list string :=
  scan (S (String.length s)) p s.

(** *** [int] and [json.dumps] *)

(** [int(ds)] on a run of ASCII digits. *)
Definition py_int (ds : string) : N :=
  match NilEmpty.uint_of_string ds with
  | Some d => N.of_uint d
  | None => 0%N
  end.

(** [str(n)] for a natural number. *)
Definition str_of_N (n : N) : string := NilEmpty.string_of_uint (N.to_uint n).

Inductive jvalue :=
| JInt (n : N)
| JStr (s : string).

(** A dict keeps its keys in insertion order. *)
Definition jdict : Type := list (string * jvalue).

Definition hex_digit (n : N) : ascii :=
  if (n <? 10)%N then ascii_of_N (48 + n) else ascii_of_N (87 + n).

(** The encoder with [ensure_ascii=True]: everything outside [' '..'~'],
    the quote and the backslash are escaped. *)
Definition escape_char (c : ascii) : string :=
  let n := N_of_ascii c in
  if decide (c = dquote) then "\" +:+ dq
  else if (n =? 92)%N then "\\"
  else if (n =? 10)%N then "\n"
  else if (n =? 13)%N then "\r"
  else if (n =? 9)%N then "\t"
  else if (n =? 12)%N then "\f"
  else if (n =? 8)%N then "\b"
  else if ((n <? 32) || (126 <? n))%N
       then "\u00" +:+ String (hex_digit (n / 16)) (String (hex_digit (n mod 16)) EmptyString)
  else String c EmptyString.

Fixpoint escape (s : string) : string :=
  match s with
  | EmptyString => EmptyString
  | String c s' => escape_char c +:+ escape s'
  end.

Definition dumps_str (s : string) : string := dq +:+ escape s +:+ dq.

Definition dumps_value (v : jvalue) : string :=
  match v with
  | JInt n => str_of_N n
  | JStr s => dumps_str s
  end.

Definition dumps_item (kv : string * jvalue) : string :=
  dumps_str kv.1 +:+ ": " +:+ dumps_value kv.2.

(** [join] on the separator of a comma and a space. *)
Fixpoint join (l : list string) : string :=
  match l with
  | [] => EmptyString
  | [x] => x
  | x :: l' => x +:+ ", " +:+ join l'
  end.

Definition dumps_dict (d : jdict) : string :=
  "{" +:+ join (dumps_item <$> d) +:+ "}".

(** [json.dumps] of a list of dicts. *)
Definition dumps (ds : list jdict) : string :=
  "[" +:+ join (dumps_dict <$> ds) +:+ "]".

(** *** The function *)

(** [if i < len(l): booking_dict[key] = f(l[i])] *)
Definition entry (key : string) (f : string -> jvalue) (l : list string)
    (i : nat) : jdict :=
  match l !! i with
  | Some x => [(key, f x)]
  | None => []
  end.

Definition booking_dict (booking_ids car_ids names start_dates end_dates : list string)
    (i : nat) : jdict :=
  entry "booking_id" (fun x => JInt (py_int x)) booking_ids i
  ++ entry "car_id" (fun x => JInt (py_int x)) car_ids i
  ++ entry "name" JStr names i
  ++ entry "start_date" JStr start_dates i
  ++ entry "end_date" JStr end_dates i.

Definition max_len (booking_ids car_ids names start_dates end_dates : list string) : nat :=
  Nat.max (length booking_ids)
    (Nat.max (length car_ids)
       (Nat.max (length names)
          (Nat.max (length start_dates) (length end_dates)))).

Definition combined_info (content : string) : list jdict :=
  let booking_ids := findall (PInt "booking_id") content in
  let car_ids := findall (PInt "car_id") content in
  let names := findall (PStr "name") content in
  let start_dates := findall (PStr "start_date") content in
  let end_dates := findall (PStr "end_date") content in
  booking_dict booking_ids car_ids names start_dates end_dates
    <$> seq 0 (max_len booking_ids car_ids names start_dates end_dates).

(** The new content of the message. *)
Definition rewritten (content : string) : string :=
  match combined_info content with
  | [] => content
  | info => dumps info
  end.

(** The function is applied to tool messages, whose content is a [str];
    other entries are left as they are. *)
Definition update_tool_messages (m : message) : message :=
  match m with
  | ToolMessage id c tool_call_id => ToolMessage id (rewritten c) tool_call_id
  | _ => m
  end.

(** *** The scanner: fuel and unfolding *)

Lemma strip_prefix_length p s r :
  strip_prefix p s = Some r ->
  String.length s = (String.length p + String.length r)%nat.
Proof.
  revert s. induction p as [|a p IH]; intros s; cbn.
  - now intros [= ->].
  - destruct s as [|b s]; [congruence|].
    case_decide; [|congruence]. intros Hs. cbn. now rewrite (IH _ Hs).
Qed.

Lemma skip_spaces_length s : (String.length (skip_spaces s) <= String.length s)%nat.
Proof. induction s as [|c s IH]; cbn; [lia|]. destruct (is_space c); cbn; lia. Qed.

Lemma take_digits_length s :
  (String.length (take_digits s).2 <= String.length s)%nat.
Proof.
  induction s as [|c s IH]; cbn; [lia|].
  destruct (is_digit c); [|cbn; lia].
  destruct (take_digits s) as [ds rest]. cbn in *. lia.
Qed.

Lemma lazy_to_quote_length s cap rest :
  lazy_to_quote s = Some (cap, rest) -> (String.length rest < String.length s)%nat.
Proof.
  revert cap. induction s as [|c s IH]; intros cap; cbn; [congruence|].
  case_decide; [intros [= _ <-]; lia|].
  case_decide; [congruence|].
  destruct (lazy_to_quote s) as [[cap' rest']|]; cbn; [|congruence].
  intros [= _ <-]. specialize (IH _ eq_refl). lia.
Qed.

Lemma literal_length key : String.length (literal key) = S (S (S (String.length key))).
Proof. unfold literal, dq. str_norm. cbn. rewrite str_app_length. cbn. lia. Qed.

Lemma match_at_shorter p s cap rest :
  match_at p s = Some (cap, rest) -> (String.length rest < String.length s)%nat.
Proof.
  destruct p as [key|key]; cbn;
    destruct (strip_prefix (literal key) s) as [r|] eqn:Hr; cbn; try congruence;
    apply strip_prefix_length in Hr; rewrite literal_length in Hr.
  - pose proof (take_digits_length (skip_spaces r)) as Hd.
    pose proof (skip_spaces_length r) as Hs.
    destruct (take_digits (skip_spaces r)) as [[|d ds] rest']; [congruence|].
    intros [= _ <-]. cbn in Hd. lia.
  - pose proof (skip_spaces_length r) as Hs.
    destruct (skip_spaces r) as [|c r']; [congruence|].
    case_decide; [|congruence].
    intros Hq%lazy_to_quote_length. cbn in Hs. lia.
Qed.

Lemma scan_fuel p fuel1 fuel2 s :
  (String.length s < fuel1)%nat -> (String.length s < fuel2)%nat ->
  scan fuel1 p s = scan fuel2 p s.
Proof.
  revert fuel2 s. induction fuel1 as [|fuel1 IH]; intros [|fuel2] s H1 H2; try lia.
  cbn. destruct (match_at p s) as [[cap rest]|] eqn:Hm.
  - apply match_at_shorter in Hm. f_equal. apply IH; lia.
  - destruct s as [|c s]; [reflexivity|]. cbn in *. apply IH; lia.
Qed.

Lemma scan_S fuel p s :
  scan (S fuel) p s
  = match match_at p s with
    | Some (cap, rest) => cap :: scan fuel p rest
    | None => match s with
              | EmptyString => []
              | String _ s' => scan fuel p s'
              end
    end.
Proof. reflexivity. Qed.

Lemma findall_empty p : findall p EmptyString = [].
Proof. destruct p; reflexivity. Qed.

Lemma findall_skip p c s :
  match_at p (String c s) = None -> findall p (String c s) = findall p s.
Proof.
  intros Hm. unfold findall. now rewrite scan_S, Hm.
Qed.

Lemma findall_match p s cap rest :
  match_at p s = Some (cap, rest) -> findall p s = cap :: findall p rest.
Proof.
  intros Hm. unfold findall. rewrite scan_S, Hm. f_equal.
  apply match_at_shorter in Hm. apply scan_fuel; lia.
Qed.

(** *** Character classes *)

(** The characters of the five keys: lower-case letters and the underscore. *)
Definition key_char (c : ascii) : bool :=
  let n := N_of_ascii c in ((97 <=? n) && (n <=? 122) || (n =? 95))%N.

(** The characters that the encoder writes as they are: [' '..'~'] without
    the quote and the backslash. *)
Definition plain_char (c : ascii) : bool :=
  let n := N_of_ascii c in
  ((32 <=? n) && (n <=? 126) && negb (n =? 34) && negb (n =? 92))%N.

Definition plain (s : string) : bool := all_chars plain_char s.

Ltac ascii_cases c :=
  destruct c as [[|] [|] [|] [|] [|] [|] [|] [|]]; vm_compute; try congruence; auto.

Lemma key_char_plain c : key_char c = true -> plain_char c = true.
Proof. ascii_cases c. Qed.

Lemma plain_char_not_quote c : plain_char c = true -> not_quote c = true.
Proof. ascii_cases c. Qed.

Lemma is_digit_not_quote c : is_digit c = true -> not_quote c = true.
Proof. ascii_cases c. Qed.

Lemma is_digit_not_space c : is_digit c = true -> is_space c = false.
Proof. ascii_cases c. Qed.

Lemma key_char_not_digit c : key_char c = true -> is_digit c = false.
Proof. ascii_cases c. Qed.

Lemma plain_char_not_line_feed c : plain_char c = true -> c <> line_feed.
Proof. ascii_cases c. Qed.

Lemma escape_char_plain c : plain_char c = true -> escape_char c = String c EmptyString.
Proof. ascii_cases c. Qed.

Lemma not_quote_spec c : not_quote c = true <-> c <> dquote.
Proof. unfold not_quote. now rewrite bool_decide_eq_true. Qed.

Lemma escape_plain s : plain s = true -> escape s = s.
Proof.
  induction s as [|c s IH]; cbn; [done|].
  intros [Hc Hs]%andb_true_iff.
  now rewrite (escape_char_plain _ Hc), (IH Hs), str_app_cons, str_app_nil_l.
Qed.

Lemma plain_not_quote s : plain s = true -> all_chars not_quote s = true.
Proof. apply all_chars_impl, plain_char_not_quote. Qed.

Lemma key_plain s : all_chars key_char s = true -> plain s = true.
Proof. apply all_chars_impl, key_char_plain. Qed.

(** *** Where a match can start *)

Lemma strip_prefix_app p s : strip_prefix p (p +:+ s) = Some s.
Proof.
  induction p as [|a p IH]; [reflexivity|].
  rewrite str_app_cons. cbn. now rewrite decide_True.
Qed.

(** A quoted, quote-free word is the quoted key followed by a colon only
    if the word is the key and a colon follows. *)
Lemma strip_key_other k x c s :
  all_chars not_quote k = true -> all_chars not_quote x = true ->
  ~ (x = k /\ c = ":"%char) ->
  strip_prefix (k +:+ dq +:+ ":") (x +:+ dq +:+ String c s) = None.
Proof.
  unfold dq. revert x. induction k as [|a k IH]; intros [|b x]; str_norm; cbn.
  - intros _ _ Hne. rewrite decide_True by done.
    case_decide; [|done]. subst c. now destruct Hne.
  - intros _ [Hb _]%andb_true_iff _. apply not_quote_spec in Hb.
    now rewrite decide_False by congruence.
  - intros [Ha _]%andb_true_iff _ _. apply not_quote_spec in Ha.
    now rewrite decide_False by congruence.
  - intros [_ Hk]%andb_true_iff [_ Hx]%andb_true_iff Hne.
    case_decide; [|done]. subst b.
    specialize (IH x Hk Hx). unfold dq in IH. revert IH. str_norm.
    intros IH. apply IH. intros [-> ->]. now apply Hne.
Qed.

Lemma match_at_not_quote p c s : c <> dquote -> match_at p (String c s) = None.
Proof.
  intros Hc. destruct p as [key|key]; unfold match_at, literal, dq; str_norm; cbn;
    now rewrite decide_False by congruence.
Qed.

Lemma findall_skip_block p u s :
  all_chars not_quote u = true -> findall p (u +:+ s) = findall p s.
Proof.
  induction u as [|c u IH]; [done|]. cbn [all_chars].
  intros [Hc Hu%IH]%andb_true_iff. apply not_quote_spec in Hc.
  rewrite str_app_cons, findall_skip; [done|]. now apply match_at_not_quote.
Qed.

Definition key_of (p : pattern) : string :=
  match p with PInt k | PStr k => k end.

(** An identifier: not empty, of key characters only. *)
Definition ident (k : string) : bool :=
  match k with
  | EmptyString => false
  | _ => all_chars key_char k
  end.

Lemma ident_key_chars k : ident k = true -> all_chars key_char k = true.
Proof. now destruct k. Qed.

(** A quote in front of a character that no key starts with. *)
Lemma match_at_quote_then p c s :
  ident (key_of p) = true -> key_char c = false ->
  match_at p (String dquote (String c s)) = None.
Proof.
  intros Hk Hc.
  assert (forall key, ident key = true ->
            strip_prefix (literal key) (String dquote (String c s)) = None) as Hs.
  { intros [|a key] Hid; [done|]. unfold literal, dq. str_norm. cbn.
    rewrite decide_True by done. cbn in Hid. apply andb_true_iff in Hid as [Ha _].
    rewrite decide_False; [done|]. intros ->. congruence. }
  destruct p as [key|key]; cbn in *; now rewrite Hs.
Qed.

Lemma findall_quote_then p c s :
  ident (key_of p) = true -> key_char c = false ->
  findall p (String dquote (String c s)) = findall p (String c s).
Proof. intros Hk Hc. apply findall_skip. now apply match_at_quote_then. Qed.

(** A quoted, quote-free word that is not the key, or that no colon follows. *)
Lemma match_at_quoted_other p x c s :
  ident (key_of p) = true -> all_chars not_quote x = true ->
  ~ (x = key_of p /\ c = ":"%char) ->
  match_at p (String dquote (x +:+ dq +:+ String c s)) = None.
Proof.
  intros Hk Hx Hne.
  assert (forall key, key = key_of p ->
     strip_prefix (literal key) (String dquote (x +:+ dq +:+ String c s)) = None) as Hs.
  { intros key ->. unfold literal. unfold dq at 1. str_norm. cbn.
    rewrite decide_True by done. apply strip_key_other; [|done..].
    apply plain_not_quote, key_plain, ident_key_chars, Hk. }
  destruct p as [key|key]; cbn in *; now rewrite Hs.
Qed.

(** *** Digits and quoted words at the head of a string *)

Lemma digits_of_uint d : all_chars is_digit (NilEmpty.string_of_uint d) = true.
Proof. induction d; cbn; auto. Qed.

Lemma str_of_N_cons n : exists c s, str_of_N n = String c s /\ is_digit c = true.
Proof.
  unfold str_of_N. pose proof (digits_of_uint (N.to_uint n)) as Hd.
  destruct (NilEmpty.string_of_uint (N.to_uint n)) as [|c s] eqn:Hs.
  - exfalso. pose proof (DecimalN.Unsigned.of_to n) as Hn.
    pose proof (NilEmpty.usu (N.to_uint n)) as Hu. rewrite Hs in Hu. cbn in Hu.
    injection Hu as Hu. rewrite <- Hu in Hn. cbn in Hn. subst n. discriminate.
  - cbn in Hd. apply andb_true_iff in Hd as [Hc _]. eauto.
Qed.

Lemma py_int_str_of_N n : py_int (str_of_N n) = n.
Proof.
  unfold py_int, str_of_N. rewrite NilEmpty.usu. apply DecimalN.Unsigned.of_to.
Qed.

Lemma take_digits_app ds c s :
  all_chars is_digit ds = true -> is_digit c = false ->
  take_digits (ds +:+ String c s) = (ds, String c s).
Proof.
  intros Hds Hc. induction ds as [|d ds IH]; str_norm; cbn.
  - now rewrite Hc.
  - cbn in Hds. apply andb_true_iff in Hds as [Hd Hds]. now rewrite Hd, (IH Hds).
Qed.

Lemma skip_spaces_head c s : is_space c = false -> skip_spaces (String c s) = String c s.
Proof. intros Hc. cbn. now rewrite Hc. Qed.

Lemma lazy_to_quote_plain x s :
  plain x = true -> lazy_to_quote (x +:+ dq +:+ s) = Some (x, s).
Proof.
  unfold dq. induction x as [|c x IH]; str_norm; cbn.
  - intros _. now rewrite decide_True.
  - intros [Hc Hx]%andb_true_iff.
    rewrite decide_False by (now apply not_quote_spec, plain_char_not_quote).
    rewrite decide_False by (now apply plain_char_not_line_feed).
    revert IH. str_norm. intros IH. now rewrite (IH Hx).
Qed.

(** *** Scanning the output of [dumps] *)

(** What the pattern finds in one item of a dict. *)
Definition hits (p : pattern) (kv : string * jvalue) : list string :=
  match p, kv.2 with
  | PInt k, JInt n => if decide (k = kv.1) then [str_of_N n] else []
  | PStr k, JStr x => if decide (k = kv.1) then [x] else []
  | _, _ => []
  end.

Definition item_ok (kv : string * jvalue) : bool :=
  ident kv.1 && match kv.2 with JStr x => plain x | JInt _ => true end.

(** What follows an item: a comma or the closing brace. *)
Definition closes (c : ascii) : Prop := c = ","%char \/ c = "}"%char.

Lemma closes_facts c :
  closes c -> c <> dquote /\ c <> ":"%char /\ key_char c = false /\ is_digit c = false.
Proof. intros [-> | ->]; repeat split; done. Qed.

Lemma literal_shape k R :
  literal k +:+ R = String dquote (k +:+ String dquote (String ":" R)).
Proof. unfold literal, dq. now str_norm. Qed.

Lemma dumps_item_shape k v R :
  plain k = true ->
  dumps_item (k, v) +:+ R
  = String dquote (k +:+ String dquote (String ":" (String " " (dumps_value v +:+ R)))).
Proof.
  intros Hk. unfold dumps_item, dumps_str, dq. cbn [fst snd].
  rewrite (escape_plain _ Hk). now str_norm.
Qed.

Lemma dumps_str_shape x R :
  plain x = true -> dumps_str x +:+ R = String dquote (x +:+ String dquote R).
Proof. intros Hx. unfold dumps_str, dq. rewrite (escape_plain _ Hx). now str_norm. Qed.

(** Behind the key of an item nothing matches up to the end of the item. *)
Lemma findall_item_tail p v c rest :
  ident (key_of p) = true ->
  match v with JStr x => plain x = true | JInt _ => True end ->
  closes c ->
  findall p (String dquote (String ":" (String " " (dumps_value v +:+ String c rest))))
  = findall p (String c rest).
Proof.
  intros Hp Hv (Hq & Hcolon & Hkey & Hdig)%closes_facts.
  rewrite findall_quote_then by done.
  do 2 (rewrite findall_skip by now apply match_at_not_quote).
  destruct v as [n|x]; cbn [dumps_value].
  - apply findall_skip_block. unfold str_of_N.
    eapply all_chars_impl; [apply is_digit_not_quote|apply digits_of_uint].
  - rewrite dumps_str_shape by done.
    rewrite findall_skip.
    2: { change (String dquote (String c rest)) with (dq +:+ String c rest).
         apply match_at_quoted_other; [done|now apply plain_not_quote|].
         intros [_ ?]. done. }
    rewrite findall_skip_block by now apply plain_not_quote.
    now apply findall_quote_then.
Qed.

Lemma findall_item p kv c rest :
  ident (key_of p) = true -> item_ok kv = true -> closes c ->
  findall p (dumps_item kv +:+ String c rest)
  = hits p kv ++ findall p (String c rest).
Proof.
  destruct kv as [k v]. unfold item_ok. cbn [fst snd].
  intros Hp [Hk Hv]%andb_true_iff Hc.
  assert (plain k = true) as Hkp by now apply key_plain, ident_key_chars.
  assert (match v with JStr x => plain x = true | JInt _ => True end) as Hv'
    by now destruct v.
  pose proof (closes_facts _ Hc) as (Hq & Hcolon & Hkey & Hdig).
  rewrite dumps_item_shape by done.
  (* the rest of the item, when there is no match at its head *)
  assert (match_at p (String dquote (k +:+ String dquote (String ":"
            (String " " (dumps_value v +:+ String c rest))))) = None ->
          findall p (String dquote (k +:+ String dquote (String ":"
            (String " " (dumps_value v +:+ String c rest)))))
          = findall p (String c rest)) as Hskip.
  { intros Hnone. rewrite findall_skip by done.
    rewrite findall_skip_block by now apply plain_not_quote.
    now apply findall_item_tail. }
  unfold hits. cbn [fst snd].
  destruct p as [key|key]; cbn [key_of] in Hp; destruct v as [n|x];
    try destruct (decide (key = k)) as [->|Hne]; cbn [app];
    try (apply Hskip;
         change (String dquote (String ":" ?R)) with (dq +:+ String ":" R);
         apply match_at_quoted_other; [done|now apply plain_not_quote|];
         cbn [key_of]; intros [? _]; congruence).
  - (* the digits of an integer item *)
    destruct (str_of_N_cons n) as (d & ds & Hn & Hd).
    apply findall_match. cbn [match_at dumps_value].
    rewrite <- literal_shape, strip_prefix_app. cbn [mbind option_bind].
    cbn [skip_spaces]. change (is_space " ") with true. cbn iota.
    pose proof (digits_of_uint (N.to_uint n)) as Hall.
    fold (str_of_N n) in Hall. rewrite Hn in Hall |- *.
    rewrite str_app_cons, skip_spaces_head by now apply is_digit_not_space.
    rewrite <- str_app_cons, take_digits_app by done. reflexivity.
  - (* an integer pattern on a string item *)
    apply Hskip. cbn [match_at dumps_value].
    rewrite <- literal_shape, strip_prefix_app. cbn [mbind option_bind].
    rewrite dumps_str_shape by done. reflexivity.
  - (* a string pattern on an integer item *)
    apply Hskip. cbn [match_at dumps_value].
    rewrite <- literal_shape, strip_prefix_app. cbn [mbind option_bind].
    destruct (str_of_N_cons n) as (d & ds & -> & Hd).
    cbn [skip_spaces]. change (is_space " ") with true. cbn iota.
    rewrite str_app_cons, skip_spaces_head by now apply is_digit_not_space.
    rewrite decide_False; [done|]. now apply not_quote_spec, is_digit_not_quote.
  - (* the quoted word of a string item *)
    apply findall_match. cbn [match_at dumps_value].
    rewrite <- literal_shape, strip_prefix_app. cbn [mbind option_bind].
    rewrite dumps_str_shape by done.
    cbn [skip_spaces]. change (is_space " ") with true.
    change (is_space dquote) with false. cbn iota.
    rewrite decide_True by done.
    change (String dquote (String c rest)) with (dq +:+ String c rest).
    now apply lazy_to_quote_plain.
Qed.

Definition dict_ok (d : jdict) : bool := forallb item_ok d.

Lemma findall_items p d rest :
  ident (key_of p) = true -> dict_ok d = true ->
  findall p (join (dumps_item <$> d) +:+ String "}" rest)
  = (d ≫= hits p) ++ findall p (String "}" rest).
Proof.
  intros Hp. induction d as [|kv [|kv' d] IH]; intros Hd.
  - reflexivity.
  - cbn in Hd. apply andb_true_iff in Hd as [Hkv _].
    cbn [fmap list_fmap join mbind list_bind]. rewrite app_nil_r.
    apply findall_item; [done..|now right].
  - cbn [dict_ok forallb] in Hd. apply andb_true_iff in Hd as [Hkv Hd].
    change (join (dumps_item <$> kv :: kv' :: d))
      with (dumps_item kv +:+ ", " +:+ join (dumps_item <$> kv' :: d)).
    rewrite !str_app_assoc, !str_app_cons, str_app_nil_l.
    rewrite findall_item; [|done..|now left].
    do 2 (rewrite findall_skip by now apply match_at_not_quote).
    rewrite IH by done. cbn [mbind list_bind].
    now rewrite <- !(assoc_L (++)).
Qed.

Lemma findall_dict p d rest :
  ident (key_of p) = true -> dict_ok d = true ->
  findall p (dumps_dict d +:+ rest) = (d ≫= hits p) ++ findall p rest.
Proof.
  intros Hp Hd. unfold dumps_dict. str_norm.
  rewrite findall_skip by now apply match_at_not_quote.
  rewrite findall_items by done.
  now rewrite findall_skip by now apply match_at_not_quote.
Qed.

Lemma findall_dicts p ds rest :
  ident (key_of p) = true -> forallb dict_ok ds = true ->
  findall p (join (dumps_dict <$> ds) +:+ rest)
  = (ds ≫= fun d => d ≫= hits p) ++ findall p rest.
Proof.
  intros Hp. induction ds as [|d [|d' ds] IH]; intros Hds.
  - reflexivity.
  - cbn in Hds. apply andb_true_iff in Hds as [Hd _].
    cbn [fmap list_fmap join mbind list_bind]. rewrite app_nil_r.
    now apply findall_dict.
  - cbn [forallb] in Hds. apply andb_true_iff in Hds as [Hd Hds].
    change (join (dumps_dict <$> d :: d' :: ds))
      with (dumps_dict d +:+ ", " +:+ join (dumps_dict <$> d' :: ds)).
    rewrite !str_app_assoc, !str_app_cons, str_app_nil_l.
    rewrite findall_dict by done.
    do 2 (rewrite findall_skip by now apply match_at_not_quote).
    rewrite IH by done. cbn [mbind list_bind].
    now rewrite <- !(assoc_L (++)).
Qed.

(** On the encoding of dicts with identifier keys and plain strings, a
    pattern finds the values under its key, in order. *)
Lemma findall_dumps p ds :
  ident (key_of p) = true -> forallb dict_ok ds = true ->
  findall p (dumps ds) = ds ≫= fun d => d ≫= hits p.
Proof.
  intros Hp Hds. unfold dumps. str_norm.
  rewrite findall_skip by now apply match_at_not_quote.
  rewrite findall_dicts by done.
  rewrite findall_skip by now apply match_at_not_quote.
  now rewrite findall_empty, app_nil_r.
Qed.

(** *** The rewrite applied to its own output *)

Lemma bind_fmap_list {A B C : Type} (f : A -> B) (h : B -> list C) (l : list A) :
  (f <$> l) ≫= h = l ≫= (h ∘ f).
Proof. induction l as [|a l IH]; [done|]. cbn. now rewrite IH. Qed.

Lemma bind_ext_list {A B : Type} (g h : A -> list B) (l : list A) :
  (forall a, g a = h a) -> l ≫= g = l ≫= h.
Proof. intros Hgh. induction l as [|a l IH]; [done|]. cbn. now rewrite Hgh, IH. Qed.

Lemma bind_seq_lookup {A B : Type} (f : A -> B) (l : list A) (m : nat) :
  (length l <= m)%nat ->
  seq 0 m ≫= (fun i => match l !! i with Some x => [f x] | None => [] end) = f <$> l.
Proof.
  revert m. induction l as [|x l IH]; intros m Hm.
  - cbn. induction (seq 0 m) as [|i js IHs]; [done|]. cbn. exact IHs.
  - destruct m as [|m]; cbn in Hm; [lia|].
    cbn [seq]. rewrite <- fmap_S_seq. cbn [mbind list_bind].
    rewrite bind_fmap_list. cbn [lookup list_lookup app fmap list_fmap].
    f_equal. rewrite <- (IH m) by lia. now apply bind_ext_list.
Qed.

Section Captures.

Variables booking_ids car_ids names start_dates end_dates : list string.

Let info : list jdict :=
  booking_dict booking_ids car_ids names start_dates end_dates
    <$> seq 0 (max_len booking_ids car_ids names start_dates end_dates).

Hypothesis names_plain : forallb plain names = true.
Hypothesis start_dates_plain : forallb plain start_dates = true.
Hypothesis end_dates_plain : forallb plain end_dates = true.

Lemma forallb_lookup {A : Type} (P : A -> bool) (l : list A) i x :
  forallb P l = true -> l !! i = Some x -> P x = true.
Proof.
  intros Hall Hi. apply list_elem_of_lookup_2 in Hi.
  rewrite forallb_forall in Hall. apply Hall. now apply list_elem_of_In.
Qed.

Lemma entry_ok (P : string -> bool) key f l i :
  forallb P l = true -> (forall x, P x = true -> item_ok (key, f x) = true) ->
  dict_ok (entry key f l i) = true.
Proof.
  intros Hl Hf. unfold entry. destruct (l !! i) as [x|] eqn:Hx; [|done].
  cbn. rewrite Hf; [done|]. eapply forallb_lookup; eauto.
Qed.

Lemma forallb_true {A : Type} (l : list A) : forallb (fun _ => true) l = true.
Proof. now induction l. Qed.

Lemma info_ok : forallb dict_ok info = true.
Proof.
  unfold info. apply forallb_forall. intros d Hd.
  apply list_elem_of_In, list_elem_of_fmap in Hd as (i & -> & _).
  unfold booking_dict, dict_ok. rewrite !forallb_app. fold dict_ok.
  rewrite (entry_ok (fun _ => true)), (entry_ok (fun _ => true)),
    (entry_ok plain), (entry_ok plain), (entry_ok plain);
    auto using forallb_true.
Qed.

Definition canon (ds : string) : string := str_of_N (py_int ds).

Ltac dict_hits :=
  intros i; unfold booking_dict, entry, compose;
  destruct (booking_ids !! i), (car_ids !! i), (names !! i),
    (start_dates !! i), (end_dates !! i); reflexivity.

Lemma hits_booking_id i :
  booking_dict booking_ids car_ids names start_dates end_dates i
    ≫= hits (PInt "booking_id")
  = match booking_ids !! i with Some x => [canon x] | None => [] end.
Proof. revert i. dict_hits. Qed.

Lemma hits_car_id i :
  booking_dict booking_ids car_ids names start_dates end_dates i
    ≫= hits (PInt "car_id")
  = match car_ids !! i with Some x => [canon x] | None => [] end.
Proof. revert i. dict_hits. Qed.

Lemma hits_name i :
  booking_dict booking_ids car_ids names start_dates end_dates i
    ≫= hits (PStr "name")
  = match names !! i with Some x => [id x] | None => [] end.
Proof. revert i. dict_hits. Qed.

Lemma hits_start_date i :
  booking_dict booking_ids car_ids names start_dates end_dates i
    ≫= hits (PStr "start_date")
  = match start_dates !! i with Some x => [id x] | None => [] end.
Proof. revert i. dict_hits. Qed.

Lemma hits_end_date i :
  booking_dict booking_ids car_ids names start_dates end_dates i
    ≫= hits (PStr "end_date")
  = match end_dates !! i with Some x => [id x] | None => [] end.
Proof. revert i. dict_hits. Qed.

Lemma max_len_bounds :
  let m := max_len booking_ids car_ids names start_dates end_dates in
  (length booking_ids <= m /\ length car_ids <= m /\ length names <= m
   /\ length start_dates <= m /\ length end_dates <= m)%nat.
Proof. unfold max_len. cbn zeta. lia. Qed.

Lemma findall_info :
  findall (PInt "booking_id") (dumps info) = canon <$> booking_ids
  /\ findall (PInt "car_id") (dumps info) = canon <$> car_ids
  /\ findall (PStr "name") (dumps info) = names
  /\ findall (PStr "start_date") (dumps info) = start_dates
  /\ findall (PStr "end_date") (dumps info) = end_dates.
Proof.
  pose proof max_len_bounds as (Hb & Hc & Hn & Hs & He). cbn zeta in *.
  repeat split; rewrite findall_dumps by (done || apply info_ok);
    unfold info; rewrite bind_fmap_list.
  - erewrite bind_ext_list by apply hits_booking_id. now apply bind_seq_lookup.
  - erewrite bind_ext_list by apply hits_car_id. now apply bind_seq_lookup.
  - erewrite bind_ext_list by apply hits_name.
    rewrite bind_seq_lookup by done. apply list_fmap_id.
  - erewrite bind_ext_list by apply hits_start_date.
    rewrite bind_seq_lookup by done. apply list_fmap_id.
  - erewrite bind_ext_list by apply hits_end_date.
    rewrite bind_seq_lookup by done. apply list_fmap_id.
Qed.

Lemma booking_dict_canon i :
  booking_dict (canon <$> booking_ids) (canon <$> car_ids) names start_dates end_dates i
  = booking_dict booking_ids car_ids names start_dates end_dates i.
Proof.
  unfold booking_dict, entry. rewrite !list_lookup_fmap.
  destruct (booking_ids !! i), (car_ids !! i); cbn [fmap option_fmap option_map];
    unfold canon; rewrite ?py_int_str_of_N; reflexivity.
Qed.

Lemma combined_info_dumps : combined_info (dumps info) = info.
Proof.
  unfold combined_info.
  destruct findall_info as (-> & -> & -> & -> & ->).
  unfold info, max_len. rewrite !length_fmap.
  apply list_fmap_ext. intros _ i _. apply booking_dict_canon.
Qed.

End Captures.

(** The strings that the string patterns find in [content] are plain. *)
Definition plain_captures (content : string) : bool :=
  forallb plain (findall (PStr "name") content)
  && forallb plain (findall (PStr "start_date") content)
  && forallb plain (findall (PStr "end_date") content).

(** [quoted s] is [s] between double quotes. *)
Definition quoted (s : string) : string := dq +:+ s +:+ dq.

(** A tool result whose name holds a backslash, as JSON writes it. *)
Definition backslash_content : string :=
  "{" +:+ quoted "booking_id" +:+ ": 7, " +:+ quoted "name" +:+ ": "
      +:+ quoted "A\\B" +:+ "}".

Definition backslash_message : message :=
  ToolMessage (Some "m1") backslash_content "call_1".

(** A tool result with plain names and dates. *)
Definition plain_content : string :=
  "[{" +:+ quoted "booking_id" +:+ ": 007, " +:+ quoted "car_id" +:+ ":12, "
       +:+ quoted "name" +:+ ": " +:+ quoted "Asha Rao" +:+ ", "
       +:+ quoted "start_date" +:+ ": " +:+ quoted "01/02/2025" +:+ "}, {"
       +:+ quoted "booking_id" +:+ ": 8}]".

Example rewritten_plain_content :
  rewritten plain_content
  = "[{" +:+ quoted "booking_id" +:+ ": 7, " +:+ quoted "car_id" +:+ ": 12, "
         +:+ quoted "name" +:+ ": " +:+ quoted "Asha Rao" +:+ ", "
         +:+ quoted "start_date" +:+ ": " +:+ quoted "01/02/2025" +:+ "}, {"
         +:+ quoted "booking_id" +:+ ": 8}]".
Proof. vm_compute. reflexivity. Qed.

Example rewritten_backslash_content :
  rewritten backslash_content
  = "[{" +:+ quoted "booking_id" +:+ ": 7, " +:+ quoted "name" +:+ ": "
         +:+ quoted "A\\\\B" +:+ "}]"
  /\ rewritten (rewritten backslash_content)
  = "[{" +:+ quoted "booking_id" +:+ ": 7, " +:+ quoted "name" +:+ ": "
         +:+ quoted "A\\\\\\\\B" +:+ "}]".
Proof. split; vm_compute; reflexivity. Qed.

Example rewritten_no_identifier : rewritten "no identifiers here" = "no identifiers here".
Proof. vm_compute. reflexivity. Qed.

(** C5, as stated, fails: the backslashes of an extracted name are doubled
    by every application, so the second application changes the content
    again. *)
Lemma update_tool_messages_not_idempotent :
  update_tool_messages (update_tool_messages backslash_message)
  <> update_tool_messages backslash_message.
Proof. vm_compute. intros H. discriminate H. Qed.

(** C5, amended.  When the names and dates that the rewrite extracts from
    a tool message consist of plain characters only (printable ASCII
    without the quote and the backslash, which the encoder writes as they
    are), a second application of the rewrite leaves the message as the
    first one made it. *)
Theorem update_tool_messages_idempotent_plain (id : option string)
    (content tool_call_id : string) :
  plain_captures content = true ->
  update_tool_messages (update_tool_messages (ToolMessage id content tool_call_id))
  = update_tool_messages (ToolMessage id content tool_call_id).
Proof.
  intros [[Hn Hs]%andb_true_iff He]%andb_true_iff.
  pose proof (combined_info_dumps
                (findall (PInt "booking_id") content) (findall (PInt "car_id") content)
                _ _ _ Hn Hs He) as Hfix.
  change (combined_info (dumps (combined_info content)) = combined_info content) in Hfix.
  cbn [update_tool_messages]. f_equal.
  unfold rewritten at 2 3.
  destruct (combined_info content) as [|d ds] eqn:Hinfo.
  - (* nothing was extracted: the content is left as it is, both times *)
    unfold rewritten. now rewrite Hinfo.
  - (* the second application extracts what the first one wrote *)
    unfold rewritten. now rewrite Hfix.
Qed.

Lemma update_tool_messages_idempotent_plain_witness :
  plain_captures plain_content = true
  /\ update_tool_messages (update_tool_messages (ToolMessage (Some "m2") plain_content "call_2"))
     = update_tool_messages (ToolMessage (Some "m2") plain_content "call_2").
Proof.
  split; [vm_compute; reflexivity|].
  apply (update_tool_messages_idempotent_plain (Some "m2") plain_content "call_2").
  vm_compute. reflexivity.
Defined.

End Normalize.

(** ** The conversation state manager and the assistant loop (core.py) *)

Module Assistant.

Import Normalize.

(** *** Classification: [clean_state] and [clean_state2] *)

(** The local variables of the classification loop. *)
Record cleaner := Cleaner {
  cleaned_messages : list message;
  middle_steps : list message;
  users : nat;
  bots : nat
}.

Definition start : cleaner := Cleaner [] [] 0 0.

(** Truth value of a message content: a non-empty [str] or list. *)
Definition truthy (c : content) : bool :=
  match c with
  | CText s => negb (bool_decide (s = EmptyString))
  | CBlocks bs => negb (bool_decide (bs = []))
  end.

(** The test on the content of a tool message. *)
Definition has_identifier (c : string) : bool :=
  contains "booking_id" c || contains "car_id" c.

(** What the closing of a turn does to one entry of [cleaned_messages].
    The source calls [update_tool_messages] on the step twice, once for a
    [print] and once for the assignment, and the function works on the
    message object in place. *)
Definition update_step (step : message) : message :=
  match step with
  | ToolMessage _ c _ =>
      if has_identifier c then update_tool_messages (update_tool_messages step)
      else step
  | _ => step
  end.

(** [[msg for msg in cleaned if msg not in middle]] *)
Definition without (middle cleaned : list message) : list message :=
  filter (fun msg => msg ∉ middle) cleaned.

(** One round of the [for] loop of [clean_state]. *)
Definition clean_state_step (st : cleaner) (m : message) : cleaner :=
  match m with
  | HumanMessage _ _ =>
      Cleaner (cleaned_messages st ++ [m]) (middle_steps st) (S (users st)) (bots st)
  | AIMessage _ c _ meta =>
      if truthy c && bool_decide (is_Some meta) then
        let cleaned := cleaned_messages st ++ [m] in
        let bots := S (bots st) in
        if (users st =? bots)%nat then
          Cleaner (without (middle_steps st) (update_step <$> cleaned)) []
                  (users st) bots
        else Cleaner cleaned (middle_steps st) (users st) bots
      else
        Cleaner (cleaned_messages st ++ [m]) (middle_steps st ++ [m])
                (users st) (bots st)
  | ToolMessage _ c _ =>
      if has_identifier c then
        Cleaner (cleaned_messages st ++ [m]) (middle_steps st) (users st) (bots st)
      else
        Cleaner (cleaned_messages st ++ [m]) (middle_steps st ++ [m])
                (users st) (bots st)
  | TupleMessage _ _ => st
  end.

Definition clean_state (messages : list message) : list message :=
  cleaned_messages (fold_left clean_state_step messages start).

(** One round of the [for] loop of [clean_state2]: no rewriting, and every
    tool message is a middle step. *)
Definition clean_state2_step (st : cleaner) (m : message) : cleaner :=
  match m with
  | HumanMessage _ _ =>
      Cleaner (cleaned_messages st ++ [m]) (middle_steps st) (S (users st)) (bots st)
  | AIMessage _ c _ meta =>
      if truthy c && bool_decide (is_Some meta) then
        let cleaned := cleaned_messages st ++ [m] in
        let bots := S (bots st) in
        if (users st =? bots)%nat then
          Cleaner (without (middle_steps st) cleaned) [] (users st) bots
        else Cleaner cleaned (middle_steps st) (users st) bots
      else
        Cleaner (cleaned_messages st ++ [m]) (middle_steps st ++ [m])
                (users st) (bots st)
  | ToolMessage _ _ _ =>
      Cleaner (cleaned_messages st ++ [m]) (middle_steps st ++ [m])
              (users st) (bots st)
  | TupleMessage _ _ => st
  end.

Definition clean_state2 (messages : list message) : list message :=
  cleaned_messages (fold_left clean_state2_step messages start).

(** *** The token budget *)

Definition response_metadata (m : message) : option Z :=
  match m with
  | AIMessage _ _ _ meta => meta
  | _ => None
  end.

(** [messages[-2]] when [len(messages) >= 2]. *)
Definition second_to_last (messages : list message) : option message :=
  if (2 <=? length messages)%nat then messages !! (length messages - 2)%nat
  else None.

(** The block under [if len(state.get("messages")) >= 2] of [__call__]. *)
Definition trim_by_usage (messages : list message) : list message :=
  match second_to_last messages with
  | Some m =>
      match response_metadata m with
      | Some tokens =>
          if (tokens <? 7000) && (5000 <? tokens) then last_n 3 messages
          else if 7000 <? tokens then last_n 4 (clean_state2 messages)
          else messages
      | None => messages
      end
  | None => messages
  end.

(** The state that the model is invoked on. *)
Definition compact (messages : list message) : list message :=
  trim_by_usage (clean_state messages).

(** *** The loop of [Assistant.__call__] *)

(** What the bound model returns: the fields of an [AIMessage]. *)
Record ai_message := AI {
  ai_id : option string;
  ai_content : content;
  ai_tool_calls : list tool_call;
  ai_metadata : option Z
}.

Definition to_message (r : ai_message) : message :=
  AIMessage (ai_id r) (ai_content r) (ai_tool_calls r) (ai_metadata r).

Definition apology : ai_message :=
  AI None
     (CText "I apologize for the inconvenience. I'm having trouble processing your request right now. Could you please try rephrasing your question or providing more details?")
     [] None.

Definition reprompt : message := TupleMessage "user" "Respond with a real output.".

Definition no_text (o : option string) : bool :=
  match o with
  | None => true
  | Some s => bool_decide (s = EmptyString)
  end.

(** The test for an empty response: no tool calls, and a content that is
    empty or a list whose first block has no text. *)
Definition empty_response (result : ai_message) : bool :=
  bool_decide (ai_tool_calls result = [])
  && (negb (truthy (ai_content result))
      || match ai_content result with
         | CBlocks (b :: _) => no_text (block_text b)
         | _ => false
         end).

(** How one round of the [while True] loop ends. *)
Inductive round :=
| Break (result : ai_message) (state : list message)
| Loop (state : list message).


Section Call.

(** The bound model: [runnable k messages] is what the invocation number
    [k] of this call answers on [messages]. *)
Variable runnable : nat -> list message -> res ai_message.

Definition one_round (k : nat) (state : list message) : round :=
  let state := compact state in
  match runnable k state with
  | Raise e => Break apology state
  | Ok result =>
      if empty_response result then Loop (state ++ [reprompt])
      else Break result (filter (fun message => message <> reprompt) state)
  end.



(** The state at the start of round [k], when no earlier round left the
    loop, and the answer of the model in that round. *)
Fixpoint state_at (k : nat) (state : list message) : list message :=
  match k with
  | O => state
  | S k' => compact (state_at k' state) ++ [reprompt]
  end.

Definition answer_at (k : nat) (state : list message) : res ai_message :=
  runnable k (compact (state_at k state)).


End Call.

(** *** The tool node and its fallback *)

Definition AttributeError_tool_calls : exn :=
  Exception "AttributeError('tool_calls')" "tool_calls".

(** [message.tool_calls], an attribute of assistant messages. *)
Definition tool_calls_of (m : message) : res (list tool_call) :=
  match m with
  | AIMessage _ _ tool_calls _ => Ok tool_calls
  | _ => Raise AttributeError_tool_calls
  end.

Definition error_text (error : exn) : string :=
  "Error: " +:+ exn_repr error +:+ nl +:+ " please fix your mistakes.".

(** [handle_tool_error(state)], with [state["error"]] the exception that
    the tool node raised. *)
Definition handle_tool_error (messages : list message) (error : exn) :
    res (list message) :=
  last_message ← last_item messages;
  tool_calls_of last_message ≫= fun tool_calls : list tool_call =>
  Ok ((fun tc => ToolMessage None (error_text error) (tc_id tc)) <$> tool_calls).

Section Fallback.

(** [ToolNode(tools)] on the messages of the state: the messages it adds,
    or the exception that escapes it. *)
Variable tool_node : list message -> res (list message).

(** The node built by [create_tool_node_with_fallback]. *)
Definition tool_node_with_fallback (messages : list message) : res (list message) :=
  match tool_node messages with
  | Ok added => Ok added
  | Raise error => handle_tool_error messages error
  end.

(** The state after the node: the reducer appends what the node returns. *)
Definition tools_step (messages : list message) : res (list message) :=
  added ← tool_node_with_fallback messages;
  Ok (messages ++ added).

End Fallback.

(** *** Compaction keeps the order of the log *)

(** An entry and what compaction may make of it: the entry itself, or, for
    a tool message, the same message with a rewritten content. *)
Definition same_entry (a b : message) : Prop :=
  match a, b with
  | ToolMessage i _ t, ToolMessage i' _ t' => i = i' /\ t = t'
  | _, _ => a = b
  end.

(** [retained log kept]: [kept] is obtained from [log] by removing entries
    and rewriting the content of tool messages, without moving any. *)
Inductive retained : list message -> list message -> Prop :=
| retained_nil : retained [] []
| retained_keep a b log kept :
    same_entry a b -> retained log kept -> retained (a :: log) (b :: kept)
| retained_drop a log kept :
    retained log kept -> retained (a :: log) kept.

Definition is_user (m : message) : bool :=
  match m with
  | HumanMessage _ _ => true
  | _ => false
  end.

Definition user_count (log : list message) : nat := length (filter is_user log).

Lemma same_entry_refl a : same_entry a a.
Proof. now destruct a. Qed.

Lemma same_entry_trans a b c : same_entry a b -> same_entry b c -> same_entry a c.
Proof.
  destruct a, b; cbn; try (intros ->; done); try discriminate.
  destruct c; cbn; try discriminate; try done.
  intros [-> ->] [-> ->]. done.
Qed.

Lemma same_entry_update_tool_messages a : same_entry a (update_tool_messages a).
Proof. now destruct a. Qed.

Lemma same_entry_update_step a : same_entry a (update_step a).
Proof.
  destruct a as [| |i c t|]; cbn; try done.
  destruct (has_identifier c); cbn; done.
Qed.

Lemma same_entry_is_user a b : same_entry a b -> is_user a = is_user b.
Proof. destruct a, b; cbn; try (intros ->; done); try discriminate; done. Qed.

Lemma retained_refl log : retained log log.
Proof. induction log; constructor; auto using same_entry_refl. Qed.

Lemma retained_nil_r log : retained log [].
Proof. induction log; constructor; auto. Qed.

Lemma retained_app log kept log' kept' :
  retained log kept -> retained log' kept' -> retained (log ++ log') (kept ++ kept').
Proof. induction 1; cbn; intros; try constructor; auto. Qed.

Lemma retained_trans a b c : retained a b -> retained b c -> retained a c.
Proof.
  intros Hab. revert c. induction Hab as [|x y l k Hxy Hlk IH|x l k Hlk IH]; intros c Hbc.
  - exact Hbc.
  - inversion Hbc; subst.
    + constructor; eauto using same_entry_trans.
    + constructor 3. eauto.
  - constructor 3. eauto.
Qed.

Lemma retained_filter (P : message -> Prop) `{!forall m, Decision (P m)} log :
  retained log (filter P log).
Proof.
  induction log as [|a log IH]; [constructor|].
  rewrite filter_cons. destruct (decide (P a)); constructor; auto using same_entry_refl.
Qed.

Lemma retained_fmap (f : message -> message) log :
  (forall a, same_entry a (f a)) -> retained log (f <$> log).
Proof. intros Hf. induction log; cbn; constructor; auto. Qed.

Lemma retained_tail n log : retained log (drop n log).
Proof.
  revert n. induction log as [|a log IH]; intros [|n]; cbn;
    auto using retained_refl, retained_nil_r.
  constructor 3. apply IH.
Qed.

Lemma retained_user_count log kept :
  retained log kept -> (user_count kept <= user_count log)%nat.
Proof.
  unfold user_count. induction 1 as [|a b l k Hab _ IH|a l k _ IH]; [done|..].
  - rewrite !filter_cons, <- (same_entry_is_user _ _ Hab).
    destruct (decide (is_user a)); cbn; lia.
  - rewrite filter_cons. destruct (decide (is_user a)); cbn; lia.
Qed.

Lemma retained_sublist log kept :
  retained log kept ->
  exists original, original `sublist_of` log /\ Forall2 same_entry original kept.
Proof.
  induction 1 as [|a b l k Hab _ (o & Hs & Hf)|a l k _ (o & Hs & Hf)].
  - exists []. split; constructor.
  - exists (a :: o). split; [now apply sublist_skip|now constructor].
  - exists o. split; [now apply sublist_cons|done].
Qed.

Lemma fold_retained (step : cleaner -> message -> cleaner) :
  (forall st m prefix,
      retained prefix (cleaned_messages st) ->
      retained (prefix ++ [m]) (cleaned_messages (step st m))) ->
  forall messages st prefix,
    retained prefix (cleaned_messages st) ->
    retained (prefix ++ messages) (cleaned_messages (fold_left step messages st)).
Proof.
  intros Hstep. induction messages as [|m messages IH]; intros st prefix Hp; cbn.
  - now rewrite app_nil_r.
  - replace (prefix ++ m :: messages) with ((prefix ++ [m]) ++ messages)
      by now rewrite <- (assoc_L (++)).
    apply IH, Hstep, Hp.
Qed.

Lemma retained_push prefix kept m :
  retained prefix kept -> retained (prefix ++ [m]) (kept ++ [m]).
Proof. intros H. apply retained_app; [done|apply retained_refl]. Qed.

Lemma retained_skip prefix kept m :
  retained prefix kept -> retained (prefix ++ [m]) kept.
Proof.
  intros H. rewrite <- (app_nil_r kept). apply retained_app; [done|apply retained_nil_r].
Qed.

Lemma clean_state_step_retained st m prefix :
  retained prefix (cleaned_messages st) ->
  retained (prefix ++ [m]) (cleaned_messages (clean_state_step st m)).
Proof.
  intros Hp. destruct m as [i t|i c tcs meta|i c t|r t]; cbn.
  - now apply retained_push.
  - destruct (truthy c && bool_decide (is_Some meta)); cbn; [|now apply retained_push].
    destruct (users st =? S (bots st))%nat; cbn; [|now apply retained_push].
    eapply retained_trans; [apply retained_push, Hp|].
    eapply retained_trans; [apply retained_fmap, same_entry_update_step|].
    apply retained_filter.
  - destruct (has_identifier c); cbn; now apply retained_push.
  - now apply retained_skip.
Qed.

Lemma clean_state2_step_retained st m prefix :
  retained prefix (cleaned_messages st) ->
  retained (prefix ++ [m]) (cleaned_messages (clean_state2_step st m)).
Proof.
  intros Hp. destruct m as [i t|i c tcs meta|i c t|r t]; cbn.
  - now apply retained_push.
  - destruct (truthy c && bool_decide (is_Some meta)); cbn; [|now apply retained_push].
    destruct (users st =? S (bots st))%nat; cbn; [|now apply retained_push].
    eapply retained_trans; [apply retained_push, Hp|]. apply retained_filter.
  - now apply retained_push.
  - now apply retained_skip.
Qed.

Lemma clean_state_retained log : retained log (clean_state log).
Proof.
  apply (fold_retained _ clean_state_step_retained log start []). constructor.
Qed.

Lemma clean_state2_retained log : retained log (clean_state2 log).
Proof.
  apply (fold_retained _ clean_state2_step_retained log start []). constructor.
Qed.

Lemma trim_by_usage_retained log : retained log (trim_by_usage log).
Proof.
  unfold trim_by_usage. destruct (second_to_last log) as [m|]; [|apply retained_refl].
  destruct (response_metadata m) as [tokens|]; [|apply retained_refl].
  destruct ((tokens <? 7000) && (5000 <? tokens)); [apply retained_tail|].
  destruct (7000 <? tokens); [|apply retained_refl].
  eapply retained_trans; [apply clean_state2_retained|apply retained_tail].
Qed.

Lemma compact_retained log : retained log (compact log).
Proof.
  eapply retained_trans; [apply clean_state_retained|apply trim_by_usage_retained].
Qed.

(** C6.  The log after compaction is a subsequence of the log before it,
    entry by entry the same message or the same tool message with a
    rewritten content, so no two retained messages change their relative
    order; and it holds at most as many user messages as the log before. *)
Theorem compact_keeps_order (log : list message) :
  (exists original,
      original `sublist_of` log /\ Forall2 same_entry original (compact log))
  /\ (user_count (compact log) <= user_count log)%nat.
Proof.
  split.
  - apply retained_sublist, compact_retained.
  - apply retained_user_count, compact_retained.
Qed.

(** *** The token budget, case by case *)

Lemma trim_by_usage_policy messages m tokens :
  second_to_last messages = Some m -> response_metadata m = Some tokens ->
  (5000 < tokens < 7000 -> trim_by_usage messages = last_n 3 messages)
  /\ (7000 < tokens -> trim_by_usage messages = last_n 4 (clean_state2 messages))
  /\ (tokens <= 5000 -> trim_by_usage messages = messages)
  /\ (tokens = 7000 -> trim_by_usage messages = messages).
Proof.
  intros Hm Ht. unfold trim_by_usage. rewrite Hm, Ht.
  repeat split; intros H.
  - destruct (Z.ltb_spec tokens 7000), (Z.ltb_spec 5000 tokens); try lia. done.
  - destruct (Z.ltb_spec tokens 7000), (Z.ltb_spec 7000 tokens); try lia. done.
  - destruct (Z.ltb_spec tokens 7000), (Z.ltb_spec 5000 tokens),
      (Z.ltb_spec 7000 tokens); try lia; done.
  - subst tokens. reflexivity.
Qed.

Lemma trim_by_usage_without_usage messages :
  (forall m, second_to_last messages = Some m -> response_metadata m = None) ->
  trim_by_usage messages = messages.
Proof.
  intros H. unfold trim_by_usage. destruct (second_to_last messages) as [m|]; [|done].
  now rewrite (H m eq_refl).
Qed.

(** Two closed turns and a new prompt; the last assistant message reports
    [tokens] tokens. *)
Definition budget_log (tokens : Z) : list message :=
  [ HumanMessage (Some "1") "Is my car covered?";
    AIMessage (Some "2") (CText EmptyString)
      [ToolCall "check_warranty_status" "MH02XX1234" "call_1"] (Some 900);
    ToolMessage (Some "3") "covered until 2027" "call_1";
    AIMessage (Some "4") (CText "Yes, it is covered.") [] (Some 1200);
    HumanMessage (Some "5") "Can I add the CCP?";
    AIMessage (Some "6") (CText "Yes, you are eligible.") [] (Some tokens);
    HumanMessage (Some "7") "Please go ahead." ].

Definition classified (tokens : Z) : list message :=
  [ HumanMessage (Some "1") "Is my car covered?";
    AIMessage (Some "4") (CText "Yes, it is covered.") [] (Some 1200);
    HumanMessage (Some "5") "Can I add the CCP?";
    AIMessage (Some "6") (CText "Yes, you are eligible.") [] (Some tokens);
    HumanMessage (Some "7") "Please go ahead." ].

Example budget_log_classified :
  clean_state (budget_log 6000) = classified 6000.
Proof. vm_compute. reflexivity. Qed.

Example compact_6999 : compact (budget_log 6999) = last_n 3 (classified 6999).
Proof. vm_compute. reflexivity. Qed.

Example compact_7001 : compact (budget_log 7001) = last_n 4 (classified 7001).
Proof. vm_compute. reflexivity. Qed.

Example compact_5000 : compact (budget_log 5000) = classified 5000.
Proof. vm_compute. reflexivity. Qed.

(** C1, at the bound between the two truncations.  With a usage of
    exactly 7000 tokens on the second-to-last message neither test of the
    source holds: the five classified messages all stay, where the claim
    keeps the last three. *)
Theorem usage_7000_is_not_trimmed :
  clean_state (budget_log 7000) = classified 7000
  /\ (second_to_last (classified 7000) ≫= response_metadata) = Some 7000
  /\ compact (budget_log 7000) = classified 7000
  /\ compact (budget_log 7000) <> last_n 3 (classified 7000).
Proof. vm_compute. repeat split; try reflexivity. intros H. discriminate H. Qed.

(** *** The fallback of the tool node *)

(** C7.  When the tool node raises on a state whose last message is an
    assistant message, the node with the fallback returns normally: one
    tool message for each tool call of that message, in their order, with
    the error text built from the [repr] of the exception and with the
    id of the call; the reducer appends them to the log. *)
Theorem tool_error_is_fed_back (tool_node : list message -> res (list message))
    (messages : list message) (error : exn)
    (id : option string) (c : content) (tool_calls : list tool_call)
    (meta : option Z) :
  tool_node messages = Raise error ->
  last messages = Some (AIMessage id c tool_calls meta) ->
  let answers :=
    (fun tc => ToolMessage None
                 ("Error: " +:+ exn_repr error +:+ nl +:+ " please fix your mistakes.")
                 (tc_id tc)) <$> tool_calls in
  tool_node_with_fallback tool_node messages = Ok answers
  /\ tools_step tool_node messages = Ok (messages ++ answers).
Proof.
  intros Hraise Hlast answers.
  assert (tool_node_with_fallback tool_node messages = Ok answers) as Hfb.
  { unfold tool_node_with_fallback, handle_tool_error, last_item.
    rewrite Hraise, Hlast. reflexivity. }
  split; [exact Hfb|]. unfold tools_step. now rewrite Hfb.
Qed.

Definition KeyError_registration : exn :=
  Exception "KeyError('registration')" "'registration'".

Definition two_calls : list message :=
  [ HumanMessage (Some "1") "Check both of my cars.";
    AIMessage (Some "2") (CText EmptyString)
      [ ToolCall "check_warranty_status" "MH02XX1234" "call_a";
        ToolCall "check_warranty_status" "MH02XX9999" "call_b" ] (Some 700) ].

Lemma tool_error_is_fed_back_witness :
  tool_node_with_fallback (fun _ => Raise KeyError_registration) two_calls
  = Ok [ ToolMessage None
           ("Error: KeyError('registration')" +:+ nl +:+ " please fix your mistakes.")
           "call_a";
         ToolMessage None
           ("Error: KeyError('registration')" +:+ nl +:+ " please fix your mistakes.")
           "call_b" ].
Proof.
  exact (proj1 (tool_error_is_fed_back (fun _ => Raise KeyError_registration)
                  two_calls KeyError_registration _ _ _ _ eq_refl eq_refl)).
Defined.

(** *** Termination of the loop of [__call__] *)

(** Classification drops raw tuples, so the state that the model is
    invoked on never holds the re-prompt. *)
Definition is_tuple (m : message) : bool :=
  match m with
  | TupleMessage _ _ => true
  | _ => false
  end.

Definition no_tuples (log : list message) : Prop := Forall (fun m => is_tuple m = false) log.

Lemma update_step_is_tuple m : is_tuple (update_step m) = is_tuple m.
Proof. destruct m as [| |i c t|]; cbn; try done. now destruct (has_identifier c). Qed.

Lemma no_tuples_push log m : no_tuples log -> is_tuple m = false -> no_tuples (log ++ [m]).
Proof. intros Hl Hm. apply Forall_app. split; [done|]. now constructor. Qed.

Lemma no_tuples_without middle log : no_tuples log -> no_tuples (without middle log).
Proof.
  unfold no_tuples, without. rewrite !Forall_forall.
  intros H m [_ Hm]%list_elem_of_filter. auto.
Qed.

Lemma no_tuples_update log : no_tuples log -> no_tuples (update_step <$> log).
Proof.
  intros H. apply Forall_fmap. eapply Forall_impl; [exact H|].
  intros m Hm. cbn. now rewrite update_step_is_tuple.
Qed.

Lemma fold_no_tuples (step : cleaner -> message -> cleaner) :
  (forall st m, no_tuples (cleaned_messages st) ->
                no_tuples (cleaned_messages (step st m))) ->
  forall messages st, no_tuples (cleaned_messages st) ->
                      no_tuples (cleaned_messages (fold_left step messages st)).
Proof.
  intros Hstep. induction messages as [|m messages IH]; intros st Hst; cbn; auto.
Qed.

Lemma clean_state_no_tuples log : no_tuples (clean_state log).
Proof.
  apply fold_no_tuples; [|constructor].
  intros st m Hst. destruct m as [i t|i c tcs meta|i c t|r t]; cbn; auto.
  - now apply no_tuples_push.
  - destruct (truthy c && bool_decide (is_Some meta)); cbn; [|now apply no_tuples_push].
    destruct (users st =? S (bots st))%nat; cbn; [|now apply no_tuples_push].
    apply no_tuples_without, no_tuples_update. now apply no_tuples_push.
  - destruct (has_identifier c); cbn; now apply no_tuples_push.
Qed.

Lemma clean_state2_no_tuples log : no_tuples (clean_state2 log).
Proof.
  apply fold_no_tuples; [|constructor].
  intros st m Hst. destruct m as [i t|i c tcs meta|i c t|r t]; cbn; auto.
  - now apply no_tuples_push.
  - destruct (truthy c && bool_decide (is_Some meta)); cbn; [|now apply no_tuples_push].
    destruct (users st =? S (bots st))%nat; cbn; [|now apply no_tuples_push].
    apply no_tuples_without. now apply no_tuples_push.
  - now apply no_tuples_push.
Qed.

Lemma no_tuples_drop n log : no_tuples log -> no_tuples (drop n log).
Proof. apply Forall_drop. Qed.

Lemma compact_no_tuples log : no_tuples (compact log).
Proof.
  unfold compact, trim_by_usage. pose proof (clean_state_no_tuples log) as Hc.
  destruct (second_to_last (clean_state log)) as [m|]; [|done].
  destruct (response_metadata m) as [tokens|]; [|done].
  destruct ((tokens <? 7000) && (5000 <? tokens)); [now apply no_tuples_drop|].
  destruct (7000 <? tokens); [|done].
  apply no_tuples_drop, clean_state2_no_tuples.
Qed.


Section CallFacts.

Variable runnable : nat -> list message -> res ai_message.

(** The message that a round returns on the answer [a], and the local
    state it leaves. *)
Definition chosen (a : res ai_message) : ai_message :=
  match a with
  | Raise _ => apology
  | Ok result => result
  end.











End CallFacts.

(** Tool calls or text is what keeps a result from being an empty
    response; of a list content the first block counts. *)
Definition has_text (c : content) : bool :=
  match c with
  | CText s => negb (bool_decide (s = EmptyString))
  | CBlocks [] => false
  | CBlocks (b :: _) => negb (no_text (block_text b))
  end.

Lemma empty_response_spec a :
  empty_response a = false <-> ai_tool_calls a <> [] \/ has_text (ai_content a) = true.
Proof.
  unfold empty_response, has_text, truthy.
  destruct a as [i c tcs meta]; cbn.
  destruct tcs as [|tc tcs]; cbn.
  - destruct c as [s|[|b bs]]; cbn.
    + destruct (bool_decide (s = EmptyString)); cbn; intuition congruence.
    + intuition congruence.
    + destruct (no_text (block_text b)); cbn; intuition congruence.
  - intuition congruence.
Qed.





(** *** What classification keeps, and what the close of a turn removes *)

(** A final answer: an assistant message with a content and with
    metadata of the response. *)
Definition is_final (m : message) : bool :=
  match m with
  | AIMessage _ c _ meta => truthy c && bool_decide (is_Some meta)
  | _ => false
  end.

(** An assistant message that is no final answer: its content is empty
    or it has no metadata of the response. *)
Definition is_intermediate (m : message) : bool :=
  match m with
  | AIMessage _ c _ meta => negb (truthy c && bool_decide (is_Some meta))
  | _ => false
  end.

Definition is_turn (m : message) : bool := is_user m || is_final m.

Definition final_count (log : list message) : nat := length (filter is_final log).

Lemma update_step_turn m : is_turn m = true -> update_step m = m.
Proof. destruct m; cbn; try done. Qed.

Lemma update_step_is_turn m : is_turn (update_step m) = is_turn m.
Proof.
  destruct m as [| |i c t|]; cbn; try done. destruct (has_identifier c); done.
Qed.

Lemma filter_turn_update (l : list message) :
  filter is_turn (update_step <$> l) = filter is_turn l.
Proof.
  induction l as [|m l IH]; [done|].
  rewrite fmap_cons, !filter_cons, update_step_is_turn, IH.
  destruct (decide (is_turn m)) as [Hm|Hm]; [|done].
  rewrite update_step_turn; [done|]. now apply Is_true_true.
Qed.

Lemma filter_turn_without (middle l : list message) :
  Forall (fun m => is_turn m = false) middle ->
  filter is_turn (without middle l) = filter is_turn l.
Proof.
  intros Hmiddle. unfold without. induction l as [|m l IH]; [done|].
  rewrite !filter_cons.
  destruct (decide (m ∉ middle)) as [Hout|Hin].
  - rewrite filter_cons, IH. done.
  - rewrite IH. destruct (decide (is_turn m)) as [Hm|Hm]; [|done].
    exfalso. apply Hin. intros Hin'.
    rewrite Forall_forall in Hmiddle. specialize (Hmiddle _ Hin').
    rewrite Hmiddle in Hm. done.
Qed.

Lemma filter_turn_push (l : list message) (m : message) :
  filter is_turn (l ++ [m]) = filter is_turn l ++ (if is_turn m then [m] else []).
Proof.
  rewrite filter_app, filter_cons, filter_nil.
  destruct (is_turn m).
  - now rewrite decide_True.
  - now rewrite decide_False.
Qed.

(** The invariant of the loop of [clean_state]: user messages and final
    answers are all there, and none of them is a middle step. *)
Lemma clean_state_step_turns st m prefix :
  filter is_turn (cleaned_messages st) = filter is_turn prefix ->
  Forall (fun m => is_turn m = false) (middle_steps st) ->
  filter is_turn (cleaned_messages (clean_state_step st m)) = filter is_turn (prefix ++ [m])
  /\ Forall (fun m => is_turn m = false) (middle_steps (clean_state_step st m)).
Proof.
  intros Hkept Hmiddle. rewrite (filter_turn_push prefix).
  destruct m as [i t|i c tcs meta|i c t|r t]; cbn [clean_state_step].
  - cbn [cleaned_messages middle_steps]. rewrite filter_turn_push, Hkept. done.
  - destruct (truthy c && bool_decide (is_Some meta)) eqn:Hfinal.
    + assert (is_turn (AIMessage i c tcs meta) = true) as Hturn by (cbn; now rewrite Hfinal).
      cbn zeta. destruct (users st =? S (bots st))%nat; cbn [cleaned_messages middle_steps].
      * rewrite filter_turn_without by done.
        rewrite filter_turn_update, filter_turn_push, Hkept. split; [done|constructor].
      * rewrite filter_turn_push, Hkept. done.
    + assert (is_turn (AIMessage i c tcs meta) = false) as Hturn by (cbn; now rewrite Hfinal).
      cbn [cleaned_messages middle_steps]. rewrite filter_turn_push, Hkept. split; [done|].
      apply Forall_app. split; [done|]. now constructor.
  - destruct (has_identifier c); cbn [cleaned_messages middle_steps];
      rewrite filter_turn_push, Hkept; (split; [done|]); [done|].
    apply Forall_app. split; [done|]. now constructor.
  - cbn. rewrite app_nil_r. done.
Qed.

Lemma clean_state_fold_turns log st prefix :
  filter is_turn (cleaned_messages st) = filter is_turn prefix ->
  Forall (fun m => is_turn m = false) (middle_steps st) ->
  filter is_turn (cleaned_messages (fold_left clean_state_step log st))
  = filter is_turn (prefix ++ log).
Proof.
  revert st prefix. induction log as [|m log IH]; intros st prefix Hkept Hmiddle; cbn.
  - now rewrite app_nil_r.
  - replace (prefix ++ m :: log) with ((prefix ++ [m]) ++ log)
      by now rewrite <- (assoc_L (++)).
    destruct (clean_state_step_turns st m prefix Hkept Hmiddle) as [Hk Hm].
    now apply IH.
Qed.

(** X17.  Classification never drops or alters what was said: the user
    messages and the final answers (assistant messages with content and
    response metadata) of the log are exactly those of the classified log,
    in the same order. *)
Theorem clean_state_keeps_turns (log : list message) :
  filter is_turn (clean_state log) = filter is_turn log.
Proof.
  unfold clean_state. apply (clean_state_fold_turns log start []); [done|constructor].
Qed.

Lemma clean_state_step_counters st m :
  users (clean_state_step st m) = (users st + (if is_user m then 1 else 0))%nat
  /\ bots (clean_state_step st m) = (bots st + (if is_final m then 1 else 0))%nat.
Proof.
  destruct m as [i t|i c tcs meta|i c t|r t]; cbn.
  - lia.
  - destruct (truthy c && bool_decide (is_Some meta)); cbn.
    + destruct (users st =? S (bots st))%nat; cbn; lia.
    + lia.
  - destruct (has_identifier c); cbn; lia.
  - lia.
Qed.

Lemma clean_state_fold_counters log st :
  users (fold_left clean_state_step log st) = (users st + user_count log)%nat
  /\ bots (fold_left clean_state_step log st) = (bots st + final_count log)%nat.
Proof.
  unfold user_count, final_count.
  revert st. induction log as [|m log IH]; intros st; cbn [fold_left].
  - rewrite !filter_nil. cbn. lia.
  - destruct (IH (clean_state_step st m)) as [-> ->].
    destruct (clean_state_step_counters st m) as [-> ->].
    rewrite !filter_cons.
    destruct (is_user m), (is_final m); cbn;
      rewrite ?(decide_True (P := True)), ?(decide_False (P := False)) by tauto;
      cbn [length]; lia.
Qed.

(** Every assistant message among the cleaned messages that is no final
    answer is still among the middle steps. *)
Definition intermediate_pending (st : cleaner) : Prop :=
  forall x, x ∈ cleaned_messages st -> is_intermediate x = true -> x ∈ middle_steps st.

Lemma update_step_intermediate y :
  is_intermediate (update_step y) = true -> update_step y = y.
Proof.
  destruct y as [| |i c t|]; cbn; try done.
  destruct (has_identifier c); cbn; done.
Qed.

Lemma final_not_intermediate m : is_final m = true -> is_intermediate m = false.
Proof. destruct m; cbn; try done. now intros ->. Qed.

Lemma closing_leaves_no_intermediate st m :
  intermediate_pending st -> is_intermediate m = false ->
  Forall (fun x => is_intermediate x = false)
    (without (middle_steps st) (update_step <$> (cleaned_messages st ++ [m]))).
Proof.
  intros Hst Hm. apply Forall_forall. intros x [Hout Hin]%list_elem_of_filter.
  destruct (is_intermediate x) eqn:Hx; [|done]. exfalso.
  apply list_elem_of_fmap in Hin as (y & -> & Hy).
  pose proof (update_step_intermediate y Hx) as Hsame. rewrite Hsame in Hx, Hout.
  apply elem_of_app in Hy as [Hy|Hy%list_elem_of_singleton].
  - apply Hout, Hst; done.
  - subst y. congruence.
Qed.

Lemma clean_state_step_pending st m :
  intermediate_pending st -> intermediate_pending (clean_state_step st m).
Proof.
  intros Hst.
  assert (forall middle' : list message,
             (forall x, x ∈ middle_steps st -> x ∈ middle') ->
             (is_intermediate m = true -> m ∈ middle') ->
             forall x, x ∈ cleaned_messages st ++ [m] -> is_intermediate x = true ->
                       x ∈ middle') as Hpush.
  { intros middle' Hsub Hnew x [Hx|Hx%list_elem_of_singleton]%elem_of_app Hint.
    - now apply Hsub, Hst.
    - subst x. now apply Hnew. }
  unfold intermediate_pending.
  destruct m as [i t|i c tcs meta|i c t|r t]; cbn [clean_state_step].
  - cbn [cleaned_messages middle_steps]. apply Hpush; [done|discriminate].
  - destruct (truthy c && bool_decide (is_Some meta)) eqn:Hfinal.
    + assert (is_intermediate (AIMessage i c tcs meta) = false) as Hm
        by (cbn; now rewrite Hfinal).
      cbn zeta. destruct (users st =? S (bots st))%nat; cbn [cleaned_messages middle_steps].
      * intros x Hx Hint.
        pose proof (closing_leaves_no_intermediate st _ Hst Hm) as Hnone.
        rewrite Forall_forall in Hnone. rewrite (Hnone x Hx) in Hint. discriminate.
      * apply Hpush; [done|congruence].
    + cbn [cleaned_messages middle_steps]. apply Hpush.
      * intros x Hx. apply elem_of_app. now left.
      * intros _. apply elem_of_app. right. now apply list_elem_of_singleton.
  - destruct (has_identifier c); cbn [cleaned_messages middle_steps]; apply Hpush;
      try done.
    intros x Hx. apply elem_of_app. now left.
  - exact Hst.
Qed.

Lemma clean_state_fold_pending log st :
  intermediate_pending st -> intermediate_pending (fold_left clean_state_step log st).
Proof.
  revert st. induction log as [|m log IH]; intros st Hst; cbn; [done|].
  apply IH, clean_state_step_pending, Hst.
Qed.

(** X18.  At the close of a turn the unfinished answers go: when a final
    answer, an assistant message with a content and response metadata,
    arrives that makes the final answers as many as the user messages,
    every assistant message of the classified log has a content and
    response metadata.  Assistant messages with an empty content or
    without metadata, such as bare requests for tools, are removed; one
    that carries tool calls beside a content and metadata counts as a
    final answer and stays. *)
Theorem closed_turn_keeps_only_final_answers (log : list message)
    (i : option string) (c : content) (tcs : list tool_call) (meta : option Z) :
  truthy c = true -> is_Some meta ->
  user_count log = S (final_count log) ->
  (forall i' c' tcs' meta',
      AIMessage i' c' tcs' meta' ∈ clean_state (log ++ [AIMessage i c tcs meta]) ->
      truthy c' = true /\ is_Some meta')
  /\ (forall i' c' tcs' meta',
        AIMessage i' c' tcs' meta' ∈ log ++ [AIMessage i c tcs meta] ->
        truthy c' = true -> is_Some meta' ->
        AIMessage i' c' tcs' meta' ∈ clean_state (log ++ [AIMessage i c tcs meta])).
Proof.
  intros Hc Hmeta Hcount. split.
  - intros i' c' tcs' meta' Hin.
    assert (is_final (AIMessage i c tcs meta) = true) as Hfinal.
    { cbn. rewrite Hc. cbn. now apply bool_decide_eq_true_2. }
    assert (Forall (fun x => is_intermediate x = false)
              (clean_state (log ++ [AIMessage i c tcs meta]))) as Hnone.
    { unfold clean_state. rewrite fold_left_app. cbn [fold_left].
      set (st := fold_left clean_state_step log start).
      assert (intermediate_pending st) as Hst.
      { apply clean_state_fold_pending. intros x Hx. now apply elem_of_nil in Hx. }
      destruct (clean_state_fold_counters log start) as [Husers Hbots].
      fold st in Husers, Hbots. cbn in Husers, Hbots.
      cbn in Hfinal. cbn [clean_state_step]. rewrite Hfinal. cbn zeta.
      rewrite Husers, Hbots, Hcount, Nat.eqb_refl. cbn [cleaned_messages].
      apply closing_leaves_no_intermediate; [done|]. cbn. now rewrite Hfinal. }
    rewrite Forall_forall in Hnone. specialize (Hnone _ Hin). cbn in Hnone.
    apply negb_false_iff, andb_true_iff in Hnone as [Hc' Hmeta'].
    split; [done|]. now apply bool_decide_eq_true_1 in Hmeta'.
  - intros i' c' tcs' meta' Hin Hc' Hmeta'.
    assert (is_turn (AIMessage i' c' tcs' meta')) as Hturn.
    { cbn. rewrite Hc'. cbn. apply Is_true_true. now apply bool_decide_eq_true_2. }
    assert (AIMessage i' c' tcs' meta'
            ∈ filter is_turn (clean_state (log ++ [AIMessage i c tcs meta]))) as Hkept.
    { unfold clean_state.
      rewrite (clean_state_fold_turns _ start []); [|done|constructor].
      now apply list_elem_of_filter. }
    now apply list_elem_of_filter in Hkept as [_ Hkept].
Qed.

Definition tool_turn : list message :=
  [ HumanMessage (Some "1") "Is my car covered?";
    AIMessage (Some "2") (CText EmptyString)
      [ToolCall "check_warranty_status" "MH02XX1234" "call_a"] (Some 700);
    ToolMessage (Some "3") "car_id: 7, covered" "call_a" ].

Lemma closed_turn_keeps_only_final_answers_witness :
  clean_state (tool_turn ++ [AIMessage (Some "4") (CText "Yes, it is covered.") [] (Some 900)])
  = [ HumanMessage (Some "1") "Is my car covered?";
      ToolMessage (Some "3") "car_id: 7, covered" "call_a";
      AIMessage (Some "4") (CText "Yes, it is covered.") [] (Some 900) ]
  /\ forall i' c' tcs' meta',
       AIMessage i' c' tcs' meta'
       ∈ clean_state
           (tool_turn ++ [AIMessage (Some "4") (CText "Yes, it is covered.") [] (Some 900)]) ->
       truthy c' = true /\ is_Some meta'.
Proof.
  split; [vm_compute; reflexivity|].
  apply (proj1 (closed_turn_keeps_only_final_answers tool_turn (Some "4")
                  (CText "Yes, it is covered.") [] (Some 900) eq_refl
                  (ex_intro _ 900 eq_refl) eq_refl)).
Defined.

Lemma clean_state_ignores_tuple log role text :
  clean_state (log ++ [TupleMessage role text]) = clean_state log.
Proof. unfold clean_state. now rewrite fold_left_app. Qed.

(** X19.  The re-prompt never reaches the model: classification skips the
    raw tuple that an empty response appends, so the state that the model
    is invoked on is the same with and without it; a round that follows an
    empty response invokes the model on the compaction of what it was
    invoked on before. *)
Theorem reprompt_is_never_seen (runnable : nat -> list message -> res ai_message)
    (state : list message) (k : nat) :
  compact (state ++ [reprompt]) = compact state
  /\ one_round runnable k (state ++ [reprompt]) = one_round runnable k state
  /\ answer_at runnable (S k) state
     = runnable (S k) (compact (compact (state_at k state)))
  /\ (reprompt ∉ compact (state_at k state)).
Proof.
  assert (forall l, compact (l ++ [reprompt]) = compact l) as Hsame.
  { intros l. unfold compact, reprompt. now rewrite clean_state_ignores_tuple. }
  split; [apply Hsame|]. split; [|split].
  - unfold one_round. now rewrite Hsame.
  - unfold answer_at. cbn [state_at]. now rewrite Hsame.
  - intros Hin. pose proof (compact_no_tuples (state_at k state)) as Hnone.
    unfold no_tuples in Hnone. rewrite Forall_forall in Hnone.
    specialize (Hnone _ Hin). discriminate.
Qed.

End Assistant.

(** ** CSV files and identifiers *)

(** A CSV file as [load_data] returns it: a frame without columns when the
    file does not exist, else the rows of the file. *)
Inductive table (A : Type) : Type :=
| Missing
| Rows (rows : list A).
Arguments Missing {A}.
Arguments Rows {A} rows.

Definition KeyError (column : string) : exn :=
  Exception ("KeyError('" +:+ column +:+ "')") ("'" +:+ column +:+ "'").

(** [df[column]], which raises on a frame without that column. *)
Definition column {A : Type} (name : string) (t : table A) : res (list A) :=
  match t with
  | Missing => Raise (KeyError name)
  | Rows rows => Ok rows
  end.

(** [str(n)] for an integer. *)
Definition str_of_Z (n : Z) : string :=
  if n <? 0 then "-" +:+ Normalize.str_of_N (Z.to_N (- n))
  else Normalize.str_of_N (Z.to_N n).

(** The next identifier of a table: [df[id].max() + 1 if not df.empty else 1]. *)
Definition next_id (ids : list Z) : Z :=
  match ids with
  | [] => 1
  | x :: xs => fold_left Z.max xs x + 1
  end.

Lemma fold_max_bound (xs : list Z) (x y : Z) :
  y <= x \/ y ∈ xs -> y <= fold_left Z.max xs x.
Proof.
  revert x. induction xs as [|z xs IH]; intros x [Hle|Hin]; cbn.
  - lia.
  - now apply elem_of_nil in Hin.
  - apply IH. left. lia.
  - apply elem_of_cons in Hin as [->|Hin]; apply IH; [left; lia|now right].
Qed.

Lemma next_id_fresh (ids : list Z) : next_id ids ∉ ids.
Proof.
  destruct ids as [|x xs]; [apply not_elem_of_nil|].
  intros Hin. cbn in Hin.
  assert (fold_left Z.max xs x + 1 <= fold_left Z.max xs x); [|lia].
  apply fold_max_bound. apply elem_of_cons in Hin as [Heq|?]; [left; lia|now right].
Qed.

Lemma filter_all_not {A : Type} (P : A -> Prop) `{!forall x, Decision (P x)} (l : list A) :
  (forall x, x ∈ l -> ~ P x) -> filter P l = [].
Proof.
  intros Hall. destruct (filter P l) as [|x k] eqn:Hf; [done|].
  assert (x ∈ filter P l) as [HP Hin]%list_elem_of_filter by (rewrite Hf; now left).
  now destruct (Hall x Hin).
Qed.

(** ** Dates: [datetime.strptime], [timedelta] and [strftime] *)

Module Dates.

Definition is_leap (year : Z) : bool :=
  (year mod 4 =? 0) && (negb (year mod 100 =? 0) || (year mod 400 =? 0)).

Definition days_before_year (year : Z) : Z :=
  let y := year - 1 in y * 365 + y / 4 - y / 100 + y / 400.

Definition days_in_month (year month : Z) : Z :=
  if (month =? 2) && is_leap year then 29
  else nth (Z.to_nat month) [0; 31; 28; 31; 30; 31; 30; 31; 31; 30; 31; 30; 31] 0.

Definition days_before_month_table (month : Z) : Z :=
  nth (Z.to_nat month) [0; 0; 31; 59; 90; 120; 151; 181; 212; 243; 273; 304; 334] 0.

Definition days_before_month (year month : Z) : Z :=
  days_before_month_table month + (if (2 <? month) && is_leap year then 1 else 0).

(** The proleptic Gregorian ordinal: 1 for the first of January of year 1. *)
Definition ymd2ord (year month day : Z) : Z :=
  days_before_year year + days_before_month year month + day.

Definition MAXORDINAL : Z := 3652059.

Definition ord2ymd (ordinal : Z) : Z * Z * Z :=
  let n := ordinal - 1 in
  let n400 := n / 146097 in
  let n := n mod 146097 in
  let n100 := n / 36524 in
  let n := n mod 36524 in
  let n4 := n / 1461 in
  let n := n mod 1461 in
  let n1 := n / 365 in
  let n := n mod 365 in
  let year := n400 * 400 + 1 + n100 * 100 + n4 * 4 + n1 in
  if (n1 =? 4) || (n100 =? 4) then (year - 1, 12, 31)
  else
    let leapyear := (n1 =? 3) && (negb (n4 =? 24) || (n100 =? 3)) in
    let month := Z.shiftr (n + 50) 5 in
    let preceding :=
      days_before_month_table month + (if (2 <? month) && leapyear then 1 else 0) in
    if n <? preceding then
      let month := month - 1 in
      let preceding :=
        preceding
        - (nth (Z.to_nat month) [0; 31; 28; 31; 30; 31; 30; 31; 31; 30; 31; 30; 31] 0
           + (if (month =? 2) && leapyear then 1 else 0)) in
      (year, month, n - preceding + 1)
    else (year, month, n - preceding + 1).

(** A [datetime]: the ordinal of its day and the microseconds since the
    midnight that begins it. *)
Record datetime := DateTime { ordinal : Z; micros : Z }.

Definition midnight (ordinal : Z) : datetime := DateTime ordinal 0.

(** [a > b] *)
Definition later (a b : datetime) : bool :=
  (ordinal b <? ordinal a) || ((ordinal a =? ordinal b) && (micros b <? micros a)).

(** [(a - b).days], the floor of the difference in days. *)
Definition days_between (a b : datetime) : Z :=
  ((ordinal a - ordinal b) * 86400000000 + (micros a - micros b)) / 86400000000.

Definition OverflowError : exn :=
  Exception "OverflowError('date value out of range')" "date value out of range".

(** [d + timedelta(days=days)] *)
Definition add_days (d : datetime) (days : Z) : res datetime :=
  let o := ordinal d + days in
  if (1 <=? o) && (o <=? MAXORDINAL) then Ok (DateTime o (micros d))
  else Raise OverflowError.

(** *** Parsing with the format [%d/%m/%Y] *)

Definition digit_value (c : ascii) : option Z :=
  let n := N_of_ascii c in
  if ((48 <=? n) && (n <=? 57))%N then Some (Z.of_N n - 48) else None.

(** The directive [%d]: two digits from 01 to 31, else one digit from 1
    to 9, else a space and such a digit.  What follows the directive in
    the format is a slash, so the first alternative that fits the text is
    the only one that can lead to a match. *)
Definition parse_day (s : string) : option (Z * string) :=
  match s with
  | String a (String b rest) =>
      match digit_value a, digit_value b with
      | Some x, Some y =>
          let v := 10 * x + y in
          if (1 <=? v) && (v <=? 31) then Some (v, rest) else None
      | Some x, None => if 1 <=? x then Some (x, String b rest) else None
      | None, Some y =>
          if decide (a = " "%char) then if 1 <=? y then Some (y, rest) else None
          else None
      | None, None => None
      end
  | String a EmptyString =>
      match digit_value a with
      | Some x => if 1 <=? x then Some (x, EmptyString) else None
      | None => None
      end
  | EmptyString => None
  end.

(** The directive [%m]: two digits from 01 to 12, else one from 1 to 9. *)
Definition parse_month (s : string) : option (Z * string) :=
  match s with
  | String a (String b rest) =>
      match digit_value a, digit_value b with
      | Some x, Some y =>
          let v := 10 * x + y in
          if (1 <=? v) && (v <=? 12) then Some (v, rest) else None
      | Some x, None => if 1 <=? x then Some (x, String b rest) else None
      | None, _ => None
      end
  | String a EmptyString =>
      match digit_value a with
      | Some x => if 1 <=? x then Some (x, EmptyString) else None
      | None => None
      end
  | EmptyString => None
  end.

(** The directive [%Y]: four digits. *)
Definition parse_year (s : string) : option (Z * string) :=
  match s with
  | String a (String b (String c (String d rest))) =>
      match digit_value a, digit_value b, digit_value c, digit_value d with
      | Some w, Some x, Some y, Some z => Some (1000 * w + 100 * x + 10 * y + z, rest)
      | _, _, _, _ => None
      end
  | _ => None
  end.

Definition expect_slash (s : string) : option string :=
  match s with
  | String c rest => if decide (c = "/"%char) then Some rest else None
  | EmptyString => None
  end.

Definition ValueError_format (s : string) : exn :=
  Exception ("ValueError(time data '" +:+ s +:+ "' does not match format '%d/%m/%Y')")
            ("time data '" +:+ s +:+ "' does not match format '%d/%m/%Y'").

Definition ValueError_range : exn :=
  Exception "ValueError('day is out of range for month')" "day is out of range for month".

(** [datetime.strptime(s, '%d/%m/%Y')] *)
Definition strptime (s : string) : res datetime :=
  match
    '(day, s1) ← parse_day s;
    s2 ← expect_slash s1;
    '(month, s3) ← parse_month s2;
    s4 ← expect_slash s3;
    '(year, s5) ← parse_year s4;
    if decide (s5 = EmptyString) then Some (year, month, day) else None
  with
  | Some (year, month, day) =>
      if (1 <=? year) && (day <=? days_in_month year month)
      then Ok (midnight (ymd2ord year month day))
      else Raise ValueError_range
  | None => Raise (ValueError_format s)
  end.

(** *** Formatting with [%d/%m/%Y] *)

Definition digit_char (d : Z) : ascii := ascii_of_N (48 + Z.to_N d).

Definition two_digits (v : Z) : string :=
  String (digit_char (v / 10)) (String (digit_char (v mod 10)) EmptyString).

Definition four_digits (v : Z) : string :=
  two_digits (v / 100) +:+ two_digits (v mod 100).

(** [d.strftime('%d/%m/%Y')], the year written with four digits. *)
Definition strftime (d : datetime) : string :=
  let '(year, month, day) := ord2ymd (ordinal d) in
  two_digits day +:+ "/" +:+ two_digits month +:+ "/" +:+ four_digits year.

Example strptime_first_of_2024 : strptime "01/01/2024" = Ok (midnight 738886).
Proof. vm_compute. reflexivity. Qed.

Example strptime_rejects_february_30 : strptime "30/02/2024" = Raise ValueError_range.
Proof. vm_compute. reflexivity. Qed.

Example strptime_rejects_iso : strptime "2024-01-01" = Raise (ValueError_format "2024-01-01").
Proof. vm_compute. reflexivity. Qed.

Example strftime_after_630_days :
  (d ← strptime "01/01/2024"; e ← add_days d 630; Ok (strftime e)) = Ok "22/09/2025".
Proof. vm_compute. reflexivity. Qed.

Example strftime_leap_day : strftime (midnight (ymd2ord 2024 2 29)) = "29/02/2024".
Proof. vm_compute. reflexivity. Qed.

Example strftime_end_of_year : strftime (midnight (ymd2ord 2024 12 31)) = "31/12/2024".
Proof. vm_compute. reflexivity. Qed.

End Dates.

(** ** Email notification: [send_email_notification] of notification_tools.py *)

Module Notification.

(** The environment variables that the function reads. *)
Record environ := Environ {
  SMTP_EMAIL : option string;
  SMTP_PASSWORD : option string;
  SMTP_SERVER : option string;
  SMTP_PORT : option string
}.

(** [os.getenv(name, default)] *)
Definition getenv (value : option string) (default : string) : string :=
  match value with
  | Some v => v
  | None => default
  end.

(** An HTML body of [email_templates]: its heading (without the leading
    pictograph of three of the headings), the message, the paragraph that
    follows the message and the footer. *)
Record html := Html {
  heading : string;
  paragraph : string;
  advice : option string;
  footer : string
}.

(** [email_templates.get(notification_type, email_templates["general"])] *)
Definition template (notification_type message : string) : html :=
  if decide (notification_type = "warranty_expiry") then
    Html "Maruti Suzuki Warranty Reminder" message
      (Some "Action Required: Your warranty is expiring soon. Contact us to extend your coverage.")
      "This is an automated notification from Maruti Suzuki Warranty Services. For assistance, contact: 1800-XXX-XXXX"
  else if decide (notification_type = "claim_update") then
    Html "Claim Status Update" message
      (Some "Track your claim status online or contact your service center.")
      "Maruti Suzuki Warranty Services"
  else if decide (notification_type = "purchase_confirmation") then
    Html "Purchase Confirmed" message
      (Some "Important: Keep this email for your records.")
      "Thank you for choosing Maruti Suzuki"
  else
    Html "Maruti Suzuki Notification" message None "Maruti Suzuki Warranty Services".

(** The [MIMEMultipart] message. *)
Record email := Email {
  From : string;
  To : string;
  Subject : string;
  html_content : html
}.

(** The dict that the function returns. *)
Record email_result := EmailResult {
  success : bool;
  recipient : string;
  subject : string;
  notification_type : string;
  message : string;
  delivery_status : string;
  note : option string
}.

Section Send.

(** The builtin [int] on a [str], and the operations of [smtplib.SMTP]:
    opening the connection, [starttls], [login], [send_message], and the
    [quit] at the end of the [with] block.  Each of them may raise. *)
Variable int_of_str : string -> res Z.
Variable smtp_connect : string -> Z -> res unit.
Variable smtp_starttls : res unit.
Variable smtp_login : string -> string -> res unit.
Variable smtp_send_message : email -> res unit.
Variable smtp_quit : res unit.

(** The body of the [try] block up to the [return]. *)
Definition deliver (env : environ) (recipient_email subject message notification_type : string) :
    res unit :=
  let sender_email := getenv (SMTP_EMAIL env) "warranty.support@marutisuzuki.com" in
  let sender_password := getenv (SMTP_PASSWORD env) "your_app_password" in
  let smtp_server := getenv (SMTP_SERVER env) "smtp.gmail.com" in
  smtp_port ← int_of_str (getenv (SMTP_PORT env) "587");
  let msg := Email sender_email recipient_email subject
                   (template notification_type message) in
  _ ← smtp_connect smtp_server smtp_port;
  match
    (_ ← smtp_starttls;
     _ ← (if decide (sender_password <> "your_app_password")
          then smtp_login sender_email sender_password else Ok tt);
     smtp_send_message msg)
  with
  | Ok _ => smtp_quit
  | Raise e => Raise e
  end.

Definition delivered (recipient_email subject notification_type : string) : email_result :=
  EmailResult true recipient_email subject notification_type
    ("Email sent successfully to " +:+ recipient_email) "Delivered" None.

Definition mock_delivery (recipient_email subject notification_type : string) : email_result :=
  EmailResult true recipient_email subject notification_type
    ("[DEV MODE] Email notification prepared for " +:+ recipient_email)
    "Mock delivery (configure SMTP for real delivery)"
    (Some "Set SMTP_EMAIL, SMTP_PASSWORD, SMTP_SERVER environment variables for actual email sending").

Definition send_email_notification (env : environ)
    (recipient_email subject message notification_type : string) : email_result :=
  try_except
    (_ ← deliver env recipient_email subject message notification_type;
     Ok (delivered recipient_email subject notification_type))
    (fun _ => mock_delivery recipient_email subject notification_type).

(** C9.  Whatever the arguments, the environment and the behaviour of the
    SMTP server, the function returns a dict (no exception leaves the
    [try]) whose [success] is true.  When anything in the delivery raises,
    the dict is the mock-delivery one, again with [success] true; the
    flag is the same for a delivered and for a failed email. *)
Theorem send_email_notification_reports_success (env : environ)
    (recipient_email subject message notification_type : string) :
  let r := send_email_notification env recipient_email subject message notification_type in
  success r = true
  /\ (forall e,
        deliver env recipient_email subject message notification_type = Raise e ->
        r = mock_delivery recipient_email subject notification_type
        /\ delivery_status r = "Mock delivery (configure SMTP for real delivery)")
  /\ (deliver env recipient_email subject message notification_type = Ok tt ->
      r = delivered recipient_email subject notification_type)
  /\ success (mock_delivery recipient_email subject notification_type)
     = success (delivered recipient_email subject notification_type).
Proof.
  cbn zeta. unfold send_email_notification.
  destruct (deliver env recipient_email subject message notification_type) as [[]|e0];
    cbn; repeat split; try done; intros e He; congruence.
Qed.

End Send.

Definition SMTPConnectError : exn :=
  Exception "ConnectionRefusedError(111, 'Connection refused')" "[Errno 111] Connection refused".

Definition no_env : environ := Environ None None None None.

(** A server that refuses the connection. *)
Lemma send_email_notification_reports_success_witness :
  let r := send_email_notification (fun _ => Ok 587) (fun _ _ => Raise SMTPConnectError)
             (Ok tt) (fun _ _ => Ok tt) (fun _ => Ok tt) (Ok tt)
             no_env "asha@example.com" "Claim update" "Your claim was approved." "claim_update" in
  success r = true
  /\ delivery_status r = "Mock delivery (configure SMTP for real delivery)".
Proof.
  cbn zeta.
  destruct (send_email_notification_reports_success
              (fun _ => Ok 587) (fun _ _ => Raise SMTPConnectError)
              (Ok tt) (fun _ _ => Ok tt) (fun _ => Ok tt) (Ok tt)
              no_env "asha@example.com" "Claim update" "Your claim was approved."
              "claim_update") as (Hs & Hmock & _).
  split; [exact Hs|].
  exact (proj2 (Hmock SMTPConnectError eq_refl)).
Defined.

(** *** Several channels at once: [send_multi_channel_notification] *)

(** The dict that a call of the SMS or of the WhatsApp tool returns: the
    one of a prepared message, with [success] true, or the one of a
    failure, with [success] false, the error and, for an SMS, the
    recipient. *)
Inductive text_result :=
| TextPrepared (recipient message_content notification_type message delivery_status : string)
               (note : option string)
| TextFailed (error : string) (recipient : option string).

(** [s.split(",")] *)
Fixpoint split_comma (s : string) : list string :=
  match s with
  | EmptyString => [EmptyString]
  | String c s' =>
      if decide (c = ","%char) then EmptyString :: split_comma s'
      else match split_comma s' with
           | piece :: pieces => String c piece :: pieces
           | [] => [String c EmptyString]
           end
  end.

(** [s.lstrip()], [s.rstrip()] and [s.strip()] on code points below 256. *)
Fixpoint lstrip (s : string) : string :=
  match s with
  | String c s' => if Normalize.is_space c then lstrip s' else s
  | EmptyString => EmptyString
  end.

Fixpoint rstrip (s : string) : string :=
  match s with
  | String c s' =>
      match rstrip s' with
      | EmptyString => if Normalize.is_space c then EmptyString else String c EmptyString
      | rest => String c rest
      end
  | EmptyString => EmptyString
  end.

Definition strip (s : string) : string := rstrip (lstrip s).

(** [s[:n]] *)
Fixpoint first_chars (n : nat) (s : string) : string :=
  match n, s with
  | S n', String c s' => String c (first_chars n' s')
  | _, _ => EmptyString
  end.

(** A value of [delivery_results]. *)
Inductive delivery :=
| ByEmail (result : email_result)
| ByText (result : text_result).

(** [result.get("success", False)] *)
Definition delivery_success (d : delivery) : bool :=
  match d with
  | ByEmail result => success result
  | ByText (TextPrepared _ _ _ _ _ _) => true
  | ByText (TextFailed _ _) => false
  end.

(** The dict of [send_multi_channel_notification]; [delivery_results] in
    the order of its keys. *)
Record multi_result := MultiResult {
  multi_notification_type : string;
  channels_attempted : list string;
  delivery_results : list (string * delivery);
  overall_success : bool;
  multi_message : string
}.

Definition channel_list (channels : string) : list string :=
  (fun ch => lower (strip ch)) <$> split_comma channels.

Section Channels.

(** The calls of the three tool objects from
    [send_multi_channel_notification], with their positional arguments:
    what each returns, or the exception that it raises. *)
Variable call_email : string -> string -> string -> string -> res email_result.
Variable call_sms : string -> string -> string -> res text_result.
Variable call_whatsapp : string -> string -> string -> res text_result.

(** [send_multi_channel_notification]; it has no [try]. *)
Definition send_multi_channel_notification
    (customer_email customer_phone subject message channels notification_type : string) :
    res multi_result :=
  let channel_list := channel_list channels in
  by_email ←
    (if bool_decide ("email" ∈ channel_list) then
       email_result ← call_email customer_email subject message notification_type;
       Ok [("email", ByEmail email_result)]
     else Ok []);
  by_sms ←
    (if bool_decide ("sms" ∈ channel_list) then
       let sms_message := first_chars 160 message in
       sms_result ← call_sms customer_phone sms_message notification_type;
       Ok [("sms", ByText sms_result)]
     else Ok []);
  by_whatsapp ←
    (if bool_decide ("whatsapp" ∈ channel_list) then
       whatsapp_result ← call_whatsapp customer_phone message notification_type;
       Ok [("whatsapp", ByText whatsapp_result)]
     else Ok []);
  let results := by_email ++ by_sms ++ by_whatsapp in
  let all_success := forallb delivery_success results.*2 in
  Ok (MultiResult notification_type (split_comma channels) results all_success
        (if all_success then "Notifications sent via all requested channels"
         else "Some notifications failed")).

End Channels.

Lemma first_chars_length n s : (String.length (first_chars n s) <= n)%nat.
Proof.
  revert s. induction n as [|n IH]; intros [|c s]; cbn; try lia.
  specialize (IH s). lia.
Qed.

Global Arguments first_chars : simpl never.

Section ChannelFacts.

Variable call_email : string -> string -> string -> string -> res email_result.
Variable call_sms : string -> string -> string -> res text_result.
Variable call_whatsapp : string -> string -> string -> res text_result.

(** X14.  [send_multi_channel_notification] serves, in the order email,
    sms, whatsapp, those of the three channels that the list names, the
    names compared in lower case without the blanks around them, the SMS
    with the first 160 characters of the message at most.  It has no
    [try]: the exception of the first call that raises leaves the
    function.  When every call returns, the answer lists the dicts
    returned under the channels served, [overall_success] is the
    conjunction of their [success] entries, and the message goes with it.
    A list that names none of the three channels is answered with
    [overall_success] true and no delivery at all. *)
Theorem multi_channel_outcomes
    (customer_email customer_phone subject message channels notification_type : string) :
  let run :=
    send_multi_channel_notification call_email call_sms call_whatsapp
      customer_email customer_phone subject message channels notification_type in
  let by_email := call_email customer_email subject message notification_type in
  let by_sms := call_sms customer_phone (first_chars 160 message) notification_type in
  let by_whatsapp := call_whatsapp customer_phone message notification_type in
  (("email" ∉ channel_list channels) -> ("sms" ∉ channel_list channels) ->
   ("whatsapp" ∉ channel_list channels) ->
   run = Ok (MultiResult notification_type (split_comma channels) [] true
               "Notifications sent via all requested channels"))
  /\ (forall e, "email" ∈ channel_list channels -> by_email = Raise e -> run = Raise e)
  /\ (forall e, "sms" ∈ channel_list channels ->
        ("email" ∈ channel_list channels -> exists r, by_email = Ok r) ->
        by_sms = Raise e -> run = Raise e)
  /\ (forall e, "whatsapp" ∈ channel_list channels ->
        ("email" ∈ channel_list channels -> exists r, by_email = Ok r) ->
        ("sms" ∈ channel_list channels -> exists r, by_sms = Ok r) ->
        by_whatsapp = Raise e -> run = Raise e)
  /\ (forall result, run = Ok result ->
        multi_notification_type result = notification_type
        /\ channels_attempted result = split_comma channels
        /\ (delivery_results result).*1
           = filter (fun key => key ∈ channel_list channels) ["email"; "sms"; "whatsapp"]
        /\ overall_success result = forallb delivery_success (delivery_results result).*2
        /\ multi_message result
           = (if overall_success result
              then "Notifications sent via all requested channels"
              else "Some notifications failed")
        /\ (forall key d, (key, d) ∈ delivery_results result ->
              (key = "email" /\ exists r, d = ByEmail r /\ by_email = Ok r)
              \/ (key = "sms" /\ exists r, d = ByText r /\ by_sms = Ok r)
              \/ (key = "whatsapp" /\ exists r, d = ByText r /\ by_whatsapp = Ok r)))
  /\ (String.length (first_chars 160 message) <= 160)%nat.
Proof.
  cbn zeta. unfold send_multi_channel_notification.
  rewrite !filter_cons, filter_nil.
  split; [|split; [|split; [|split; [|split]]]]; [| | | | |apply first_chars_length].
  - intros He Hs Hw. now rewrite !bool_decide_eq_false_2.
  - intros e He Hraise. rewrite (bool_decide_eq_true_2 _ He), Hraise. reflexivity.
  - intros e Hs Hemail Hraise.
    rewrite (bool_decide_eq_true_2 _ Hs), Hraise.
    destruct (decide ("email" ∈ channel_list channels)) as [He|He].
    + rewrite (bool_decide_eq_true_2 _ He). destruct (Hemail He) as [r ->]. reflexivity.
    + rewrite (bool_decide_eq_false_2 _ He). reflexivity.
  - intros e Hw Hemail Hsms Hraise.
    rewrite (bool_decide_eq_true_2 _ Hw), Hraise.
    destruct (decide ("email" ∈ channel_list channels)) as [He|He];
      [rewrite (bool_decide_eq_true_2 _ He); destruct (Hemail He) as [r ->]
      |rewrite (bool_decide_eq_false_2 _ He)];
      (destruct (decide ("sms" ∈ channel_list channels)) as [Hs|Hs];
       [rewrite (bool_decide_eq_true_2 _ Hs); destruct (Hsms Hs) as [r' ->]
       |rewrite (bool_decide_eq_false_2 _ Hs)]);
      reflexivity.
  - intros result.
    destruct (decide ("email" ∈ channel_list channels)) as [He|He];
      [rewrite (bool_decide_eq_true_2 _ He);
       destruct (call_email customer_email subject message notification_type)
         as [r1|e1]; [|discriminate]
      |rewrite (bool_decide_eq_false_2 _ He)];
      (destruct (decide ("sms" ∈ channel_list channels)) as [Hs|Hs];
       [rewrite (bool_decide_eq_true_2 _ Hs);
        destruct (call_sms customer_phone (first_chars 160 message) notification_type)
          as [r2|e2]; [|discriminate]
       |rewrite (bool_decide_eq_false_2 _ Hs)]);
      (destruct (decide ("whatsapp" ∈ channel_list channels)) as [Hw|Hw];
       [rewrite (bool_decide_eq_true_2 _ Hw);
        destruct (call_whatsapp customer_phone message notification_type)
          as [r3|e3]; [|discriminate]
       |rewrite (bool_decide_eq_false_2 _ Hw)]);
      cbn; intros [= <-]; cbn;
      (split; [reflexivity|]); (split; [reflexivity|]); (split; [reflexivity|]);
      (split; [reflexivity|]); (split; [reflexivity|]);
      intros key d Hin;
      repeat (apply elem_of_cons in Hin as [[= -> ->]|Hin]);
      try (now apply elem_of_nil in Hin);
      eauto 10.
Qed.

End ChannelFacts.

(** The call of a tool object with positional arguments, the way the
    function writes it: the [TypeError] of a call whose arguments, the
    object included, are [given] in number. *)
Definition TypeError_call (given : string) : exn :=
  Exception ("TypeError('BaseTool.__call__() takes from 2 to 3 positional arguments but "
             +:+ given +:+ " were given')")
            ("BaseTool.__call__() takes from 2 to 3 positional arguments but "
             +:+ given +:+ " were given").

Lemma multi_channel_outcomes_witness :
  send_multi_channel_notification
    (fun _ _ _ _ => Raise (TypeError_call "5")) (fun _ _ _ => Raise (TypeError_call "4"))
    (fun _ _ _ => Raise (TypeError_call "4"))
    "asha@example.com" "+919876543210" "Claim update" "Your claim was approved."
    "fax, pigeon" "claim_update"
  = Ok (MultiResult "claim_update" ["fax"; " pigeon"] [] true
          "Notifications sent via all requested channels")
  /\ send_multi_channel_notification
       (fun _ _ _ _ => Raise (TypeError_call "5")) (fun _ _ _ => Raise (TypeError_call "4"))
       (fun _ _ _ => Raise (TypeError_call "4"))
       "asha@example.com" "+919876543210" "Claim update" "Your claim was approved."
       "Email, SMS " "claim_update"
     = Raise (TypeError_call "5").
Proof.
  split.
  - apply (proj1 (multi_channel_outcomes
                    (fun _ _ _ _ => Raise (TypeError_call "5"))
                    (fun _ _ _ => Raise (TypeError_call "4"))
                    (fun _ _ _ => Raise (TypeError_call "4"))
                    "asha@example.com" "+919876543210" "Claim update"
                    "Your claim was approved." "fax, pigeon" "claim_update"));
      apply (bool_decide_eq_false_1 _); vm_compute; reflexivity.
  - apply (proj1 (proj2 (multi_channel_outcomes
                    (fun _ _ _ _ => Raise (TypeError_call "5"))
                    (fun _ _ _ => Raise (TypeError_call "4"))
                    (fun _ _ _ => Raise (TypeError_call "4"))
                    "asha@example.com" "+919876543210" "Claim update"
                    "Your claim was approved." "Email, SMS " "claim_update"))
             (TypeError_call "5")).
    + apply (bool_decide_eq_true_1 _). vm_compute. reflexivity.
    + reflexivity.
Defined.

End Notification.

(** ** The CCP tools of core.py: [check_ccp_eligibility], [purchase_ccp_package] *)

Module Warranty.

Import Dates.

Record vehicle := Vehicle {
  registration : string;
  model : string;
  purchase_date : string;
  current_mileage : Z;
  warranty_expiry : string;
  has_extended_warranty : bool;
  has_ccp : bool
}.

Record package := Package {
  package_name : string;
  duration_years : Z;
  max_kilometers : Z;
  price : Z;
  coverage_details : string
}.

Record warranty := Warranty {
  warranty_id : Z;
  vehicle_registration : string;
  warranty_type : string;
  package_type : string;
  start_date : string;
  end_date : string;
  status : string;
  warranty_price : Z;
  coverage_km : Z
}.

(** The three files that the two tools load. *)
Record store := Store {
  vehicles : table vehicle;
  warranties : list warranty;
  ccp_packages : table package
}.

(** [df[df['registration'] == r]], then [.empty] and [.iloc[0]]. *)
Definition first_with_registration (r : string) (rows : list vehicle) : option vehicle :=
  head (filter (fun v => registration v = r) rows).

(** The dict that [check_ccp_eligibility] returns.  Amounts that the
    source formats into text (mileage, price) stand here as numbers, and an
    offered package as its row. *)
Inductive eligibility :=
| CheckError (error : string)
| NotEligible (reason vehicle_registration model : string)
              (purchase_deadline_was : option string)
| Eligible (vehicle_registration model purchase_date : string) (current_mileage : Z)
           (available_packages : list package) (purchase_deadline : string)
           (days_remaining : Z).

Definition reason_extended_warranty : string :=
  "Extended Warranty is required before purchasing CCP. Please purchase Extended Warranty first.".

Definition reason_already_ccp : string := "Vehicle already has an active CCP package.".

Definition reason_expired (purchase_date : string) : string :=
  "Purchase window expired. CCP must be purchased within 1 year 9 months of vehicle purchase date ("
  +:+ purchase_date +:+ ").".

(** [check_ccp_eligibility(vehicle_registration)] at the time [now]. *)
Definition check_ccp_eligibility (now : datetime) (s : store)
    (vehicle_registration : string) : eligibility :=
  try_except
    (rows ← column "registration" (vehicles s);
     match first_with_registration vehicle_registration rows with
     | None =>
         Ok (CheckError ("Vehicle with registration " +:+ vehicle_registration
                         +:+ " not found."))
     | Some vehicle_info =>
         if negb (has_extended_warranty vehicle_info) then
           Ok (NotEligible reason_extended_warranty vehicle_registration
                 (model vehicle_info) None)
         else if has_ccp vehicle_info then
           Ok (NotEligible reason_already_ccp vehicle_registration
                 (model vehicle_info) None)
         else
           purchase ← strptime (purchase_date vehicle_info);
           eligibility_end_date ← add_days purchase (21 * 30);
           if later now eligibility_end_date then
             Ok (NotEligible (reason_expired (purchase_date vehicle_info))
                   vehicle_registration (model vehicle_info)
                   (Some (strftime eligibility_end_date)))
           else
             let packages :=
               match ccp_packages s with Missing => [] | Rows l => l end in
             Ok (Eligible vehicle_registration (model vehicle_info)
                   (purchase_date vehicle_info) (current_mileage vehicle_info)
                   (filter (fun p => current_mileage vehicle_info < max_kilometers p)
                           packages)
                   (strftime eligibility_end_date)
                   (days_between eligibility_end_date now))
     end)
    (fun e => CheckError ("An error occurred while checking CCP eligibility: "
                          +:+ exn_str e)).

(** [package_map] *)
Definition package_map (package_type : string) : option Z :=
  if decide (package_type = "1year") then Some 1
  else if decide (package_type = "2year") then Some 2
  else if decide (package_type = "3year") then Some 3
  else None.

(** [vehicles_df.loc[vehicles_df['registration'] == r, 'has_ccp'] = True] *)
Definition set_has_ccp (r : string) (v : vehicle) : vehicle :=
  if decide (registration v = r)
  then Vehicle (registration v) (model v) (purchase_date v) (current_mileage v)
               (warranty_expiry v) (has_extended_warranty v) true
  else v.

(** The response of a purchase; price and coverage stand as numbers. *)
Record receipt := Receipt {
  receipt_warranty_id : Z;
  receipt_vehicle_registration : string;
  receipt_model : string;
  receipt_package : string;
  receipt_price : Z;
  receipt_coverage_km : Z;
  receipt_validity : Z;
  receipt_status : string;
  payment_link : string;
  confirmation_email : string;
  receipt_message : string;
  email_sent : bool;
  email_status : string
}.

Inductive purchase_result :=
| PurchaseError (error : string)
| Purchased (response : receipt).

Section Purchase.

(** The call of the email tool with recipient, subject and notification
    type (the body of the mail is not represented): the dict it returns,
    or the exception it raises. *)
Variable send_email : string -> string -> string -> res Notification.email_result.

(** The part of [purchase_ccp_package] behind the response: the two
    entries about the confirmation mail. *)
Definition confirmation (customer_email : string) (new_warranty_id : Z) : bool * string :=
  if decide (customer_email <> EmptyString) then
    try_except
      (email_result ← send_email customer_email
                        ("CCP Purchase Confirmation - Warranty ID " +:+ str_of_Z new_warranty_id)
                        "purchase_confirmation";
       Ok (Notification.success email_result, Notification.message email_result))
      (fun email_error =>
         (false, "Purchase confirmed but email failed: " +:+ exn_str email_error))
  else (false, "Email not sent (no email provided)").

(** [purchase_ccp_package(vehicle_registration, package_type, customer_email)]:
    the response and the files afterwards. *)
Definition purchase_ccp_package (s : store)
    (vehicle_registration package_type customer_email : string) :
    purchase_result * store :=
  try_except
    (rows ← column "registration" (vehicles s);
     match first_with_registration vehicle_registration rows with
     | None =>
         Ok (PurchaseError ("Vehicle with registration " +:+ vehicle_registration
                            +:+ " not found."), s)
     | Some vehicle_info =>
         if negb (has_extended_warranty vehicle_info) then
           Ok (PurchaseError "Extended Warranty is required before purchasing CCP.", s)
         else if has_ccp vehicle_info then
           Ok (PurchaseError "Vehicle already has an active CCP package.", s)
         else
           match package_map package_type with
           | None =>
               Ok (PurchaseError "Invalid package type. Choose '1year', '2year', or '3year'.", s)
           | Some years =>
               packages ← column "duration_years" (ccp_packages s);
               match head (filter (fun p => duration_years p = years) packages) with
               | None =>
                   Ok (PurchaseError ("Package " +:+ package_type +:+ " not found."), s)
               | Some package_info =>
                   warranty_start ← strptime (warranty_expiry vehicle_info);
                   warranty_end ←
                     add_days warranty_start (duration_years package_info * 365);
                   let new_warranty_id := next_id (warranty_id <$> warranties s) in
                   let new_warranty :=
                     Warranty new_warranty_id vehicle_registration "ccp" package_type
                              (strftime warranty_start) (strftime warranty_end)
                              "pending_payment" (price package_info)
                              (max_kilometers package_info) in
                   let s' :=
                     Store (Rows (set_has_ccp vehicle_registration <$> rows))
                           (warranties s ++ [new_warranty])
                           (ccp_packages s) in
                   let '(sent, email_status) :=
                     confirmation customer_email new_warranty_id in
                   Ok (Purchased
                         (Receipt new_warranty_id vehicle_registration
                            (model vehicle_info) (package_name package_info)
                            (price package_info) (max_kilometers package_info)
                            (duration_years package_info) "Pending Payment"
                            ("https://carwarranty.com/payment/" +:+ str_of_Z new_warranty_id)
                            customer_email
                            "Please complete payment within 24 hours to activate your CCP package."
                            sent email_status),
                       s')
               end
           end
     end)
    (fun e => (PurchaseError ("An error occurred during CCP purchase: " +:+ exn_str e), s)).

End Purchase.

(** *** The eligibility check *)

Lemma window_of_2024 :
  strptime "01/01/2024" = Ok (midnight 738886)
  /\ add_days (midnight 738886) (21 * 30) = Ok (midnight 739516)
  /\ strftime (midnight 739516) = "22/09/2025"
  /\ ymd2ord 2025 9 22 = 739516
  /\ ymd2ord 2025 10 22 = 738886 + 22 * 30
  /\ ymd2ord 2025 8 23 = 738886 + 20 * 30.
Proof. vm_compute. repeat split; reflexivity. Qed.

Lemma check_with_vehicle now s rows r v :
  vehicles s = Rows rows -> first_with_registration r rows = Some v ->
  check_ccp_eligibility now s r
  = if negb (has_extended_warranty v) then
      NotEligible reason_extended_warranty r (model v) None
    else if has_ccp v then NotEligible reason_already_ccp r (model v) None
    else
      try_except
        (purchase ← strptime (purchase_date v);
         eligibility_end_date ← add_days purchase (21 * 30);
         if later now eligibility_end_date then
           Ok (NotEligible (reason_expired (purchase_date v)) r (model v)
                 (Some (strftime eligibility_end_date)))
         else
           Ok (Eligible r (model v) (purchase_date v) (current_mileage v)
                 (filter (fun p => current_mileage v < max_kilometers p)
                         match ccp_packages s with Missing => [] | Rows l => l end)
                 (strftime eligibility_end_date)
                 (days_between eligibility_end_date now)))
        (fun e => CheckError ("An error occurred while checking CCP eligibility: "
                              +:+ exn_str e)).
Proof.
  intros Hrows Hv. unfold check_ccp_eligibility. rewrite Hrows.
  cbn [column mbind res_bind]. rewrite Hv.
  destruct (has_extended_warranty v); cbn [negb]; [|reflexivity].
  destruct (has_ccp v); reflexivity.
Qed.

(** C4.  For a vehicle on file without Extended Warranty the check
    answers not eligible with the reason that asks for the Extended
    Warranty, whatever the dates.  For one with Extended Warranty, without
    CCP and bought on 01/01/2024 the window ends with 22/09/2025 (630 days
    later): on 22/10/2025 or later, which is where 22 months lead whether
    counted as months of the calendar (01/11/2025) or as 30 days each,
    the answer is not eligible with the reason of the expired window,
    [Purchase window expired. CCP must be purchased within 1 year 9 months
    of vehicle purchase date (01/01/2024).]; on
    01/09/2025 or earlier, where 20 months lead (01/09/2025, or 23/08/2025
    with 30 days each), the answer is eligible. *)
Theorem check_ccp_eligibility_window (now : datetime) (s : store)
    (rows : list vehicle) (r : string) (v : vehicle) :
  vehicles s = Rows rows ->
  first_with_registration r rows = Some v ->
  (has_extended_warranty v = false ->
   check_ccp_eligibility now s r
   = NotEligible
       "Extended Warranty is required before purchasing CCP. Please purchase Extended Warranty first."
       r (model v) None)
  /\ (has_extended_warranty v = true -> has_ccp v = false ->
      purchase_date v = "01/01/2024" ->
      (ymd2ord 2025 10 22 <= ordinal now ->
       check_ccp_eligibility now s r
       = NotEligible
           "Purchase window expired. CCP must be purchased within 1 year 9 months of vehicle purchase date (01/01/2024)."
           r (model v) (Some "22/09/2025"))
      /\ (ordinal now <= ymd2ord 2025 9 1 ->
          check_ccp_eligibility now s r
          = Eligible r (model v) "01/01/2024" (current_mileage v)
              (filter (fun p => current_mileage v < max_kilometers p)
                      match ccp_packages s with Missing => [] | Rows l => l end)
              "22/09/2025"
              (days_between (midnight (ymd2ord 2025 9 22)) now))).
Proof.
  intros Hrows Hv. rewrite (check_with_vehicle now s rows r v Hrows Hv).
  destruct window_of_2024 as (Hparse & Hadd & Hfmt & Hend & H22 & _).
  split.
  - intros ->. reflexivity.
  - intros -> -> ->. cbn [negb]. rewrite Hparse. cbn [mbind res_bind].
    rewrite Hadd. cbn [mbind res_bind try_except]. rewrite Hfmt, Hend.
    assert (ymd2ord 2025 9 1 = 739495) as H9 by (vm_compute; reflexivity).
    rewrite H22, H9. unfold later, midnight. cbn [ordinal micros].
    split; intros Hnow.
    + destruct (Z.ltb_spec 739516 (ordinal now)); [reflexivity|lia].
    + destruct (Z.ltb_spec 739516 (ordinal now)); [lia|].
      destruct (Z.eqb_spec (ordinal now) 739516); [lia|]. reflexivity.
Qed.

Definition hatchback : vehicle :=
  Vehicle "MH02XX1234" "Swift" "01/01/2024" 12000 "01/01/2027" false false.

Definition covered_hatchback : vehicle :=
  Vehicle "MH02XX1234" "Swift" "01/01/2024" 12000 "01/01/2027" true false.

Definition packages_on_offer : list package :=
  [ Package "CCP 1 Year" 1 40000 3500 "water, fuel, rodent and insect damage";
    Package "CCP 2 Year" 2 80000 5500 "water, fuel, rodent and insect damage";
    Package "CCP 3 Year" 3 120000 7500 "water, fuel, rodent and insect damage" ].

Lemma check_ccp_eligibility_window_witness :
  check_ccp_eligibility (DateTime (ymd2ord 2024 6 1) 0)
    (Store (Rows [hatchback]) [] (Rows packages_on_offer)) "MH02XX1234"
  = NotEligible
      "Extended Warranty is required before purchasing CCP. Please purchase Extended Warranty first."
      "MH02XX1234" "Swift" None
  /\ check_ccp_eligibility (DateTime (ymd2ord 2025 11 1) 43200000000)
       (Store (Rows [covered_hatchback]) [] (Rows packages_on_offer)) "MH02XX1234"
     = NotEligible
         "Purchase window expired. CCP must be purchased within 1 year 9 months of vehicle purchase date (01/01/2024)."
         "MH02XX1234" "Swift" (Some "22/09/2025")
  /\ check_ccp_eligibility (DateTime (ymd2ord 2025 9 1) 43200000000)
       (Store (Rows [covered_hatchback]) [] (Rows packages_on_offer)) "MH02XX1234"
     = Eligible "MH02XX1234" "Swift" "01/01/2024" 12000 packages_on_offer "22/09/2025" 20.
Proof.
  split; [|split].
  - apply (proj1 (check_ccp_eligibility_window (DateTime (ymd2ord 2024 6 1) 0)
                    (Store (Rows [hatchback]) [] (Rows packages_on_offer))
                    [hatchback] "MH02XX1234" hatchback eq_refl eq_refl)).
    reflexivity.
  - apply (proj2 (check_ccp_eligibility_window (DateTime (ymd2ord 2025 11 1) 43200000000)
                    (Store (Rows [covered_hatchback]) [] (Rows packages_on_offer))
                    [covered_hatchback] "MH02XX1234" covered_hatchback eq_refl eq_refl));
      try reflexivity. vm_compute. discriminate.
  - refine (proj2 (proj2 (check_ccp_eligibility_window
                    (DateTime (ymd2ord 2025 9 1) 43200000000)
                    (Store (Rows [covered_hatchback]) [] (Rows packages_on_offer))
                    [covered_hatchback] "MH02XX1234" covered_hatchback eq_refl eq_refl)
                    eq_refl eq_refl eq_refl) _).
    vm_compute. discriminate.
Defined.

(** *** A purchase and what follows it *)

Lemma first_with_registration_registration r rows v :
  first_with_registration r rows = Some v -> registration v = r.
Proof.
  unfold first_with_registration. intros Hv.
  apply head_Some_elem_of, list_elem_of_filter in Hv. apply Hv.
Qed.

Lemma set_has_ccp_registration r v : registration (set_has_ccp r v) = registration v.
Proof. unfold set_has_ccp. now case_decide. Qed.

Lemma first_with_registration_set r rows :
  first_with_registration r (set_has_ccp r <$> rows)
  = set_has_ccp r <$> first_with_registration r rows.
Proof.
  unfold first_with_registration. induction rows as [|v rows IH]; [done|].
  rewrite fmap_cons, !filter_cons, set_has_ccp_registration.
  destruct (decide (registration v = r)); [done|exact IH].
Qed.

Lemma set_has_ccp_marks r (rows : list vehicle) v :
  v ∈ set_has_ccp r <$> rows -> registration v = r -> has_ccp v = true.
Proof.
  intros (v0 & -> & _)%list_elem_of_fmap. rewrite set_has_ccp_registration.
  intros Hr. unfold set_has_ccp. now rewrite decide_True.
Qed.

Section PurchaseFacts.

Variable send_email : string -> string -> string -> res Notification.email_result.

(** What a successful purchase has found and written. *)
Lemma purchase_inversion s r package_type customer_email response s' :
  purchase_ccp_package send_email s r package_type customer_email
  = (Purchased response, s') ->
  exists rows v w,
    vehicles s = Rows rows
    /\ first_with_registration r rows = Some v
    /\ has_extended_warranty v = true
    /\ s' = Store (Rows (set_has_ccp r <$> rows)) (warranties s ++ [w]) (ccp_packages s)
    /\ warranty_id w = receipt_warranty_id response
    /\ vehicle_registration w = r
    /\ warranty_type w = "ccp"
    /\ status w = "pending_payment".
Proof.
  unfold purchase_ccp_package.
  destruct (vehicles s) as [|rows] eqn:Hrows; [cbn; congruence|].
  cbn [column mbind res_bind].
  destruct (first_with_registration r rows) as [v|] eqn:Hv; [|cbn; congruence].
  destruct (has_extended_warranty v) eqn:Hew; cbn [negb]; [|cbn; congruence].
  destruct (has_ccp v); [cbn; congruence|].
  destruct (package_map package_type) as [years|]; [|cbn; congruence].
  destruct (ccp_packages s) as [|packages]; [cbn; congruence|].
  cbn [column mbind res_bind].
  destruct (head (filter (fun p => duration_years p = years) packages))
    as [package_info|]; [|cbn; congruence].
  destruct (strptime (warranty_expiry v)) as [warranty_start|e]; [|cbn; congruence].
  cbn [mbind res_bind].
  destruct (add_days warranty_start (duration_years package_info * 365))
    as [warranty_end|e]; [|cbn; congruence].
  cbn [mbind res_bind].
  destruct (confirmation send_email customer_email
              (next_id (warranty_id <$> warranties s))) as [sent email_status].
  cbn [try_except]. intros [= <- <-].
  eexists rows, v, _. repeat split; try reflexivity; done.
Qed.

(** C10.  A successful purchase appends a warranty with status
    [pending_payment] and at once sets [has_ccp] on every row of the
    vehicle; from then on the eligibility check and a further purchase
    for that vehicle are turned down with the reason that the vehicle
    already has an active CCP package, whatever the state of the
    payment. *)
Theorem purchase_marks_vehicle_before_payment (s : store)
    (r package_type customer_email : string) (response : receipt) (s' : store) :
  purchase_ccp_package send_email s r package_type customer_email
  = (Purchased response, s') ->
  (exists w, warranties s' = warranties s ++ [w]
             /\ warranty_id w = receipt_warranty_id response
             /\ vehicle_registration w = r
             /\ status w = "pending_payment")
  /\ (exists rows', vehicles s' = Rows rows'
                    /\ (exists v, v ∈ rows' /\ registration v = r)
                    /\ forall v, v ∈ rows' -> registration v = r -> has_ccp v = true)
  /\ (forall now, exists m,
        check_ccp_eligibility now s' r
        = NotEligible "Vehicle already has an active CCP package." r m None)
  /\ (forall package_type' customer_email',
        purchase_ccp_package send_email s' r package_type' customer_email'
        = (PurchaseError "Vehicle already has an active CCP package.", s')).
Proof.
  intros Hbuy.
  destruct (purchase_inversion _ _ _ _ _ _ Hbuy)
    as (rows & v & w & Hrows & Hv & Hew & -> & Hid & Hreg & _ & Hstatus).
  pose proof (first_with_registration_registration _ _ _ Hv) as Hr.
  assert (first_with_registration r (set_has_ccp r <$> rows) = Some (set_has_ccp r v))
    as Hv' by now rewrite first_with_registration_set, Hv.
  assert (has_ccp (set_has_ccp r v) = true
          /\ has_extended_warranty (set_has_ccp r v) = true) as [Hccp Hew'].
  { unfold set_has_ccp. rewrite decide_True by done. cbn. done. }
  split; [|split; [|split]].
  - exists w. cbn. done.
  - exists (set_has_ccp r <$> rows). split; [done|]. split.
    + exists (set_has_ccp r v). split.
      * apply head_Some_elem_of in Hv'. apply list_elem_of_filter in Hv'. apply Hv'.
      * now rewrite set_has_ccp_registration.
    + apply set_has_ccp_marks.
  - intros now. exists (model (set_has_ccp r v)).
    rewrite (check_with_vehicle now _ (set_has_ccp r <$> rows) r (set_has_ccp r v));
      [|done..].
    now rewrite Hew', Hccp.
  - intros package_type' customer_email'. unfold purchase_ccp_package.
    cbn [vehicles column mbind res_bind]. rewrite Hv', Hew', Hccp. reflexivity.
Qed.

End PurchaseFacts.

(** The mail tool the way a plain call of it ends: with an exception. *)
Definition mail_fails (_ _ _ : string) : res Notification.email_result :=
  Raise (Exception "TypeError('unexpected keyword argument')" "unexpected keyword argument").

Definition showroom : store :=
  Store (Rows [covered_hatchback]) [] (Rows packages_on_offer).

Lemma purchase_marks_vehicle_before_payment_witness :
  (exists response s',
      purchase_ccp_package mail_fails showroom "MH02XX1234" "2year" "asha@example.com"
      = (Purchased response, s')
      /\ forall now, exists m,
           check_ccp_eligibility now s' "MH02XX1234"
           = NotEligible "Vehicle already has an active CCP package." "MH02XX1234" m None).
Proof.
  eexists _, _. split; [vm_compute; reflexivity|].
  eapply (purchase_marks_vehicle_before_payment mail_fails showroom
            "MH02XX1234" "2year" "asha@example.com").
  vm_compute. reflexivity.
Defined.

(** *** Cancelling a purchase, and the Extended Warranty window *)

(** [warranties_df.loc[warranties_df['warranty_id'] == id, 'status'] = 'cancelled'] *)
Definition set_status_cancelled (id : Z) (w : warranty) : warranty :=
  if decide (warranty_id w = id)
  then Warranty (warranty_id w) (vehicle_registration w) (warranty_type w)
                (package_type w) (start_date w) (end_date w) "cancelled"
                (warranty_price w) (coverage_km w)
  else w.

(** [vehicles_df.loc[vehicles_df['registration'] == r, 'has_ccp'] = False] *)
Definition clear_has_ccp (r : string) (v : vehicle) : vehicle :=
  if decide (registration v = r)
  then Vehicle (registration v) (model v) (purchase_date v) (current_mileage v)
               (warranty_expiry v) (has_extended_warranty v) false
  else v.

(** The response of a cancellation, without its message (the type in
    upper case and a fixed sentence about the refund). *)
Record cancelled_warranty := CancelledWarranty {
  cancelled_warranty_id : Z;
  cancelled_vehicle_registration : string;
  cancelled_warranty_type : string
}.

Inductive cancel_result :=
| CancelError (error : string)
| Cancelled (response : cancelled_warranty).

(** [cancel_warranty_service(warranty_id)]; the warranties file exists.
    The warranties are saved before the vehicles are touched, so an
    exception of the second step leaves the first one done. *)
Definition cancel_warranty_service (s : store) (id : Z) : cancel_result * store :=
  match head (filter (fun w => warranty_id w = id) (warranties s)) with
  | None => (CancelError ("Warranty ID " +:+ str_of_Z id +:+ " not found."), s)
  | Some w =>
      if decide (status w = "active") then
        (CancelError "Active warranties cannot be cancelled. Please contact customer support.", s)
      else if decide (status w <> "pending_payment") then
        (CancelError ("Warranty with status '" +:+ status w +:+ "' cannot be cancelled."), s)
      else
        let s1 :=
          Store (vehicles s) (set_status_cancelled id <$> warranties s) (ccp_packages s) in
        if decide (warranty_type w = "ccp") then
          match column "registration" (vehicles s) with
          | Ok rows =>
              (Cancelled (CancelledWarranty id (vehicle_registration w) (warranty_type w)),
               Store (Rows (clear_has_ccp (vehicle_registration w) <$> rows))
                     (warranties s1) (ccp_packages s))
          | Raise e =>
              (CancelError ("An error occurred during cancellation: " +:+ exn_str e), s1)
          end
        else
          (Cancelled (CancelledWarranty id (vehicle_registration w) (warranty_type w)), s1)
  end.

(** [is_warranty_active(warranty_id)] *)
Definition is_warranty_active (s : store) (id : Z) : bool :=
  match head (filter (fun w => warranty_id w = id) (warranties s)) with
  | Some w => bool_decide (status w = "active" \/ status w = "pending_payment")
  | None => false
  end.

(** An option of the Extended Warranty: years, kilometers, price. *)
Record extension := Extension {
  extension_years : Z;
  extension_km : Z;
  extension_price : Z
}.

Definition available_options : list extension :=
  [Extension 1 120000 8000; Extension 2 140000 12000; Extension 3 160000 15000].

(** The dict of [check_extended_warranty_eligibility]. *)
Inductive extension_eligibility :=
| ExtensionError (error : string)
| ExtensionNotEligible (reason vehicle_registration model : string)
| ExtensionEligible (vehicle_registration model purchase_date : string)
                    (current_mileage : Z) (standard_warranty_expiry : string)
                    (options : list extension) (purchase_deadline : string)
                    (days_remaining : Z).

(** [check_extended_warranty_eligibility(vehicle_registration)] at [now]. *)
Definition check_extended_warranty_eligibility (now : datetime) (s : store)
    (vehicle_registration : string) : extension_eligibility :=
  try_except
    (rows ← column "registration" (vehicles s);
     match first_with_registration vehicle_registration rows with
     | None =>
         Ok (ExtensionError ("Vehicle with registration " +:+ vehicle_registration
                             +:+ " not found."))
     | Some vehicle_info =>
         if has_extended_warranty vehicle_info then
           Ok (ExtensionNotEligible "Vehicle already has an Extended Warranty."
                 vehicle_registration (model vehicle_info))
         else
           purchase ← strptime (purchase_date vehicle_info);
           eligibility_end ← add_days purchase (3 * 365);
           if later now eligibility_end then
             Ok (ExtensionNotEligible
                   "Purchase window expired. Extended Warranty must be purchased within 3 years of vehicle purchase."
                   vehicle_registration (model vehicle_info))
           else
             Ok (ExtensionEligible vehicle_registration (model vehicle_info)
                   (purchase_date vehicle_info) (current_mileage vehicle_info)
                   (warranty_expiry vehicle_info) available_options
                   (strftime eligibility_end) (days_between eligibility_end now))
     end)
    (fun e => ExtensionError ("An error occurred while checking eligibility: " +:+ exn_str e)).

(** The time of day of a [datetime] is within the day. *)
Definition within_day (d : datetime) : Prop := 0 <= micros d < 86400000000.

Lemma days_between_nonneg (a b : datetime) :
  micros a = 0 -> within_day b -> later b a = false -> 0 <= days_between a b.
Proof.
  unfold within_day, later, days_between. intros Ha Hb Hlater.
  apply orb_false_iff in Hlater as [Hlt Heq].
  apply Z.ltb_ge in Hlt. rewrite Ha in *.
  apply Z.div_pos; [|lia].
  destruct (Z.eqb_spec (ordinal b) (ordinal a)) as [Hsame|Hne].
  - cbn in Heq. apply Z.ltb_ge in Heq. lia.
  - nia.
Qed.

Lemma strptime_midnight text d : strptime text = Ok d -> micros d = 0.
Proof.
  unfold strptime.
  destruct (_ ≫= _) as [[[year month] day]|]; [|discriminate].
  destruct ((1 <=? year) && (day <=? days_in_month year month)); [|discriminate].
  now intros [= <-].
Qed.

Lemma add_days_micros d n e : add_days d n = Ok e -> micros e = micros d /\ ordinal e = ordinal d + n.
Proof.
  unfold add_days. destruct ((1 <=? ordinal d + n) && _); [|discriminate].
  now intros [= <-].
Qed.

(** X7.  An eligible answer of the CCP check is given only for a vehicle on
    file with Extended Warranty and without CCP whose window, 630 days
    from a purchase date in the format of the files, has not passed; the
    days that remain are not negative, every package offered has a limit
    above the mileage of the vehicle, and the deadline is the last day of
    the window. *)
Theorem eligible_answer_is_sound (now : datetime) (s : store) (r : string)
    (r' m purchased : string) (mileage : Z) (offered : list package)
    (deadline : string) (days : Z) :
  within_day now ->
  check_ccp_eligibility now s r = Eligible r' m purchased mileage offered deadline days ->
  exists rows v start,
    vehicles s = Rows rows
    /\ first_with_registration r rows = Some v
    /\ has_extended_warranty v = true /\ has_ccp v = false
    /\ strptime (purchase_date v) = Ok start
    /\ later now (midnight (ordinal start + 630)) = false
    /\ deadline = strftime (midnight (ordinal start + 630))
    /\ 0 <= days
    /\ (forall p, p ∈ offered -> current_mileage v < max_kilometers p)
    /\ r' = r /\ m = model v /\ purchased = purchase_date v /\ mileage = current_mileage v.
Proof.
  intros Hnow. unfold check_ccp_eligibility.
  destruct (vehicles s) as [|rows] eqn:Hrows; [cbn; congruence|].
  cbn [column mbind res_bind].
  destruct (first_with_registration r rows) as [v|] eqn:Hv; [|cbn; congruence].
  destruct (has_extended_warranty v) eqn:Hew; cbn [negb]; [|cbn; congruence].
  destruct (has_ccp v) eqn:Hccp; [cbn; congruence|].
  destruct (strptime (purchase_date v)) as [start|e] eqn:Hstart; [|cbn; congruence].
  cbn [mbind res_bind].
  destruct (add_days start (21 * 30)) as [window_end|e] eqn:Hend; [|cbn; congruence].
  cbn [mbind res_bind].
  destruct (later now window_end) eqn:Hlater; [cbn; congruence|].
  cbn [try_except]. intros [= <- <- <- <- <- <- <-].
  apply add_days_micros in Hend as [Hmicros Hord].
  apply strptime_midnight in Hstart as Hzero.
  assert (window_end = midnight (ordinal start + 630)) as ->.
  { destruct window_end as [o u]. cbn in *. unfold midnight. f_equal; lia. }
  exists rows, v, start. repeat split; try done.
  - now apply days_between_nonneg.
  - intros p [Hp _]%list_elem_of_filter. exact Hp.
Qed.

Lemma eligible_answer_is_sound_witness :
  exists rows v start,
    vehicles (Store (Rows [covered_hatchback]) [] (Rows packages_on_offer)) = Rows rows
    /\ first_with_registration "MH02XX1234" rows = Some v
    /\ has_extended_warranty v = true /\ has_ccp v = false
    /\ strptime (purchase_date v) = Ok start.
Proof.
  destruct (eligible_answer_is_sound (DateTime (ymd2ord 2025 9 1) 43200000000)
              (Store (Rows [covered_hatchback]) [] (Rows packages_on_offer)) "MH02XX1234"
              "MH02XX1234" "Swift" "01/01/2024" 12000 packages_on_offer "22/09/2025" 20)
    as (rows & v & start & H1 & H2 & H3 & H4 & H5 & _).
  - unfold within_day. cbn. lia.
  - vm_compute. reflexivity.
  - eauto 10.
Defined.

Lemma days_before_year_nonneg (year : Z) : 1 <= year -> 0 <= days_before_year year.
Proof.
  intros Hyear. unfold days_before_year. cbn zeta.
  pose proof (Z.div_le_compat_l (year - 1) 4 100).
  pose proof (Z.div_pos (year - 1) 400). lia.
Qed.

Lemma days_before_month_nonneg (year month : Z) : 0 <= days_before_month year month.
Proof.
  unfold days_before_month, days_before_month_table.
  assert (0 <= nth (Z.to_nat month) [0; 0; 31; 59; 90; 120; 151; 181; 212; 243; 273; 304; 334] 0).
  { generalize (Z.to_nat month). intros n.
    do 13 (destruct n as [|n]; [cbn; lia|]). destruct n; cbn; lia. }
  destruct ((2 <? month) && is_leap year); lia.
Qed.

Lemma digit_value_range c v : digit_value c = Some v -> 0 <= v <= 9.
Proof.
  unfold digit_value.
  destruct ((48 <=? N_of_ascii c)%N && (N_of_ascii c <=? 57)%N) eqn:Hc; [|discriminate].
  intros [= <-]. apply andb_true_iff in Hc as [?%N.leb_le ?%N.leb_le]. lia.
Qed.

Lemma parse_day_range s day rest : parse_day s = Some (day, rest) -> 1 <= day.
Proof.
  unfold parse_day.
  destruct s as [|a [|b s]]; [discriminate| |].
  - destruct (digit_value a) as [x|]; [|discriminate].
    destruct (Z.leb_spec 1 x); [|discriminate]. intros [= <- _]. done.
  - destruct (digit_value a) as [x|], (digit_value b) as [y|]; [| | |discriminate].
    + destruct (Z.leb_spec 1 (10 * x + y)); [|discriminate].
      destruct (10 * x + y <=? 31); [|discriminate]. intros [= <- _]. done.
    + destruct (Z.leb_spec 1 x); [|discriminate]. intros [= <- _]. done.
    + case_decide; [|discriminate].
      destruct (Z.leb_spec 1 y); [|discriminate]. intros [= <- _]. done.
Qed.

(** A date that [strptime] accepts is a day of year 1 or later. *)
Lemma strptime_ordinal_pos text d : strptime text = Ok d -> 1 <= ordinal d.
Proof.
  unfold strptime.
  destruct (parse_day text) as [[day s1]|] eqn:Hday; [|discriminate].
  cbn [mbind option_bind].
  destruct (_ ≫= _) as [[[year month] day']|] eqn:Hrest; [|discriminate].
  destruct (Z.leb_spec 1 year); [|discriminate]. cbn [andb].
  destruct (day' <=? days_in_month year month); [|discriminate].
  intros [= <-]. cbn [ordinal midnight]. unfold ymd2ord.
  assert (day' = day) as ->.
  { destruct (expect_slash s1) as [s2|]; [|discriminate]. cbn in Hrest.
    destruct (parse_month s2) as [[month' s3]|]; [|discriminate]. cbn in Hrest.
    destruct (expect_slash s3) as [s4|]; [|discriminate]. cbn in Hrest.
    destruct (parse_year s4) as [[year' s5]|]; [|discriminate]. cbn in Hrest.
    case_decide; [|discriminate]. now injection Hrest as [= _ _ ->]. }
  pose proof (days_before_year_nonneg year ltac:(done)).
  pose proof (days_before_month_nonneg year month).
  apply parse_day_range in Hday. lia.
Qed.

Lemma extension_check_with_vehicle now s rows r v :
  vehicles s = Rows rows -> first_with_registration r rows = Some v ->
  check_extended_warranty_eligibility now s r
  = if has_extended_warranty v then
      ExtensionNotEligible "Vehicle already has an Extended Warranty." r (model v)
    else
      try_except
        (purchase ← strptime (purchase_date v);
         eligibility_end ← add_days purchase (3 * 365);
         if later now eligibility_end then
           Ok (ExtensionNotEligible
                 "Purchase window expired. Extended Warranty must be purchased within 3 years of vehicle purchase."
                 r (model v))
         else
           Ok (ExtensionEligible r (model v) (purchase_date v) (current_mileage v)
                 (warranty_expiry v) available_options
                 (strftime eligibility_end) (days_between eligibility_end now)))
        (fun e => ExtensionError ("An error occurred while checking eligibility: "
                                  +:+ exn_str e)).
Proof.
  intros Hrows Hv. unfold check_extended_warranty_eligibility. rewrite Hrows.
  cbn [column mbind res_bind]. rewrite Hv.
  destruct (has_extended_warranty v); reflexivity.
Qed.

(** X8.  The window of the Extended Warranty is 1095 days from the purchase
    date and not three years of the calendar: for a vehicle on file
    without Extended Warranty whose purchase date has the format of the
    files, the answer is eligible up to and including the midnight that
    begins day 1095 after the purchase, with days that remain which are
    not negative and, from the purchase on, at most 1095; later the answer
    is the expired window. *)
Theorem extended_warranty_window (now : datetime) (s : store)
    (rows : list vehicle) (r : string) (v : vehicle) (start : datetime) :
  within_day now ->
  vehicles s = Rows rows ->
  first_with_registration r rows = Some v ->
  has_extended_warranty v = false ->
  strptime (purchase_date v) = Ok start ->
  ordinal start + 1095 <= MAXORDINAL ->
  (later now (midnight (ordinal start + 1095)) = true ->
   check_extended_warranty_eligibility now s r
   = ExtensionNotEligible
       "Purchase window expired. Extended Warranty must be purchased within 3 years of vehicle purchase."
       r (model v))
  /\ (later now (midnight (ordinal start + 1095)) = false ->
      check_extended_warranty_eligibility now s r
      = ExtensionEligible r (model v) (purchase_date v) (current_mileage v)
          (warranty_expiry v) available_options
          (strftime (midnight (ordinal start + 1095)))
          (days_between (midnight (ordinal start + 1095)) now)
      /\ 0 <= days_between (midnight (ordinal start + 1095)) now
      /\ (ordinal start <= ordinal now ->
          days_between (midnight (ordinal start + 1095)) now <= 1095)).
Proof.
  intros Hnow Hrows Hv Hew Hstart Hmax.
  rewrite (extension_check_with_vehicle now s rows r v Hrows Hv), Hew, Hstart.
  pose proof (strptime_ordinal_pos _ _ Hstart) as Hlow.
  pose proof (strptime_midnight _ _ Hstart) as Hzero.
  cbn [mbind res_bind].
  assert (add_days start (3 * 365) = Ok (midnight (ordinal start + 1095))) as ->.
  { unfold add_days. change (3 * 365) with 1095.
    destruct (Z.leb_spec 1 (ordinal start + 1095)); [|lia].
    destruct (Z.leb_spec (ordinal start + 1095) MAXORDINAL); [|lia].
    cbn [andb]. unfold midnight. now rewrite Hzero. }
  cbn [mbind res_bind]. split; intros Hlater; rewrite Hlater; cbn [try_except].
  - reflexivity.
  - split; [reflexivity|]. split.
    + now apply days_between_nonneg.
    + intros Hafter. unfold days_between, within_day in *. cbn [ordinal micros midnight].
      apply Z.div_le_upper_bound; lia.
Qed.

Definition new_hatchback : vehicle :=
  Vehicle "MH02XX1234" "Swift" "29/02/2024" 12000 "28/02/2027" false false.

Lemma extended_warranty_window_witness :
  check_extended_warranty_eligibility (DateTime (ymd2ord 2027 2 28) 0)
    (Store (Rows [new_hatchback]) [] Missing) "MH02XX1234"
  = ExtensionEligible "MH02XX1234" "Swift" "29/02/2024" 12000 "28/02/2027"
      available_options "28/02/2027" 0
  /\ check_extended_warranty_eligibility (DateTime (ymd2ord 2027 2 28) 1)
       (Store (Rows [new_hatchback]) [] Missing) "MH02XX1234"
     = ExtensionNotEligible
         "Purchase window expired. Extended Warranty must be purchased within 3 years of vehicle purchase."
         "MH02XX1234" "Swift".
Proof.
  split.
  - refine (proj1 (proj2 (extended_warranty_window (DateTime (ymd2ord 2027 2 28) 0)
                    (Store (Rows [new_hatchback]) [] Missing)
                    [new_hatchback] "MH02XX1234" new_hatchback
                    (midnight (ymd2ord 2024 2 29)) _ eq_refl eq_refl eq_refl _ _) _)).
    + unfold within_day. cbn. lia.
    + vm_compute. reflexivity.
    + vm_compute. discriminate.
    + vm_compute. reflexivity.
  - refine (proj1 (extended_warranty_window (DateTime (ymd2ord 2027 2 28) 1)
                    (Store (Rows [new_hatchback]) [] Missing)
                    [new_hatchback] "MH02XX1234" new_hatchback
                    (midnight (ymd2ord 2024 2 29)) _ eq_refl eq_refl eq_refl _ _) _).
    + unfold within_day. cbn. lia.
    + vm_compute. reflexivity.
    + vm_compute. discriminate.
    + vm_compute. reflexivity.
Defined.

(** *** A purchase that is cancelled, and what a purchase never reads *)

Lemma set_status_cancelled_id id w :
  warranty_id (set_status_cancelled id w) = warranty_id w.
Proof. unfold set_status_cancelled. now case_decide. Qed.

Lemma set_status_cancelled_active id w :
  status (set_status_cancelled id w) = "active" ->
  set_status_cancelled id w = w.
Proof. unfold set_status_cancelled. case_decide; [discriminate|done]. Qed.

Lemma first_with_id_fresh (ws : list warranty) (w : warranty) :
  warranty_id w = next_id (warranty_id <$> ws) ->
  head (filter (fun x => warranty_id x = warranty_id w) (ws ++ [w])) = Some w.
Proof.
  intros Hid. rewrite filter_app.
  rewrite (filter_all_not (fun x => warranty_id x = warranty_id w) ws).
  - rewrite filter_cons, decide_True by done. reflexivity.
  - intros x Hx Heq. apply (next_id_fresh (warranty_id <$> ws)).
    rewrite <- Hid, <- Heq. now apply list_elem_of_fmap_2.
Qed.

Lemma first_warranty_cancelled id (ws : list warranty) :
  head (filter (fun x => warranty_id x = id) (set_status_cancelled id <$> ws))
  = set_status_cancelled id <$> head (filter (fun x => warranty_id x = id) ws).
Proof.
  induction ws as [|w ws IH]; [done|].
  rewrite fmap_cons, !filter_cons, set_status_cancelled_id.
  destruct (decide (warranty_id w = id)); [done|exact IH].
Qed.

Lemma clear_has_ccp_registration r v : registration (clear_has_ccp r v) = registration v.
Proof. unfold clear_has_ccp. now case_decide. Qed.

Lemma first_with_registration_clear r r' rows :
  first_with_registration r (clear_has_ccp r' <$> rows)
  = clear_has_ccp r' <$> first_with_registration r rows.
Proof.
  unfold first_with_registration. induction rows as [|v rows IH]; [done|].
  rewrite fmap_cons, !filter_cons, clear_has_ccp_registration.
  destruct (decide (registration v = r)); [done|exact IH].
Qed.

Lemma clear_set_has_ccp r v :
  has_ccp v = false -> clear_has_ccp r (set_has_ccp r v) = v.
Proof.
  intros Hccp. unfold clear_has_ccp, set_has_ccp. destruct v as [reg m pd km we ew ccp].
  cbn in *. subst ccp. destruct (decide (reg = r)); cbn.
  - now rewrite decide_True.
  - now rewrite decide_False.
Qed.

(** X9.  No tool sets a warranty to active: a warranty that is active
    after a purchase or after a cancellation, whatever their outcome, is a
    row that was in the file, active, before. *)
Theorem tools_never_activate
    (send_email : string -> string -> string -> res Notification.email_result)
    (s : store) (w : warranty) :
  status w = "active" ->
  (forall r package_type customer_email,
      w ∈ warranties (purchase_ccp_package send_email s r package_type customer_email).2 ->
      w ∈ warranties s)
  /\ (forall id, w ∈ warranties (cancel_warranty_service s id).2 -> w ∈ warranties s).
Proof.
  intros Hactive. split.
  - intros r package_type customer_email.
    destruct (purchase_ccp_package send_email s r package_type customer_email)
      as [[error|response] s'] eqn:Hbuy.
    + assert (s' = s) as ->; [|done].
      revert Hbuy. unfold purchase_ccp_package.
      destruct (vehicles s) as [|rows]; [cbn; congruence|].
      cbn [column mbind res_bind].
      destruct (first_with_registration r rows) as [v|]; [|cbn; congruence].
      destruct (has_extended_warranty v); cbn [negb]; [|cbn; congruence].
      destruct (has_ccp v); [cbn; congruence|].
      destruct (package_map package_type) as [years|]; [|cbn; congruence].
      destruct (ccp_packages s) as [|packages]; [cbn; congruence|].
      cbn [column mbind res_bind].
      destruct (head (filter (fun p => duration_years p = years) packages))
        as [package_info|]; [|cbn; congruence].
      destruct (strptime (warranty_expiry v)) as [warranty_start|e]; [|cbn; congruence].
      cbn [mbind res_bind].
      destruct (add_days warranty_start (duration_years package_info * 365))
        as [warranty_end|e]; [|cbn; congruence].
      cbn [mbind res_bind].
      destruct (confirmation send_email customer_email
                  (next_id (warranty_id <$> warranties s))) as [sent email_status].
      cbn [try_except]. discriminate.
    + destruct (purchase_inversion _ _ _ _ _ _ _ Hbuy)
        as (rows & v & w' & _ & _ & _ & -> & _ & _ & _ & Hstatus).
      cbn. intros [Hin|Hin%list_elem_of_singleton]%elem_of_app; [done|].
      subst w'. congruence.
  - intros id. unfold cancel_warranty_service.
    assert (w ∈ set_status_cancelled id <$> warranties s -> w ∈ warranties s) as Hmap.
    { intros (w0 & -> & Hin)%list_elem_of_fmap.
      now rewrite (set_status_cancelled_active _ _ Hactive). }
    destruct (head _) as [w0|]; [|done].
    repeat case_decide; try done.
    destruct (vehicles s) as [|rows]; cbn; done.
Qed.

Definition paid_warranty : warranty :=
  Warranty 1 "MH02XX1234" "ccp" "2year" "01/01/2027" "31/12/2028" "active" 5500 80000.

Definition unpaid_warranty : warranty :=
  Warranty 1 "MH02XX1234" "ccp" "2year" "01/01/2027" "31/12/2028" "pending_payment"
           5500 80000.

Lemma tools_never_activate_witness :
  paid_warranty
  ∉ warranties (cancel_warranty_service
                  (Store (Rows [covered_hatchback]) [unpaid_warranty]
                         (Rows packages_on_offer)) 1).2.
Proof.
  intros Hin.
  apply (proj2 (tools_never_activate mail_fails
                  (Store (Rows [covered_hatchback]) [unpaid_warranty]
                         (Rows packages_on_offer))
                  paid_warranty eq_refl) 1) in Hin.
  apply list_elem_of_singleton in Hin. discriminate.
Defined.

Section CancelFacts.

Variable send_email : string -> string -> string -> res Notification.email_result.

(** What a successful purchase has read and written, with the identifier
    it has chosen. *)
Lemma purchase_outcome s r package_type customer_email response s' :
  purchase_ccp_package send_email s r package_type customer_email
  = (Purchased response, s') ->
  exists rows v w,
    vehicles s = Rows rows
    /\ first_with_registration r rows = Some v
    /\ has_ccp v = false
    /\ s' = Store (Rows (set_has_ccp r <$> rows)) (warranties s ++ [w]) (ccp_packages s)
    /\ warranty_id w = receipt_warranty_id response
    /\ warranty_id w = next_id (warranty_id <$> warranties s)
    /\ vehicle_registration w = r
    /\ warranty_type w = "ccp"
    /\ status w = "pending_payment".
Proof.
  unfold purchase_ccp_package.
  destruct (vehicles s) as [|rows] eqn:Hrows; [cbn; congruence|].
  cbn [column mbind res_bind].
  destruct (first_with_registration r rows) as [v|] eqn:Hv; [|cbn; congruence].
  destruct (has_extended_warranty v) eqn:Hew; cbn [negb]; [|cbn; congruence].
  destruct (has_ccp v) eqn:Hccp; [cbn; congruence|].
  destruct (package_map package_type) as [years|]; [|cbn; congruence].
  destruct (ccp_packages s) as [|packages]; [cbn; congruence|].
  cbn [column mbind res_bind].
  destruct (head (filter (fun p => duration_years p = years) packages))
    as [package_info|]; [|cbn; congruence].
  destruct (strptime (warranty_expiry v)) as [warranty_start|e]; [|cbn; congruence].
  cbn [mbind res_bind].
  destruct (add_days warranty_start (duration_years package_info * 365))
    as [warranty_end|e]; [|cbn; congruence].
  cbn [mbind res_bind].
  destruct (confirmation send_email customer_email
              (next_id (warranty_id <$> warranties s))) as [sent email_status].
  cbn [try_except]. intros [= <- <-].
  eexists rows, v, _. repeat split; try reflexivity; done.
Qed.

(** X10.  A purchase can be taken back: cancelling the warranty that a
    successful purchase has reported goes through, the warranty then no
    longer counts as active, a second cancellation of it is refused, and
    both eligibility checks answer for the vehicle as they did before the
    purchase. *)
Theorem cancel_undoes_purchase (s : store)
    (r package_type customer_email : string) (response : receipt) (s' : store) :
  purchase_ccp_package send_email s r package_type customer_email
  = (Purchased response, s') ->
  is_warranty_active s' (receipt_warranty_id response) = true
  /\ exists s'',
      cancel_warranty_service s' (receipt_warranty_id response)
      = (Cancelled (CancelledWarranty (receipt_warranty_id response) r "ccp"), s'')
      /\ is_warranty_active s'' (receipt_warranty_id response) = false
      /\ cancel_warranty_service s'' (receipt_warranty_id response)
         = (CancelError "Warranty with status 'cancelled' cannot be cancelled.", s'')
      /\ (forall now, check_ccp_eligibility now s'' r = check_ccp_eligibility now s r)
      /\ (forall now, check_extended_warranty_eligibility now s'' r
                      = check_extended_warranty_eligibility now s r).
Proof.
  intros Hbuy.
  destruct (purchase_outcome _ _ _ _ _ _ Hbuy)
    as (rows & v & w & Hrows & Hv & Hccp & -> & Hid & Hfresh & Hreg & Htype & Hstatus).
  pose proof (first_with_id_fresh (warranties s) w Hfresh) as Hfirst.
  rewrite Hid in Hfirst. split.
  - unfold is_warranty_active. cbn [warranties]. rewrite Hfirst, Hstatus. reflexivity.
  - unfold cancel_warranty_service at 1. cbn [warranties vehicles ccp_packages].
    rewrite Hfirst, Hstatus, Htype, Hreg. cbn [column].
    rewrite decide_False by discriminate.
    rewrite decide_False by (intros Hne; now apply Hne).
    rewrite decide_True by done.
    eexists. split; [reflexivity|].
    assert (head (filter (fun x => warranty_id x = receipt_warranty_id response)
                    (set_status_cancelled (receipt_warranty_id response)
                       <$> (warranties s ++ [w])))
            = Some (set_status_cancelled (receipt_warranty_id response) w)) as Hgone
      by now rewrite first_warranty_cancelled, Hfirst.
    assert (status (set_status_cancelled (receipt_warranty_id response) w) = "cancelled")
      as Hcancelled by (unfold set_status_cancelled; now rewrite decide_True).
    assert (first_with_registration r (clear_has_ccp r <$> (set_has_ccp r <$> rows)) = Some v)
      as Hback.
    { rewrite first_with_registration_clear, first_with_registration_set, Hv. cbn.
      now rewrite clear_set_has_ccp. }
    split; [|split; [|split]].
    + unfold is_warranty_active. cbn [warranties]. rewrite Hgone, Hcancelled. reflexivity.
    + unfold cancel_warranty_service. cbn [warranties]. rewrite Hgone, Hcancelled.
      rewrite decide_False by discriminate. rewrite decide_True by discriminate.
      reflexivity.
    + intros now.
      erewrite (check_with_vehicle now _ _ r v); [|reflexivity|exact Hback].
      now rewrite (check_with_vehicle now s rows r v Hrows Hv).
    + intros now.
      erewrite (extension_check_with_vehicle now _ _ r v); [|reflexivity|exact Hback].
      now rewrite (extension_check_with_vehicle now s rows r v Hrows Hv).
Qed.

End CancelFacts.

Lemma cancel_undoes_purchase_witness :
  exists response s' s'',
    purchase_ccp_package mail_fails showroom "MH02XX1234" "2year" "asha@example.com"
    = (Purchased response, s')
    /\ cancel_warranty_service s' (receipt_warranty_id response)
       = (Cancelled (CancelledWarranty (receipt_warranty_id response) "MH02XX1234" "ccp"), s'')
    /\ forall now, check_ccp_eligibility now s'' "MH02XX1234"
                   = check_ccp_eligibility now showroom "MH02XX1234".
Proof.
  eexists _, _.
  destruct (cancel_undoes_purchase mail_fails showroom "MH02XX1234" "2year"
              "asha@example.com" _ _ ltac:(vm_compute; reflexivity))
    as (_ & s'' & Hcancel & _ & _ & Hcheck & _).
  exists s''. split; [vm_compute; reflexivity|]. split; [exact Hcancel|exact Hcheck].
Defined.

(** Two vehicle rows that differ at most in the purchase date and the
    mileage. *)
Definition same_but_history (v1 v2 : vehicle) : Prop :=
  registration v1 = registration v2 /\ model v1 = model v2
  /\ warranty_expiry v1 = warranty_expiry v2
  /\ has_extended_warranty v1 = has_extended_warranty v2
  /\ has_ccp v1 = has_ccp v2.

Lemma first_with_registration_related r rows1 rows2 :
  Forall2 same_but_history rows1 rows2 ->
  option_Forall2 same_but_history
    (first_with_registration r rows1) (first_with_registration r rows2).
Proof.
  unfold first_with_registration.
  induction 1 as [|v1 v2 rows1 rows2 Hv Hrows IH]; [constructor|].
  rewrite !filter_cons. destruct Hv as (Hreg & Hrest). rewrite <- Hreg.
  destruct (decide (registration v1 = r)); [|exact IH].
  cbn. constructor. now split.
Qed.

Lemma set_has_ccp_related r rows1 rows2 :
  Forall2 same_but_history rows1 rows2 ->
  Forall2 same_but_history (set_has_ccp r <$> rows1) (set_has_ccp r <$> rows2).
Proof.
  intros Hrows. apply Forall2_fmap. eapply Forall2_impl; [exact Hrows|].
  intros v1 v2 (Hreg & Hmodel & Hexpiry & Hew & Hccp). unfold set_has_ccp.
  rewrite <- Hreg. destruct (decide (registration v1 = r)); repeat split; cbn; done.
Qed.

Section PurchaseReads.

Variable send_email : string -> string -> string -> res Notification.email_result.

(** X11.  A purchase never reads the purchase date or the mileage of a
    vehicle: on two sets of files that differ at most in these two
    columns it gives the same answer and writes the same warranty, and
    the vehicles it leaves differ again at most in these two columns.  So
    the window of 630 days and the mileage limits of the packages, which
    the eligibility check applies, play no part in a purchase. *)
Theorem purchase_ignores_history (s1 s2 : store) (rows1 rows2 : list vehicle)
    (r package_type customer_email : string) :
  vehicles s1 = Rows rows1 -> vehicles s2 = Rows rows2 ->
  Forall2 same_but_history rows1 rows2 ->
  warranties s1 = warranties s2 ->
  ccp_packages s1 = ccp_packages s2 ->
  let out1 := purchase_ccp_package send_email s1 r package_type customer_email in
  let out2 := purchase_ccp_package send_email s2 r package_type customer_email in
  out1.1 = out2.1
  /\ warranties out1.2 = warranties out2.2
  /\ ccp_packages out1.2 = ccp_packages out2.2
  /\ exists rows1' rows2',
      vehicles out1.2 = Rows rows1' /\ vehicles out2.2 = Rows rows2'
      /\ Forall2 same_but_history rows1' rows2'.
Proof.
  intros Hrows1 Hrows2 Hrows Hws Hpk. cbn zeta. unfold purchase_ccp_package.
  rewrite Hrows1, Hrows2, <- Hws, <- Hpk. cbn [column mbind res_bind].
  assert (forall error,
             (PurchaseError error, s1).1 = (PurchaseError error, s2).1
             /\ warranties (PurchaseError error, s1).2
                = warranties (PurchaseError error, s2).2
             /\ ccp_packages (PurchaseError error, s1).2
                = ccp_packages (PurchaseError error, s2).2
             /\ exists rows1' rows2',
                 vehicles (PurchaseError error, s1).2 = Rows rows1'
                 /\ vehicles (PurchaseError error, s2).2 = Rows rows2'
                 /\ Forall2 same_but_history rows1' rows2') as Hsame.
  { intros error. cbn. repeat split; try done. eauto. }
  destruct (first_with_registration_related r rows1 rows2 Hrows)
    as [v1 v2 (Hreg & Hmodel & Hexpiry & Hew & Hccp)|]; [|apply Hsame].
  rewrite <- Hew, <- Hccp, <- Hexpiry, <- Hmodel.
  destruct (has_extended_warranty v1); cbn [negb]; [|apply Hsame].
  destruct (has_ccp v1); [apply Hsame|].
  destruct (package_map package_type) as [years|]; [|apply Hsame].
  destruct (ccp_packages s1) as [|packages]; [apply Hsame|].
  cbn [column mbind res_bind].
  destruct (head (filter (fun p => duration_years p = years) packages))
    as [package_info|]; [|apply Hsame].
  destruct (strptime (warranty_expiry v1)) as [warranty_start|e]; [|apply Hsame].
  cbn [mbind res_bind].
  destruct (add_days warranty_start (duration_years package_info * 365))
    as [warranty_end|e]; [|apply Hsame].
  cbn [mbind res_bind].
  destruct (confirmation send_email customer_email
              (next_id (warranty_id <$> warranties s1))) as [sent email_status].
  cbn. repeat split; try done.
  eexists _, _. split; [reflexivity|]. split; [reflexivity|].
  now apply set_has_ccp_related.
Qed.

End PurchaseReads.

Definition old_hatchback : vehicle :=
  Vehicle "MH02XX1234" "Swift" "01/01/2010" 500000 "01/01/2027" true false.

Lemma purchase_ignores_history_witness :
  (purchase_ccp_package mail_fails (Store (Rows [old_hatchback]) [] (Rows packages_on_offer))
     "MH02XX1234" "1year" "asha@example.com").1
  = (purchase_ccp_package mail_fails showroom "MH02XX1234" "1year" "asha@example.com").1
  /\ (exists response,
         (purchase_ccp_package mail_fails showroom "MH02XX1234" "1year"
            "asha@example.com").1 = Purchased response)
  /\ check_ccp_eligibility (DateTime (ymd2ord 2025 1 1) 0)
       (Store (Rows [old_hatchback]) [] (Rows packages_on_offer)) "MH02XX1234"
     = NotEligible (reason_expired "01/01/2010") "MH02XX1234" "Swift" (Some "23/09/2011").
Proof.
  split; [|split].
  - apply (purchase_ignores_history mail_fails
             (Store (Rows [old_hatchback]) [] (Rows packages_on_offer)) showroom
             [old_hatchback] [covered_hatchback] "MH02XX1234" "1year" "asha@example.com"
             eq_refl eq_refl).
    + repeat constructor.
    + reflexivity.
    + reflexivity.
  - eexists. vm_compute. reflexivity.
  - vm_compute. reflexivity.
Defined.

(** *** The status of a vehicle around a purchase *)

(** The dict of [check_warranty_status]. *)
Record status_report := StatusReport {
  report_vehicle_registration : string;
  report_model : string;
  report_purchase_date : string;
  report_current_mileage : Z;
  standard_warranty_expiry : string;
  report_has_extended_warranty : bool;
  report_has_ccp : bool;
  active_warranties : list warranty
}.

Inductive status_result :=
| StatusError (error : string)
| Status (report : status_report).

(** [check_warranty_status(vehicle_registration)] on the two files that
    it loads, each of which may be absent. *)
Definition check_warranty_status (vehicles_df : table vehicle)
    (warranties_df : table warranty) (vehicle_registration : string) : status_result :=
  try_except
    (rows ← column "registration" vehicles_df;
     match first_with_registration vehicle_registration rows with
     | None =>
         Ok (StatusError ("Vehicle with registration " +:+ vehicle_registration
                          +:+ " not found in our system."))
     | Some vehicle_info =>
         warranty_rows ← column "vehicle_registration" warranties_df;
         Ok (Status
               (StatusReport vehicle_registration (model vehicle_info)
                  (purchase_date vehicle_info) (current_mileage vehicle_info)
                  (warranty_expiry vehicle_info) (has_extended_warranty vehicle_info)
                  (has_ccp vehicle_info)
                  (filter (fun w => Warranty.vehicle_registration w = vehicle_registration
                                    /\ status w = "active")
                          warranty_rows)))
     end)
    (fun e => StatusError ("An error occurred while checking warranty status: "
                           +:+ exn_str e)).

Lemma set_status_cancelled_others id (ws : list warranty) :
  (forall w, w ∈ ws -> warranty_id w <> id) -> set_status_cancelled id <$> ws = ws.
Proof.
  intros Hall. induction ws as [|w ws IH]; [done|].
  rewrite fmap_cons, IH by (intros w0 Hin; apply Hall; now right).
  unfold set_status_cancelled. rewrite decide_False; [done|]. apply Hall. now left.
Qed.

Section StatusFacts.

Variable send_email : string -> string -> string -> res Notification.email_result.

(** X21.  A purchase shows in the status of the vehicle as the flag only.
    Before a successful purchase [check_warranty_status] reports the
    vehicle without CCP when there is a warranties file, and answers with
    the error of the missing column [vehicle_registration] when there is
    none, in which case the purchase creates the file.  After the
    purchase it reports [has_ccp] true and the active warranties that
    were on file before, without the warranty just bought; after the
    cancellation of that warranty it reports the vehicle without CCP and
    with the same active warranties again. *)
Theorem status_around_purchase (s : store)
    (r package_type customer_email : string) (response : receipt) (s' : store) :
  purchase_ccp_package send_email s r package_type customer_email
  = (Purchased response, s') ->
  exists report,
    report_has_ccp report = false
    /\ report_vehicle_registration report = r
    /\ active_warranties report
       = filter (fun w => vehicle_registration w = r /\ status w = "active") (warranties s)
    /\ check_warranty_status (vehicles s) (Rows (warranties s)) r = Status report
    /\ check_warranty_status (vehicles s) Missing r
       = StatusError
           "An error occurred while checking warranty status: 'vehicle_registration'"
    /\ check_warranty_status (vehicles s') (Rows (warranties s')) r
       = Status (StatusReport (report_vehicle_registration report) (report_model report)
                   (report_purchase_date report) (report_current_mileage report)
                   (standard_warranty_expiry report)
                   (report_has_extended_warranty report) true
                   (active_warranties report))
    /\ (forall w, w ∈ active_warranties report ->
          warranty_id w <> receipt_warranty_id response)
    /\ (let s'' := (cancel_warranty_service s' (receipt_warranty_id response)).2 in
        check_warranty_status (vehicles s'') (Rows (warranties s'')) r = Status report).
Proof.
  intros Hbuy.
  destruct (purchase_outcome _ _ _ _ _ _ _ Hbuy)
    as (rows & v & w & Hrows & Hv & Hccp & -> & Hid & Hfresh & Hreg & Htype & Hstatus).
  pose proof (first_with_registration_registration _ _ _ Hv) as Hr.
  pose proof (first_with_id_fresh (warranties s) w Hfresh) as Hfirst.
  rewrite Hid in Hfirst.
  exists (StatusReport r (model v) (purchase_date v) (current_mileage v)
            (warranty_expiry v) (has_extended_warranty v) (has_ccp v)
            (filter (fun w => vehicle_registration w = r /\ status w = "active")
                    (warranties s))).
  cbn [report_has_ccp report_vehicle_registration active_warranties report_model
       report_purchase_date report_current_mileage standard_warranty_expiry
       report_has_extended_warranty].
  split; [exact Hccp|]. split; [reflexivity|]. split; [reflexivity|].
  split; [|split; [|split; [|split]]].
  - unfold check_warranty_status. rewrite Hrows. cbn [column mbind res_bind].
    rewrite Hv. reflexivity.
  - unfold check_warranty_status. rewrite Hrows. cbn [column mbind res_bind].
    rewrite Hv. reflexivity.
  - unfold check_warranty_status. cbn [vehicles warranties column mbind res_bind].
    rewrite first_with_registration_set, Hv. cbn.
    rewrite filter_app, filter_cons, filter_nil.
    rewrite decide_False by (rewrite Hstatus; intros [_ [=]]).
    rewrite app_nil_r.
    unfold set_has_ccp. rewrite decide_True by done. reflexivity.
  - intros w0 [_ Hin]%list_elem_of_filter Heq.
    apply (next_id_fresh (warranty_id <$> warranties s)).
    rewrite <- Hfresh, Hid, <- Heq. now apply list_elem_of_fmap_2.
  - cbn zeta. unfold cancel_warranty_service. cbn [warranties vehicles ccp_packages].
    rewrite Hfirst, Hstatus, Htype, Hreg. cbn [column].
    rewrite decide_False by discriminate.
    rewrite decide_False by (intros Hne; now apply Hne).
    rewrite decide_True by done.
    unfold check_warranty_status. cbn [snd vehicles warranties column mbind res_bind].
    rewrite first_with_registration_clear, first_with_registration_set, Hv. cbn.
    rewrite clear_set_has_ccp by done. rewrite Hccp. do 2 f_equal.
    rewrite fmap_app, filter_app, (set_status_cancelled_others _ (warranties s)).
    + cbn [fmap list_fmap]. rewrite filter_cons, filter_nil.
      rewrite decide_False; [now rewrite app_nil_r|].
      unfold set_status_cancelled. rewrite decide_True by done. cbn. intros [_ [=]].
    + intros w0 Hin Heq. apply (next_id_fresh (warranty_id <$> warranties s)).
      rewrite <- Hfresh, Hid, <- Heq. now apply list_elem_of_fmap_2.
Qed.

End StatusFacts.

Lemma status_around_purchase_witness :
  exists response s',
    purchase_ccp_package mail_fails showroom "MH02XX1234" "2year" "asha@example.com"
    = (Purchased response, s')
    /\ check_warranty_status (vehicles showroom) Missing "MH02XX1234"
       = StatusError
           "An error occurred while checking warranty status: 'vehicle_registration'"
    /\ check_warranty_status (vehicles s') (Rows (warranties s')) "MH02XX1234"
       = Status (StatusReport "MH02XX1234" "Swift" "01/01/2024" 12000 "01/01/2027"
                   true true []).
Proof.
  eexists _, _. split; [vm_compute; reflexivity|].
  destruct (status_around_purchase mail_fails showroom "MH02XX1234" "2year"
              "asha@example.com" _ _ ltac:(vm_compute; reflexivity))
    as (report & _ & _ & _ & Hbefore & Habsent & Hafter & _).
  split; [exact Habsent|].
  rewrite Hafter.
  assert (Status report
          = Status (StatusReport "MH02XX1234" "Swift" "01/01/2024" 12000 "01/01/2027"
                      true false [])) as [= ->]
    by (rewrite <- Hbefore; vm_compute; reflexivity).
  reflexivity.
Defined.

End Warranty.

(** ** Appointments: [book_service_appointment], [reschedule_appointment] *)

Module Appointments.

Record appointment := Appointment {
  appointment_id : Z;
  vehicle_registration : string;
  service_center : string;
  appointment_date : string;
  appointment_time : string;
  service_type : string;
  status : string;
  customer_name : string;
  customer_phone : option string;
  customer_email : option string;
  notes : string;
  created_at : string
}.

Record vehicle := Vehicle {
  registration : string;
  model : string;
  customer_id : option string
}.

Record center := Center {
  center_name : string;
  city : string;
  address : string;
  phone : string
}.

Record user := User {
  user_id : Z;
  user_email : string;
  user_phone : string
}.

(** The files that the tools load.  The appointments file is created with
    its header when it does not exist, so it always has its columns;
    [user_id_conf] is the text of the file with the current user, when
    there is one. *)
Record store := Store {
  appointments : list appointment;
  vehicles : table vehicle;
  service_centers : table center;
  users : table user;
  user_id_conf : option string
}.

Definition with_appointments (s : store) (rows : list appointment) : store :=
  Store rows (vehicles s) (service_centers s) (users s) (user_id_conf s).

(** [status in ['confirmed', 'pending']] *)
Definition active (a : appointment) : Prop :=
  status a = "confirmed" \/ status a = "pending".

Global Instance active_dec a : Decision (active a).
Proof. unfold active. apply _. Defined.

(** The slot of an appointment. *)
Definition slot (a : appointment) : string * string * string :=
  (service_center a, appointment_date a, appointment_time a).

(** No two confirmed or pending appointments in the same slot. *)
Definition slots_unique (rows : list appointment) : Prop :=
  NoDup (slot <$> filter active rows).

(** No two appointments with the same identifier. *)
Definition ids_unique (rows : list appointment) : Prop :=
  NoDup (appointment_id <$> rows).

(** Truth value of an optional [str]. *)
Definition given (o : option string) : bool :=
  match o with
  | Some s => negb (bool_decide (s = EmptyString))
  | None => false
  end.

(** [f"{n:06d}"] *)
Fixpoint zeros (n : nat) : string :=
  match n with
  | O => EmptyString
  | S n' => String "0" (zeros n')
  end.

Definition pad (width : nat) (digits : string) : string :=
  zeros (width - String.length digits) +:+ digits.

Definition six_digits (n : Z) : string :=
  if n <? 0 then "-" +:+ pad 5 (Normalize.str_of_N (Z.to_N (- n)))
  else pad 6 (Normalize.str_of_N (Z.to_N n)).

(** The response of a booking, as far as the identifiers, the slot and
    the two entries about the confirmation mail go. *)
Record booking := Booking {
  booking_appointment_id : Z;
  confirmation_number : string;
  booking_service_center : string;
  booking_date : string;
  booking_time : string;
  confirmation_sent_to : string;
  email_confirmation : string
}.

Inductive booking_result :=
| BookingError (error : string)
| Booked (response : booking).

(** The response of a rescheduling. *)
Record rescheduling := Rescheduling {
  rescheduled_id : Z;
  rescheduled_center : string;
  old_date : string;
  old_time : string;
  new_date : string;
  new_time : string
}.

Inductive reschedule_result :=
| RescheduleError (error : string)
| Rescheduled (response : rescheduling).

Definition slot_taken_text (time date : string) : string :=
  "Time slot " +:+ time +:+ " on " +:+ date +:+ " is already booked".

Section Tools.

(** Outside the repository: the builtin [int] on a [str]; the search of
    pandas' [str.contains(pattern, case=False, na=False)], which compiles
    [pattern] as a regular expression (and may raise on it) and then
    tests a name; the clock, already formatted; whether the import of the
    mail tool succeeded, and the call of that tool with recipient,
    subject and notification type. *)
Variable int_of_str : string -> res Z.
Variable str_contains : string -> res (string -> bool).
Variable now_text : string.
Variable EMAIL_AVAILABLE : bool.
Variable send_email : string -> string -> string -> res Notification.email_result.

(** The block that completes email and phone from the profile of the
    current user. *)
Definition detect_contact (s : store) (customer_phone customer_email : option string) :
    res (option string * option string) :=
  if negb (given customer_email) || negb (given customer_phone) then
    match user_id_conf s with
    | Some text =>
        current_user_id ← int_of_str text;
        rows ← column "user_id" (users s);
        match head (filter (fun u => user_id u = current_user_id) rows) with
        | Some u =>
            Ok (if given customer_phone then customer_phone else Some (user_phone u),
                if given customer_email then customer_email else Some (user_email u))
        | None => Ok (customer_phone, customer_email)
        end
    | None => Ok (customer_phone, customer_email)
    end
  else Ok (customer_phone, customer_email).

(** The first center whose name the search accepts. *)
Definition find_center (s : store) (service_center_name : string) : res (option center) :=
  rows ← column "center_name" (service_centers s);
  found ← str_contains service_center_name;
  Ok (head (filter (fun c => found (center_name c) = true) rows)).

(** The rows that make a slot unavailable. *)
Definition existing_booking (rows : list appointment)
    (center date time : string) : list appointment :=
  filter (fun a => service_center a = center /\ appointment_date a = date
                   /\ appointment_time a = time /\ active a) rows.

(** The entry about the confirmation mail. *)
Definition mail_note (customer_email : option string) (date time : string) : string :=
  match customer_email with
  | Some address =>
      if EMAIL_AVAILABLE && given customer_email then
        try_except
          (email_result ←
             send_email address ("Appointment Confirmed - " +:+ date +:+ " at " +:+ time)
                        "general";
           Ok (if Notification.success email_result
               then "Confirmation email sent to " +:+ address
               else "Appointment confirmed, but email notification could not be sent"))
          (fun _ => "Appointment confirmed, but email notification failed")
      else "Email not sent (no email address found in your profile)"
  | None => "Email not sent (no email address found in your profile)"
  end.

(** [book_service_appointment]: the response and the files afterwards. *)
Definition book_service_appointment (s : store)
    (vehicle_registration service_center_name appointment_date appointment_time
       service_type : string)
    (customer_phone customer_email : option string) (notes : string) :
    booking_result * store :=
  try_except
    (vehicle_rows ← column "registration" (vehicles s);
     match head (filter (fun v => registration v = vehicle_registration) vehicle_rows) with
     | None => Ok (BookingError ("Vehicle " +:+ vehicle_registration +:+ " not found"), s)
     | Some vehicle_info =>
         '(customer_phone, customer_email) ← detect_contact s customer_phone customer_email;
         found ← find_center s service_center_name;
         match found with
         | None =>
             Ok (BookingError ("Service center '" +:+ service_center_name
                               +:+ "' not found"), s)
         | Some center_info =>
             match existing_booking (appointments s) (center_name center_info)
                     appointment_date appointment_time with
             | _ :: _ =>
                 Ok (BookingError (slot_taken_text appointment_time appointment_date), s)
             | [] =>
                 let new_appointment_id := next_id (appointment_id <$> appointments s) in
                 let new_appointment :=
                   Appointment new_appointment_id vehicle_registration
                     (center_name center_info) appointment_date appointment_time
                     service_type "confirmed"
                     (default "Customer" (customer_id vehicle_info))
                     customer_phone customer_email notes now_text in
                 Ok (Booked
                       (Booking new_appointment_id
                          ("MSAP" +:+ six_digits new_appointment_id)
                          (center_name center_info) appointment_date appointment_time
                          (if given customer_email
                           then default EmptyString customer_email
                           else "Email not available")
                          (mail_note customer_email appointment_date appointment_time)),
                     with_appointments s (appointments s ++ [new_appointment]))
             end
         end
     end)
    (fun e => (BookingError ("Booking failed: " +:+ exn_str e), s)).

(** The two assignments through [.loc] of [reschedule_appointment]. *)
Definition move (id : Z) (date time : string) (a : appointment) : appointment :=
  if decide (appointment_id a = id) then
    Appointment (appointment_id a) (vehicle_registration a) (service_center a)
      date time (service_type a) (status a) (customer_name a)
      (customer_phone a) (customer_email a) (notes a) (created_at a)
  else a.

(** [reschedule_appointment(appointment_id, new_date, new_time)] *)
Definition reschedule_appointment (s : store) (id : Z) (date time : string) :
    reschedule_result * store :=
  match head (filter (fun a => appointment_id a = id) (appointments s)) with
  | None =>
      (RescheduleError ("Appointment ID " +:+ str_of_Z id +:+ " not found"), s)
  | Some appointment =>
      if decide (status appointment = "cancelled") then
        (RescheduleError "Cannot reschedule a cancelled appointment", s)
      else if decide (status appointment = "completed") then
        (RescheduleError "Cannot reschedule a completed appointment", s)
      else
        match filter (fun a => appointment_id a <> id)
                (existing_booking (appointments s) (service_center appointment) date time)
        with
        | _ :: _ => (RescheduleError (slot_taken_text time date), s)
        | [] =>
            (Rescheduled
               (Rescheduling id (service_center appointment)
                  (appointment_date appointment) (appointment_time appointment)
                  date time),
             with_appointments s (move id date time <$> appointments s))
        end
  end.

End Tools.

(** *** Slots stay unique *)

Lemma contains_prefix needle hay :
  is_prefix needle hay = true -> contains needle hay = true.
Proof. intros H. destruct hay; cbn; now rewrite H. Qed.

Lemma contains_app_r needle p hay :
  contains needle hay = true -> contains needle (p +:+ hay) = true.
Proof.
  intros H. induction p as [|c p IH]; [exact H|].
  rewrite str_app_cons. cbn. rewrite IH. now destruct (is_prefix needle _).
Qed.

Lemma slot_taken_text_marker time date :
  contains "already booked" (slot_taken_text time date) = true.
Proof.
  unfold slot_taken_text. do 4 apply contains_app_r. vm_compute. reflexivity.
Qed.

Lemma filter_empty_not {A : Type} (P : A -> Prop) `{!forall x, Decision (P x)}
    (l : list A) (x : A) :
  filter P l = [] -> x ∈ l -> ~ P x.
Proof.
  intros Hnil Hin HP. assert (x ∈ filter P l) as Hx by now apply list_elem_of_filter.
  rewrite Hnil in Hx. now apply elem_of_nil in Hx.
Qed.

Lemma elem_of_active_slots (rows : list appointment) k :
  k ∈ slot <$> filter active rows <-> exists a, a ∈ rows /\ active a /\ slot a = k.
Proof.
  rewrite list_elem_of_fmap. split.
  - intros (a & -> & [Ha Hin]%list_elem_of_filter). eauto.
  - intros (a & Hin & Ha & <-). exists a. split; [done|]. now apply list_elem_of_filter.
Qed.

Lemma slots_unique_cons a rows :
  slots_unique (a :: rows)
  <-> slots_unique rows /\ (active a -> slot a ∉ slot <$> filter active rows).
Proof.
  unfold slots_unique. rewrite filter_cons. destruct (decide (active a)) as [Ha|Ha].
  - rewrite fmap_cons, NoDup_cons. tauto.
  - tauto.
Qed.

Lemma slots_unique_snoc rows a :
  slots_unique rows -> (active a -> slot a ∉ slot <$> filter active rows) ->
  slots_unique (rows ++ [a]).
Proof.
  unfold slots_unique. intros Hrows Ha. rewrite filter_app, fmap_app.
  apply NoDup_app. split; [done|]. rewrite filter_cons, filter_nil.
  destruct (decide (active a)) as [Hact|Hact]; cbn.
  - split; [|apply NoDup_singleton].
    intros k Hk ->%list_elem_of_singleton. now apply Ha.
  - split; [|constructor]. intros k _ Hk. now apply elem_of_nil in Hk.
Qed.

Lemma same_id_same_row (rows : list appointment) a b :
  ids_unique rows -> a ∈ rows -> b ∈ rows -> appointment_id a = appointment_id b -> a = b.
Proof.
  unfold ids_unique. induction rows as [|r rows IH]; [intros _ []%elem_of_nil|].
  rewrite fmap_cons, NoDup_cons. intros [Hr Hnd] Ha Hb Hid.
  apply elem_of_cons in Ha as [->|Ha]; apply elem_of_cons in Hb as [->|Hb]; auto.
  - exfalso. apply Hr. rewrite Hid. now apply list_elem_of_fmap_2.
  - exfalso. apply Hr. rewrite <- Hid. now apply list_elem_of_fmap_2.
Qed.

Lemma move_id id date time a : appointment_id (move id date time a) = appointment_id a.
Proof. unfold move. now case_decide. Qed.

Lemma move_active id date time a : active (move id date time a) <-> active a.
Proof. unfold move, active. now case_decide. Qed.

Lemma move_slot id date time a :
  appointment_id a = id -> slot (move id date time a) = (service_center a, date, time).
Proof. intros H. unfold move. now rewrite decide_True. Qed.

Lemma move_other id date time a :
  appointment_id a <> id -> move id date time a = a.
Proof. intros H. unfold move. now rewrite decide_False. Qed.

Lemma move_ids id date time (rows : list appointment) :
  appointment_id <$> (move id date time <$> rows) = appointment_id <$> rows.
Proof.
  rewrite <- list_fmap_compose. apply list_fmap_ext. intros _ a _. apply move_id.
Qed.

(** Moving the appointments with identifier [id] to a slot that no other
    active appointment of their center holds. *)
Lemma moved_slots_unique id date time center (rows : list appointment) :
  ids_unique rows -> slots_unique rows ->
  (forall a, a ∈ rows -> appointment_id a = id -> service_center a = center) ->
  (forall a, a ∈ rows -> appointment_id a <> id -> active a ->
             slot a <> (center, date, time)) ->
  slots_unique (move id date time <$> rows).
Proof.
  induction rows as [|a rows IH]; [done|].
  intros Hids [Hslots Hfree]%slots_unique_cons Hcenter Hother.
  unfold ids_unique in Hids. rewrite fmap_cons, NoDup_cons in Hids.
  destruct Hids as [Hfresh Hids].
  rewrite fmap_cons. apply slots_unique_cons. split.
  - apply IH; [done..| |]; intros b Hb; [apply Hcenter|apply Hother]; now right.
  - intros Hact%move_active. rewrite elem_of_active_slots.
    intros (x & (b & -> & Hb)%list_elem_of_fmap & Hx%move_active & Hslot).
    destruct (decide (appointment_id a = id)) as [Ha|Ha];
      destruct (decide (appointment_id b = id)) as [Hbid|Hbid].
    + apply Hfresh. rewrite Ha, <- Hbid. now apply list_elem_of_fmap_2.
    + rewrite (move_other _ _ _ b Hbid), (move_slot _ _ _ a Ha) in Hslot.
      apply (Hother b); [now right|done..|].
      rewrite Hslot. f_equal. f_equal. apply Hcenter; [now left|done].
    + rewrite (move_other _ _ _ a Ha), (move_slot _ _ _ b Hbid) in Hslot.
      apply (Hother a); [now left|done..|].
      rewrite <- Hslot. f_equal. f_equal. apply Hcenter; [now right|done].
    + rewrite (move_other _ _ _ a Ha), (move_other _ _ _ b Hbid) in Hslot.
      apply Hfree; [done|]. apply elem_of_active_slots. eauto.
Qed.

Section ToolFacts.

Variable int_of_str : string -> res Z.
Variable str_contains : string -> res (string -> bool).
Variable now_text : string.
Variable EMAIL_AVAILABLE : bool.
Variable send_email : string -> string -> string -> res Notification.email_result.

(** A booking leaves the files as they are or appends one confirmed
    appointment with a fresh identifier in a slot that was free. *)
Lemma book_outcome s registration center date time service phone email notes :
  let s' := (book_service_appointment int_of_str str_contains now_text EMAIL_AVAILABLE
       send_email s registration center date time service phone email notes).2 in
  s' = s
  \/ exists a,
       s' = with_appointments s (appointments s ++ [a])
       /\ appointment_id a = next_id (appointment_id <$> appointments s)
       /\ existing_booking (appointments s) (service_center a)
            (appointment_date a) (appointment_time a) = [].
Proof.
  cbn zeta. unfold book_service_appointment.
  destruct (column "registration" (vehicles s)) as [vehicle_rows|e]; [|now left].
  cbn [mbind res_bind].
  destruct (head (filter _ vehicle_rows)) as [vehicle_info|]; [|now left].
  destruct (detect_contact int_of_str s phone email) as [[phone' email']|e]; [|now left].
  cbn [mbind res_bind].
  destruct (find_center str_contains s center) as [[center_info|]|e]; try now left.
  cbn [mbind res_bind].
  destruct (existing_booking (appointments s) (center_name center_info) date time)
    as [|held others] eqn:Hfree; [|now left].
  right. cbn [try_except snd]. eexists. split; [reflexivity|]. cbn. done.
Qed.

Lemma book_keeps_slots_unique s registration center date time service phone email notes :
  slots_unique (appointments s) ->
  slots_unique
    (appointments
       (book_service_appointment int_of_str str_contains now_text EMAIL_AVAILABLE
          send_email s registration center date time service phone email notes).2).
Proof.
  intros Hslots.
  destruct (book_outcome s registration center date time service phone email notes)
    as [->|(a & -> & Hid & Hfree)]; [done|].
  cbn [appointments with_appointments].
  apply slots_unique_snoc; [done|].
  intros _ (b & Hb & Hact & Hslot)%elem_of_active_slots.
  apply (filter_empty_not _ _ b Hfree Hb).
  injection Hslot as -> -> ->. done.
Qed.

Lemma book_keeps_ids_unique s registration center date time service phone email notes :
  ids_unique (appointments s) ->
  ids_unique
    (appointments
       (book_service_appointment int_of_str str_contains now_text EMAIL_AVAILABLE
          send_email s registration center date time service phone email notes).2).
Proof.
  intros Hids.
  destruct (book_outcome s registration center date time service phone email notes)
    as [->|(a & -> & Hid & Hfree)]; [done|].
  cbn [appointments with_appointments].
  unfold ids_unique. rewrite fmap_app. apply NoDup_app. split; [done|].
  split; [|apply NoDup_singleton].
  intros k Hk ->%list_elem_of_singleton. rewrite Hid in Hk.
  now apply next_id_fresh in Hk.
Qed.

Lemma reschedule_keeps_ids_unique s id date time :
  ids_unique (appointments s) ->
  ids_unique (appointments (reschedule_appointment s id date time).2).
Proof.
  intros Hids. unfold reschedule_appointment.
  destruct (head (filter _ (appointments s))) as [appointment|]; [|done].
  repeat case_decide; try done.
  destruct (filter _ (existing_booking _ _ _ _)) as [|held others]; [|done].
  cbn [snd appointments with_appointments]. unfold ids_unique. now rewrite move_ids.
Qed.

Lemma reschedule_keeps_slots_unique s id date time :
  ids_unique (appointments s) -> slots_unique (appointments s) ->
  slots_unique (appointments (reschedule_appointment s id date time).2).
Proof.
  intros Hids Hslots. unfold reschedule_appointment.
  destruct (head (filter _ (appointments s))) as [appointment|] eqn:Hfirst; [|done].
  repeat case_decide; try done.
  destruct (filter _ (existing_booking _ _ _ _)) as [|held others] eqn:Hfree; [|done].
  cbn [snd appointments with_appointments].
  apply head_Some_elem_of, list_elem_of_filter in Hfirst as [Hid Hin].
  apply (moved_slots_unique id date time (service_center appointment)); [done..| |].
  - intros a Ha Haid. f_equal. apply (same_id_same_row (appointments s)); auto.
    congruence.
  - intros a Ha Haid Hact Hslot.
    apply (filter_empty_not _ _ a Hfree); [|done].
    apply list_elem_of_filter. split; [|done].
    injection Hslot as -> -> ->. done.
Qed.

(** C3, amended.  A booking keeps the confirmed and pending appointments
    in distinct slots, whatever else the table holds.  A rescheduling
    keeps them so on a table whose identifiers are unique, and both tools
    keep the identifiers unique.  A booking request for a registered
    vehicle whose contact lookup and center search succeed, for a slot
    that a confirmed or pending appointment of that center holds, is
    answered on every table with the error of the taken slot, whose text
    contains [already booked], and changes no file. *)
Theorem bookings_keep_slots_unique (s : store) :
  (forall registration center date time service phone email notes,
      slots_unique (appointments s) ->
      slots_unique
        (appointments
           (book_service_appointment int_of_str str_contains now_text
              EMAIL_AVAILABLE send_email s registration center date time
              service phone email notes).2))
  /\ (forall id date time,
        ids_unique (appointments s) -> slots_unique (appointments s) ->
        slots_unique (appointments (reschedule_appointment s id date time).2))
  /\ (ids_unique (appointments s) ->
      (forall registration center date time service phone email notes,
          ids_unique
            (appointments
               (book_service_appointment int_of_str str_contains now_text
                  EMAIL_AVAILABLE send_email s registration center date time
                  service phone email notes).2))
      /\ (forall id date time,
            ids_unique (appointments (reschedule_appointment s id date time).2)))
  /\ (forall registration center date time service phone email notes
             vehicle_rows vehicle_info contact center_info held,
        vehicles s = Rows vehicle_rows ->
        head (filter (fun v => Appointments.registration v = registration) vehicle_rows)
        = Some vehicle_info ->
        detect_contact int_of_str s phone email = Ok contact ->
        find_center str_contains s center = Ok (Some center_info) ->
        held ∈ appointments s ->
        status held = "confirmed" \/ status held = "pending" ->
        (service_center held, appointment_date held, appointment_time held)
        = (center_name center_info, date, time) ->
        book_service_appointment int_of_str str_contains now_text EMAIL_AVAILABLE
          send_email s registration center date time service phone email notes
        = (BookingError ("Time slot " +:+ time +:+ " on " +:+ date +:+ " is already booked"), s)
        /\ contains "already booked"
             ("Time slot " +:+ time +:+ " on " +:+ date +:+ " is already booked") = true).
Proof.
  split; [|split; [|split]].
  - intros. now apply book_keeps_slots_unique.
  - intros. now apply reschedule_keeps_slots_unique.
  - intros Hids. split; intros.
    + now apply book_keeps_ids_unique.
    + now apply reschedule_keeps_ids_unique.
  - intros registration center date time service phone email notes
           vehicle_rows vehicle_info [phone' email'] center_info held
           Hrows Hvehicle Hcontact Hcenter Hin Hact Hslot.
    split; [|apply slot_taken_text_marker].
    unfold book_service_appointment. rewrite Hrows. cbn [column mbind res_bind].
    rewrite Hvehicle, Hcontact. cbn [mbind res_bind]. rewrite Hcenter.
    cbn [mbind res_bind].
    destruct (existing_booking (appointments s) (center_name center_info) date time)
      as [|first others] eqn:Hfree; [|reflexivity].
    exfalso. apply (filter_empty_not _ _ held Hfree Hin).
    injection Hslot as -> -> ->. done.
Qed.

End ToolFacts.

(** *** Two tables on which the claim as stated fails *)

(** The search of a center by a name without special characters. *)
Definition plain_search (pattern : string) : res (string -> bool) :=
  Ok (fun name => contains (lower pattern) (lower name)).

Definition no_mail (_ _ _ : string) : res Notification.email_result :=
  Raise (Exception "TypeError('unexpected keyword argument')" "unexpected keyword argument").

Definition no_int (_ : string) : res Z :=
  Raise (Exception "ValueError('invalid literal for int()')" "invalid literal for int()").

Definition visit (id : Z) (time status : string) : appointment :=
  Appointment id "MH02XX1234" "Center A" "15/03/2025" time "warranty_inspection"
    status "Customer" (Some "9800000000") (Some "asha@example.com") EmptyString
    "01/03/2025 09:30:00".

Definition garage (rows : list appointment) : store :=
  Store rows
    (Rows [Vehicle "MH02XX1234" "Swift" (Some "101")])
    (Rows [Center "Center A" "Pune" "12 Main Road" "020-5550100"])
    (Rows [User 101 "asha@example.com" "9800000000"])
    (Some "101").

(** Two confirmed appointments in different slots that share an
    identifier, which no sequence of bookings produces. *)
Definition twins : list appointment :=
  [visit 1 "10:00 AM" "confirmed"; visit 1 "11:00 AM" "confirmed"].

(** One confirmed appointment at 10:00 AM. *)
Definition one_visit : list appointment := [visit 1 "10:00 AM" "confirmed"].

Lemma slots_unique_decide rows :
  bool_decide (NoDup (slot <$> filter active rows)) = true -> slots_unique rows.
Proof. apply bool_decide_eq_true_1. Qed.

(** C3, as stated, fails on two counts.  Rescheduling the identifier that
    two appointments of [twins] share moves both into one slot, although
    their slots were distinct before.  And a request for the slot held in
    [one_visit] by a vehicle that is not on file is answered with the
    error about the vehicle, which does not contain [already booked]. *)
Lemma slots_not_kept_as_stated :
  (slots_unique twins
   /\ ~ slots_unique
        (appointments (reschedule_appointment (garage twins) 1 "16/03/2025" "02:00 PM").2))
  /\ (slot (visit 1 "10:00 AM" "confirmed") = ("Center A", "15/03/2025", "10:00 AM")
      /\ book_service_appointment no_int plain_search "01/03/2025 10:00:00" true no_mail
           (garage one_visit) "GJ01ZZ0000" "Center A" "15/03/2025" "10:00 AM"
           "warranty_inspection" (Some "9811111111") (Some "ravi@example.com") EmptyString
         = (BookingError "Vehicle GJ01ZZ0000 not found", garage one_visit)
      /\ contains "already booked" "Vehicle GJ01ZZ0000 not found" = false).
Proof.
  split; [split|].
  - apply slots_unique_decide. vm_compute. reflexivity.
  - intros H. unfold slots_unique in H.
    apply (bool_decide_eq_true_2 _) in H. vm_compute in H. discriminate H.
  - repeat split; vm_compute; reflexivity.
Qed.

Lemma bookings_keep_slots_unique_witness :
  book_service_appointment no_int plain_search "01/03/2025 10:00:00" true no_mail
    (garage one_visit) "MH02XX1234" "center a" "15/03/2025" "10:00 AM"
    "warranty_inspection" (Some "9800000000") (Some "asha@example.com") EmptyString
  = (BookingError "Time slot 10:00 AM on 15/03/2025 is already booked", garage one_visit)
  /\ slots_unique
       (appointments
          (book_service_appointment no_int plain_search "01/03/2025 10:00:00" true no_mail
             (garage one_visit) "MH02XX1234" "Center A" "15/03/2025" "11:00 AM"
             "warranty_inspection" (Some "9800000000") (Some "asha@example.com")
             EmptyString).2)
  /\ slots_unique
       (appointments (reschedule_appointment (garage one_visit) 1 "16/03/2025" "02:00 PM").2).
Proof.
  assert (ids_unique (appointments (garage one_visit))) as Hids.
  { unfold ids_unique. apply (bool_decide_eq_true_1 _). vm_compute. reflexivity. }
  assert (slots_unique (appointments (garage one_visit))) as Hslots.
  { apply slots_unique_decide. vm_compute. reflexivity. }
  destruct (bookings_keep_slots_unique no_int plain_search "01/03/2025 10:00:00" true
              no_mail (garage one_visit)) as (Hbook & Hmove & _ & Hheld).
  split; [|split].
  - refine (proj1 (Hheld "MH02XX1234" "center a" "15/03/2025" "10:00 AM"
                     "warranty_inspection" (Some "9800000000") (Some "asha@example.com")
                     EmptyString [Vehicle "MH02XX1234" "Swift" (Some "101")]
                     (Vehicle "MH02XX1234" "Swift" (Some "101"))
                     (Some "9800000000", Some "asha@example.com")
                     (Center "Center A" "Pune" "12 Main Road" "020-5550100")
                     (visit 1 "10:00 AM" "confirmed")
                     eq_refl _ _ _ _ _ _)).
    + vm_compute. reflexivity.
    + vm_compute. reflexivity.
    + vm_compute. reflexivity.
    + apply list_elem_of_singleton. reflexivity.
    + left. reflexivity.
    + reflexivity.
  - apply (Hbook "MH02XX1234" "Center A" "15/03/2025" "11:00 AM" "warranty_inspection"
             (Some "9800000000") (Some "asha@example.com") EmptyString Hslots).
  - apply (Hmove 1 "16/03/2025" "02:00 PM" Hids Hslots).
Defined.

(** *** Cancelling, and the slots on offer *)

(** [.loc[appointment_id == id, 'status'] = 'cancelled'] *)
Definition set_cancelled (id : Z) (a : appointment) : appointment :=
  if decide (appointment_id a = id) then
    Appointment (appointment_id a) (vehicle_registration a) (service_center a)
      (appointment_date a) (appointment_time a) (service_type a) "cancelled"
      (customer_name a) (customer_phone a) (customer_email a) (notes a) (created_at a)
  else a.

(** The response of a cancellation. *)
Record cancellation := Cancellation {
  cancelled_id : Z;
  cancelled_confirmation_number : string;
  cancelled_vehicle_registration : string;
  cancelled_date : string;
  cancelled_time : string;
  cancelled_center : string;
  cancellation_reason : string
}.

Inductive cancel_result :=
| CancelError (error : string)
| Cancelled (response : cancellation).

(** [cancel_appointment(appointment_id, cancellation_reason)] *)
Definition cancel_appointment (s : store) (id : Z) (cancellation_reason : string) :
    cancel_result * store :=
  match head (filter (fun a => appointment_id a = id) (appointments s)) with
  | None => (CancelError ("Appointment ID " +:+ str_of_Z id +:+ " not found"), s)
  | Some appointment =>
      if decide (status appointment = "cancelled") then
        (CancelError "Appointment is already cancelled", s)
      else if decide (status appointment = "completed") then
        (CancelError "Cannot cancel a completed appointment", s)
      else
        (Cancelled
           (Cancellation id ("MSAP" +:+ six_digits id)
              (vehicle_registration appointment) (appointment_date appointment)
              (appointment_time appointment) (service_center appointment)
              cancellation_reason),
         with_appointments s (set_cancelled id <$> appointments s))
  end.

(** The daily grid of [check_service_center_availability]. *)
Definition all_slots : list string :=
  [ "09:00 AM"; "10:00 AM"; "11:00 AM"; "12:00 PM";
    "02:00 PM"; "03:00 PM"; "04:00 PM"; "05:00 PM" ].

(** [strftime('%A')]: ordinal 1 is a Monday. *)
Definition day_name (ordinal : Z) : string :=
  nth (Z.to_nat ((ordinal + 6) mod 7))
      ["Monday"; "Tuesday"; "Wednesday"; "Thursday"; "Friday"; "Saturday"; "Sunday"]
      EmptyString.

(** The dict of [check_service_center_availability]. *)
Record availability := Availability {
  offered_center : string;
  offered_city : string;
  offered_address : string;
  offered_phone : string;
  offered_date : string;
  day_of_week : string;
  available_slots : list string;
  total_available : nat;
  booked_slots : nat;
  offered_service_type : string
}.

Inductive availability_result :=
| AvailabilityError (error : string)
| Available (offer : availability).

Section Availability.

Variable str_contains : string -> res (string -> bool).

(** [check_service_center_availability] at the time [now]. *)
Definition check_service_center_availability (now : Dates.datetime) (s : store)
    (service_center_name preferred_date service_type : string) : availability_result :=
  try_except
    (found ← find_center str_contains s service_center_name;
     match found with
     | None =>
         Ok (AvailabilityError ("Service center '" +:+ service_center_name
                                +:+ "' not found"))
     | Some center_info =>
         match Dates.strptime preferred_date with
         | Raise _ => Ok (AvailabilityError "Invalid date format. Use dd/mm/YYYY")
         | Ok check_date =>
             if Dates.ordinal check_date <? Dates.ordinal now then
               Ok (AvailabilityError "Cannot book appointments for past dates")
             else
               let existing_appointments :=
                 filter (fun a => service_center a = center_name center_info
                                  /\ appointment_date a = preferred_date /\ active a)
                        (appointments s) in
               let booked := appointment_time <$> existing_appointments in
               let available := filter (fun slot => slot ∉ booked) all_slots in
               Ok (Available
                     (Availability (center_name center_info) (city center_info)
                        (address center_info) (phone center_info) preferred_date
                        (day_name (Dates.ordinal check_date)) available
                        (length available) (length booked) service_type))
         end
     end)
    (fun e => AvailabilityError ("Error checking availability: " +:+ exn_str e)).

End Availability.

Lemma NoDup_fmap_same {A B : Type} (f : A -> B) (l : list A) x y :
  NoDup (f <$> l) -> x ∈ l -> y ∈ l -> f x = f y -> x = y.
Proof.
  induction l as [|r l IH]; [intros _ []%elem_of_nil|].
  rewrite fmap_cons, NoDup_cons. intros [Hr Hnd] Hx Hy Hxy.
  apply elem_of_cons in Hx as [->|Hx]; apply elem_of_cons in Hy as [->|Hy]; auto.
  - exfalso. apply Hr. rewrite Hxy. now apply list_elem_of_fmap_2.
  - exfalso. apply Hr. rewrite <- Hxy. now apply list_elem_of_fmap_2.
Qed.

Lemma same_slot_same_row (rows : list appointment) a b :
  slots_unique rows -> a ∈ rows -> b ∈ rows -> active a -> active b ->
  slot a = slot b -> a = b.
Proof.
  intros Hu Ha Hb Hact Hbct. apply (NoDup_fmap_same slot (filter active rows)); [done|..];
    now apply list_elem_of_filter.
Qed.

Lemma with_appointments_same s : with_appointments s (appointments s) = s.
Proof. now destruct s. Qed.

Lemma set_cancelled_id id a : appointment_id (set_cancelled id a) = appointment_id a.
Proof. unfold set_cancelled. now case_decide. Qed.

Lemma set_cancelled_other id a : appointment_id a <> id -> set_cancelled id a = a.
Proof. intros H. unfold set_cancelled. now rewrite decide_False. Qed.

Lemma set_cancelled_status id a :
  appointment_id a = id -> status (set_cancelled id a) = "cancelled".
Proof. intros H. unfold set_cancelled. now rewrite decide_True. Qed.

Lemma set_cancelled_active id a :
  active (set_cancelled id a) <-> appointment_id a <> id /\ active a.
Proof.
  unfold set_cancelled, active. case_decide; cbn; [|tauto].
  split; [intros [H'|H']; discriminate H'|tauto].
Qed.

Lemma first_with_id_cancelled id (rows : list appointment) :
  head (filter (fun a => appointment_id a = id) (set_cancelled id <$> rows))
  = set_cancelled id <$> head (filter (fun a => appointment_id a = id) rows).
Proof.
  induction rows as [|a rows IH]; [done|].
  rewrite fmap_cons, !filter_cons, set_cancelled_id.
  destruct (decide (appointment_id a = id)); [done|exact IH].
Qed.

Lemma active_after_cancel id (rows : list appointment) b :
  b ∈ filter active (set_cancelled id <$> rows)
  <-> b ∈ filter active rows /\ appointment_id b <> id.
Proof.
  rewrite !list_elem_of_filter, list_elem_of_fmap. split.
  - intros [Hact (a & -> & Ha)]. apply set_cancelled_active in Hact as [Hid Hact].
    rewrite (set_cancelled_other _ _ Hid). done.
  - intros [[Hact Hb] Hid]. split; [done|].
    exists b. now rewrite (set_cancelled_other _ _ Hid).
Qed.

(** X1.  A cancellation keeps the number of rows and their identifiers,
    and the slots of the confirmed and pending appointments stay
    distinct. *)
Theorem cancel_keeps_unique (s : store) (id : Z) (reason : string) :
  let s' := (cancel_appointment s id reason).2 in
  (appointment_id <$> appointments s' = appointment_id <$> appointments s)
  /\ (slots_unique (appointments s) -> slots_unique (appointments s')).
Proof.
  cbn zeta. unfold cancel_appointment.
  destruct (head (filter _ (appointments s))) as [a|]; [|done].
  repeat case_decide; try done. cbn [snd appointments with_appointments]. split.
  - rewrite <- list_fmap_compose. apply list_fmap_ext. intros _ b _. apply set_cancelled_id.
  - generalize (appointments s). intros rows.
    induction rows as [|b rows IH]; [done|].
    intros [Hrows Hb]%slots_unique_cons. rewrite fmap_cons.
    apply slots_unique_cons. split; [now apply IH|].
    intros [Hid Hact]%set_cancelled_active. rewrite (set_cancelled_other _ _ Hid).
    intros (c & Heq & Hc)%list_elem_of_fmap. apply active_after_cancel in Hc as [Hc _].
    apply Hb; [done|]. rewrite Heq. now apply list_elem_of_fmap_2.
Qed.

(** X2.  Once an appointment is cancelled, a second cancellation and a
    rescheduling of it are refused, and neither changes the table. *)
Theorem cancelled_stays_cancelled (s : store) (id : Z) (reason : string)
    (response : cancellation) (s' : store) :
  cancel_appointment s id reason = (Cancelled response, s') ->
  (forall reason',
      cancel_appointment s' id reason' = (CancelError "Appointment is already cancelled", s'))
  /\ (forall date time,
        reschedule_appointment s' id date time
        = (RescheduleError "Cannot reschedule a cancelled appointment", s')).
Proof.
  unfold cancel_appointment.
  destruct (head (filter _ (appointments s))) as [a|] eqn:Ha; [|done].
  repeat case_decide; try done. intros [= _ <-].
  assert (head (filter (fun b => appointment_id b = id)
                       (appointments (with_appointments s (set_cancelled id <$> appointments s))))
          = Some (set_cancelled id a)) as Hfirst.
  { cbn [appointments with_appointments]. now rewrite first_with_id_cancelled, Ha. }
  assert (status (set_cancelled id a) = "cancelled") as Hst.
  { apply set_cancelled_status. apply head_Some_elem_of, list_elem_of_filter in Ha. apply Ha. }
  split.
  - intros reason'. rewrite Hfirst. now rewrite decide_True.
  - intros date time. unfold reschedule_appointment. rewrite Hfirst.
    now rewrite decide_True.
Qed.

Lemma cancelled_stays_cancelled_witness :
  (cancel_appointment
     (cancel_appointment (garage one_visit) 1 "change of plans").2 1 "again").1
  = CancelError "Appointment is already cancelled".
Proof.
  destruct (cancel_appointment (garage one_visit) 1 "change of plans")
    as [r s'] eqn:Hc.
  destruct r as [e|response]; [vm_compute in Hc; discriminate Hc|].
  cbn [snd].
  now rewrite (proj1 (cancelled_stays_cancelled (garage one_visit) 1 "change of plans"
                        response s' Hc) "again").
Defined.

Section Composition.

Variable int_of_str : string -> res Z.
Variable str_contains : string -> res (string -> bool).
Variable now_text : string.
Variable EMAIL_AVAILABLE : bool.
Variable send_email : string -> string -> string -> res Notification.email_result.

(** A booking goes through when the vehicle is on file, the contact
    lookup and the center search succeed and no confirmed or pending
    appointment holds the slot. *)
Lemma book_free_slot s registration center date time service phone email notes
    vehicle_rows vehicle_info contact center_info :
  vehicles s = Rows vehicle_rows ->
  head (filter (fun v => Appointments.registration v = registration) vehicle_rows)
  = Some vehicle_info ->
  detect_contact int_of_str s phone email = Ok contact ->
  find_center str_contains s center = Ok (Some center_info) ->
  existing_booking (appointments s) (center_name center_info) date time = [] ->
  exists response a,
    book_service_appointment int_of_str str_contains now_text EMAIL_AVAILABLE
      send_email s registration center date time service phone email notes
    = (Booked response, with_appointments s (appointments s ++ [a]))
    /\ slot a = (center_name center_info, date, time)
    /\ status a = "confirmed"
    /\ appointment_id a = next_id (appointment_id <$> appointments s)
    /\ booking_appointment_id response = appointment_id a.
Proof.
  intros Hrows Hvehicle Hcontact Hcenter Hfree. destruct contact as [phone' email'].
  unfold book_service_appointment. rewrite Hrows. cbn [column mbind res_bind].
  rewrite Hvehicle, Hcontact. cbn [mbind res_bind]. rewrite Hcenter.
  cbn [mbind res_bind]. rewrite Hfree. cbn [try_except].
  eexists _, _. split; [reflexivity|]. cbn. done.
Qed.

(** X3.  Cancelling a confirmed or pending appointment frees its slot: on
    a table with distinct slots, a booking for the slot of the cancelled
    appointment by a vehicle on file then goes through. *)
Theorem cancel_frees_slot (s : store) (id : Z) (reason : string)
    (response : cancellation) (s' : store) (a : appointment)
    (registration name service : string) (phone email : option string)
    (notes : string) (vehicle_rows : list vehicle) (vehicle_info : vehicle)
    (contact : option string * option string) (center_info : center) :
  slots_unique (appointments s) ->
  cancel_appointment s id reason = (Cancelled response, s') ->
  a ∈ appointments s -> appointment_id a = id -> active a ->
  vehicles s = Rows vehicle_rows ->
  head (filter (fun v => Appointments.registration v = registration) vehicle_rows)
  = Some vehicle_info ->
  detect_contact int_of_str s phone email = Ok contact ->
  find_center str_contains s name = Ok (Some center_info) ->
  center_name center_info = service_center a ->
  exists booked new,
    book_service_appointment int_of_str str_contains now_text EMAIL_AVAILABLE
      send_email s' registration name (appointment_date a) (appointment_time a)
      service phone email notes
    = (Booked booked, with_appointments s' (appointments s' ++ [new]))
    /\ slot new = slot a.
Proof.
  intros Hslots Hcancel Ha Hid Hact Hrows Hvehicle Hcontact Hcenter Hname.
  assert (s' = with_appointments s (set_cancelled id <$> appointments s)) as ->.
  { revert Hcancel. unfold cancel_appointment.
    destruct (head (filter _ (appointments s))); [|done].
    repeat case_decide; try done. now intros [= _ <-]. }
  destruct (book_free_slot
              (with_appointments s (set_cancelled id <$> appointments s))
              registration name (appointment_date a) (appointment_time a)
              service phone email notes vehicle_rows vehicle_info contact center_info)
    as (booked & new & Hbook & Hslot & _); try done.
  - cbn [appointments with_appointments]. apply filter_all_not.
    intros b (c & -> & Hc)%list_elem_of_fmap (Hsc & Hd & Ht & Hbact).
    apply set_cancelled_active in Hbact as [Hcid Hcact].
    rewrite (set_cancelled_other _ _ Hcid) in Hsc, Hd, Ht.
    apply Hcid. rewrite <- Hid. f_equal.
    apply (same_slot_same_row (appointments s)); try done.
    unfold slot. now rewrite Hsc, Hd, Ht, Hname.
  - exists booked, new. split; [exact Hbook|].
    rewrite Hslot. unfold slot. now rewrite Hname.
Qed.

(** X4.  Rescheduling a confirmed or pending appointment to the date and
    time it already has is accepted, because the conflict test leaves the
    appointment itself out, and changes nothing; identifiers and slots
    are unique in the table. *)
Theorem reschedule_to_own_slot (s : store) (a : appointment) :
  ids_unique (appointments s) -> slots_unique (appointments s) ->
  a ∈ appointments s -> active a ->
  reschedule_appointment s (appointment_id a) (appointment_date a) (appointment_time a)
  = (Rescheduled
       (Rescheduling (appointment_id a) (service_center a)
          (appointment_date a) (appointment_time a)
          (appointment_date a) (appointment_time a)),
     s).
Proof.
  intros Hids Hslots Ha Hact. unfold reschedule_appointment.
  destruct (head (filter (fun b => appointment_id b = appointment_id a) (appointments s)))
    as [a'|] eqn:Hfirst.
  2: { apply head_None in Hfirst.
       assert (a ∈ filter (fun b => appointment_id b = appointment_id a) (appointments s))
         as Hin by now apply list_elem_of_filter.
       rewrite Hfirst in Hin. now apply elem_of_nil in Hin. }
  apply head_Some_elem_of, list_elem_of_filter in Hfirst as [Hid' Hin'].
  assert (a' = a) as -> by now apply (same_id_same_row (appointments s)).
  rewrite decide_False by (destruct Hact as [H'|H']; rewrite H'; discriminate).
  rewrite decide_False by (destruct Hact as [H'|H']; rewrite H'; discriminate).
  rewrite filter_all_not.
  2: { intros b [(Hsc & Hd & Ht & Hbact) Hb]%list_elem_of_filter Hne. apply Hne. f_equal.
       apply (same_slot_same_row (appointments s)); try done.
       unfold slot. now rewrite Hsc, Hd, Ht. }
  assert (move (appointment_id a) (appointment_date a) (appointment_time a)
            <$> appointments s = appointments s) as ->.
  { rewrite <- (list_fmap_id (appointments s)) at 2.
    apply list_fmap_ext. intros _ b Hb%list_elem_of_lookup_2. unfold move.
    case_decide as Hbid; [|done].
    assert (b = a) as -> by now apply (same_id_same_row (appointments s)).
    now destruct a. }
  now rewrite with_appointments_same.
Qed.

(** X5.  A booking that goes through appends exactly one row, confirmed,
    in the slot asked for at the center found; its identifier is 1 on an
    empty table and above every identifier of the table otherwise. *)
Theorem booked_row_is_fresh (s : store)
    (registration center date time service : string) (phone email : option string)
    (notes : string) (response : booking) (s' : store) :
  book_service_appointment int_of_str str_contains now_text EMAIL_AVAILABLE
    send_email s registration center date time service phone email notes
  = (Booked response, s') ->
  exists a,
    appointments s' = appointments s ++ [a]
    /\ appointment_id a = booking_appointment_id response
    /\ status a = "confirmed"
    /\ appointment_date a = date /\ appointment_time a = time
    /\ service_center a = booking_service_center response
    /\ (appointments s = [] -> appointment_id a = 1)
    /\ (forall b, b ∈ appointments s -> appointment_id b < appointment_id a).
Proof.
  unfold book_service_appointment.
  destruct (column "registration" (vehicles s)) as [vehicle_rows|e]; [|cbn; congruence].
  cbn [mbind res_bind].
  destruct (head (filter _ vehicle_rows)) as [vehicle_info|]; [|cbn; congruence].
  destruct (detect_contact int_of_str s phone email) as [[phone' email']|e];
    [|cbn; congruence].
  cbn [mbind res_bind].
  destruct (find_center str_contains s center) as [[center_info|]|e];
    try (cbn; congruence).
  cbn [mbind res_bind].
  destruct (existing_booking (appointments s) (center_name center_info) date time)
    as [|held others]; [|cbn; congruence].
  cbn [try_except]. intros [= <- <-]. eexists. split; [reflexivity|].
  cbn. repeat split; try done.
  - now intros ->.
  - intros b Hb. destruct (appointments s) as [|r rows] eqn:Hrows.
    + now apply elem_of_nil in Hb.
    + cbn. assert (appointment_id b <= fold_left Z.max (appointment_id <$> rows)
                                          (appointment_id r)); [|lia].
      apply fold_max_bound. apply elem_of_cons in Hb as [->|Hb]; [left; lia|right].
      now apply list_elem_of_fmap_2.
Qed.

End Composition.

Section Offer.

Variable int_of_str : string -> res Z.
Variable str_contains : string -> res (string -> bool).
Variable now_text : string.
Variable EMAIL_AVAILABLE : bool.
Variable send_email : string -> string -> string -> res Notification.email_result.

Lemma booked_time_spec (rows : list appointment) center date time :
  time ∈ appointment_time
         <$> filter (fun a => service_center a = center /\ appointment_date a = date
                              /\ active a) rows
  <-> existing_booking rows center date time <> [].
Proof.
  unfold existing_booking. split.
  - intros (a & -> & [(Hc & Hd & Hact) Ha]%list_elem_of_filter)%list_elem_of_fmap Hnil.
    apply (filter_empty_not _ _ a Hnil Ha). done.
  - intros Hne.
    destruct (filter _ rows) as [|a k] eqn:Hf; [done|].
    assert (a ∈ filter (fun a => service_center a = center /\ appointment_date a = date
                                 /\ appointment_time a = time /\ active a) rows)
      as [(Hc & Hd & Ht & Hact) Ha]%list_elem_of_filter by (rewrite Hf; now left).
    apply list_elem_of_fmap. exists a. split; [done|]. now apply list_elem_of_filter.
Qed.

(** X6.  What [check_service_center_availability] offers is what
    [book_service_appointment] accepts: for a vehicle on file whose
    contact lookup succeeds, and the same center name and date, a time of
    the grid is listed as available exactly when a booking for it goes
    through, and is missing from the list exactly when the booking is
    refused as already booked.  The listed slots are slots of the grid
    and [total_available] is their number. *)
Theorem available_slots_can_be_booked (now : Dates.datetime) (s : store)
    (name date service_type : string) (offer : availability)
    (registration service : string) (phone email : option string) (notes : string)
    (vehicle_rows : list vehicle) (vehicle_info : vehicle)
    (contact : option string * option string) (time : string) :
  check_service_center_availability str_contains now s name date service_type
  = Available offer ->
  vehicles s = Rows vehicle_rows ->
  head (filter (fun v => Appointments.registration v = registration) vehicle_rows)
  = Some vehicle_info ->
  detect_contact int_of_str s phone email = Ok contact ->
  time ∈ all_slots ->
  (time ∈ available_slots offer
   <-> exists response s',
         book_service_appointment int_of_str str_contains now_text EMAIL_AVAILABLE
           send_email s registration name date time service phone email notes
         = (Booked response, s'))
  /\ (time ∉ available_slots offer
      <-> book_service_appointment int_of_str str_contains now_text EMAIL_AVAILABLE
            send_email s registration name date time service phone email notes
          = (BookingError ("Time slot " +:+ time +:+ " on " +:+ date +:+ " is already booked"), s))
  /\ available_slots offer ⊆ all_slots
  /\ total_available offer = length (available_slots offer).
Proof.
  intros Hcheck Hrows Hvehicle Hcontact Hgrid.
  unfold check_service_center_availability in Hcheck.
  destruct (find_center str_contains s name) as [[center_info|]|e] eqn:Hcenter;
    try (cbn in Hcheck; congruence).
  cbn [mbind res_bind] in Hcheck.
  destruct (Dates.strptime date) as [check_date|e]; [|cbn in Hcheck; congruence].
  destruct (Dates.ordinal check_date <? Dates.ordinal now);
    [cbn in Hcheck; congruence|].
  cbn [try_except] in Hcheck. injection Hcheck as <-.
  cbn [available_slots total_available].
  assert (forall t, t ∈ filter (fun slot => slot ∉ appointment_time
            <$> filter (fun a => service_center a = center_name center_info
                                 /\ appointment_date a = date /\ active a)
                       (appointments s)) all_slots
          <-> t ∈ all_slots
              /\ existing_booking (appointments s) (center_name center_info) date t = [])
    as Hlisted.
  { intros t. rewrite list_elem_of_filter, booked_time_spec.
    destruct (existing_booking (appointments s) (center_name center_info) date t);
      intuition congruence. }
  destruct contact as [phone' email'].
  assert (book_service_appointment int_of_str str_contains now_text EMAIL_AVAILABLE
            send_email s registration name date time service phone email notes
          = match existing_booking (appointments s) (center_name center_info) date time with
            | [] => book_service_appointment int_of_str str_contains now_text
                      EMAIL_AVAILABLE send_email s registration name date time service
                      phone email notes
            | _ :: _ => (BookingError (slot_taken_text time date), s)
            end) as Hbook.
  { destruct (existing_booking (appointments s) (center_name center_info) date time)
      as [|held others] eqn:Hfree; [reflexivity|].
    unfold book_service_appointment. rewrite Hrows. cbn [column mbind res_bind].
    rewrite Hvehicle, Hcontact. cbn [mbind res_bind]. rewrite Hcenter.
    cbn [mbind res_bind]. now rewrite Hfree. }
  split; [|split; [|split]].
  - rewrite Hlisted. split.
    + intros [_ Hfree].
      destruct (book_free_slot int_of_str str_contains now_text EMAIL_AVAILABLE send_email
                  s registration name date time service phone email notes
                  vehicle_rows vehicle_info (phone', email') center_info)
        as (response & a & Hb & _); try done.
      eauto.
    + intros (response & s' & Hb). split; [done|].
      rewrite Hb in Hbook.
      destruct (existing_booking (appointments s) (center_name center_info) date time);
        [done|discriminate Hbook].
  - rewrite Hlisted. split.
    + intros Hnot. rewrite Hbook.
      destruct (existing_booking (appointments s) (center_name center_info) date time);
        [now destruct Hnot|reflexivity].
    + intros Hb [_ Hfree].
      destruct (book_free_slot int_of_str str_contains now_text EMAIL_AVAILABLE send_email
                  s registration name date time service phone email notes
                  vehicle_rows vehicle_info (phone', email') center_info)
        as (response & a & Hb' & _); try done.
      rewrite Hb in Hb'. discriminate Hb'.
  - intros t [_ Ht]%list_elem_of_filter. exact Ht.
  - reflexivity.
Qed.

End Offer.

(** A day with the 10:00 AM slot of Center A taken. *)
Definition spring_day : Dates.datetime := Dates.DateTime (Dates.ymd2ord 2025 3 1) 0.

Example availability_on_a_taken_day :
  check_service_center_availability plain_search spring_day (garage one_visit)
    "center a" "15/03/2025" "warranty_service"
  = Available
      (Availability "Center A" "Pune" "12 Main Road" "020-5550100" "15/03/2025" "Saturday"
         [ "09:00 AM"; "11:00 AM"; "12:00 PM"; "02:00 PM"; "03:00 PM"; "04:00 PM";
           "05:00 PM" ] 7 1 "warranty_service").
Proof. vm_compute. reflexivity. Qed.

Lemma available_slots_can_be_booked_witness :
  exists response s',
    book_service_appointment no_int plain_search "01/03/2025 10:00:00" true no_mail
      (garage one_visit) "MH02XX1234" "center a" "15/03/2025" "11:00 AM"
      "warranty_inspection" (Some "9800000000") (Some "asha@example.com") EmptyString
    = (Booked response, s').
Proof.
  refine (proj1 (proj1 (available_slots_can_be_booked no_int plain_search
            "01/03/2025 10:00:00" true no_mail spring_day (garage one_visit)
            "center a" "15/03/2025" "warranty_service" _
            "MH02XX1234" "warranty_inspection" (Some "9800000000")
            (Some "asha@example.com") EmptyString
            [Vehicle "MH02XX1234" "Swift" (Some "101")]
            (Vehicle "MH02XX1234" "Swift" (Some "101"))
            (Some "9800000000", Some "asha@example.com") "11:00 AM"
            availability_on_a_taken_day eq_refl _ _ _)) _).
  - vm_compute. reflexivity.
  - vm_compute. reflexivity.
  - apply (bool_decide_eq_true_1 _). vm_compute. reflexivity.
  - apply (bool_decide_eq_true_1 _). vm_compute. reflexivity.
Defined.

Lemma cancel_frees_slot_witness :
  exists booked new,
    book_service_appointment no_int plain_search "01/03/2025 10:00:00" true no_mail
      (cancel_appointment (garage one_visit) 1 "change of plans").2
      "MH02XX1234" "center a" "15/03/2025" "10:00 AM"
      "warranty_inspection" (Some "9800000000") (Some "asha@example.com") EmptyString
    = (Booked booked,
       with_appointments (cancel_appointment (garage one_visit) 1 "change of plans").2
         (appointments (cancel_appointment (garage one_visit) 1 "change of plans").2
          ++ [new]))
    /\ slot new = ("Center A", "15/03/2025", "10:00 AM").
Proof.
  refine (cancel_frees_slot no_int plain_search "01/03/2025 10:00:00" true no_mail
            (garage one_visit) 1 "change of plans" _ _ (visit 1 "10:00 AM" "confirmed")
            "MH02XX1234" "center a" "warranty_inspection" (Some "9800000000")
            (Some "asha@example.com") EmptyString
            [Vehicle "MH02XX1234" "Swift" (Some "101")]
            (Vehicle "MH02XX1234" "Swift" (Some "101"))
            (Some "9800000000", Some "asha@example.com")
            (Center "Center A" "Pune" "12 Main Road" "020-5550100")
            _ _ _ _ _ _ _ _ _ _).
  - apply slots_unique_decide. vm_compute. reflexivity.
  - vm_compute. reflexivity.
  - apply list_elem_of_singleton. reflexivity.
  - reflexivity.
  - left. reflexivity.
  - reflexivity.
  - vm_compute. reflexivity.
  - vm_compute. reflexivity.
  - vm_compute. reflexivity.
  - reflexivity.
Defined.

Lemma reschedule_to_own_slot_witness :
  reschedule_appointment (garage one_visit) 1 "15/03/2025" "10:00 AM"
  = (Rescheduled (Rescheduling 1 "Center A" "15/03/2025" "10:00 AM" "15/03/2025" "10:00 AM"),
     garage one_visit).
Proof.
  refine (reschedule_to_own_slot (garage one_visit) (visit 1 "10:00 AM" "confirmed")
            _ _ _ _).
  - unfold ids_unique. apply (bool_decide_eq_true_1 _). vm_compute. reflexivity.
  - apply slots_unique_decide. vm_compute. reflexivity.
  - apply list_elem_of_singleton. reflexivity.
  - left. reflexivity.
Defined.

Lemma booked_row_is_fresh_witness :
  exists a,
    appointments
      (book_service_appointment no_int plain_search "01/03/2025 10:00:00" true no_mail
         (garage one_visit) "MH02XX1234" "Center A" "15/03/2025" "11:00 AM"
         "warranty_inspection" (Some "9800000000") (Some "asha@example.com")
         EmptyString).2
    = one_visit ++ [a]
    /\ appointment_id a = 2.
Proof.
  destruct (booked_row_is_fresh no_int plain_search "01/03/2025 10:00:00" true no_mail
              (garage one_visit) "MH02XX1234" "Center A" "15/03/2025" "11:00 AM"
              "warranty_inspection" (Some "9800000000") (Some "asha@example.com")
              EmptyString _ _ eq_refl)
    as (a & Hrows & Hid & _).
  exists a. split; [exact Hrows|]. rewrite Hid. reflexivity.
Defined.

End Appointments.

(** ** CCP claims: [file_ccp_claim] of core.py *)

Module Claims.

Import Dates Warranty.

Record claim := Claim {
  claim_id : Z;
  claim_vehicle_registration : string;
  claim_type : string;
  description : string;
  filing_date : string;
  claim_status : string;
  service_center : string;
  estimated_cost : Z;
  resolution_date : string
}.

(** A row of [user_info], the customers with the identifier of the user. *)
Record customer := Customer {
  email : string;
  name : string
}.

Definition valid_claim_types : list string :=
  ["water_damage"; "fuel_damage"; "rodent_damage"; "insect_damage"].

(** [claim_type.replace('_', ' ').title()] on the valid claim types, the
    only ones on which the source evaluates it. *)
Definition claim_title (claim_type : string) : string :=
  if decide (claim_type = "water_damage") then "Water Damage"
  else if decide (claim_type = "fuel_damage") then "Fuel Damage"
  else if decide (claim_type = "rodent_damage") then "Rodent Damage"
  else if decide (claim_type = "insect_damage") then "Insect Damage"
  else claim_type.

(** [frame.iloc[0]] on a frame without rows. *)
Definition IndexError_iloc : exn :=
  Exception "IndexError('single positional indexer is out-of-bounds')"
            "single positional indexer is out-of-bounds".

(** The response of a claim that is filed, without its constant entries. *)
Record filed := Filed {
  filed_claim_id : Z;
  claim_reference : string;
  filed_vehicle_registration : string;
  filed_model : string;
  filed_claim_type : string;
  filed_filing_date : string;
  filed_service_center : string;
  confirmation_email_sent_to : string;
  email_confirmation : string
}.

Inductive claim_result :=
| ClaimError (error : string)
| ClaimFiled (response : filed).

(** The rows of the warranties that the claim looks for. *)
Definition active_ccp (vehicle_registration : string) (ws : list warranty) : list warranty :=
  filter (fun w => Warranty.vehicle_registration w = vehicle_registration
                   /\ warranty_type w = "ccp" /\ status w = "active") ws.

Section File.

(** The call of the email tool with recipient, subject and notification
    type: the dict it returns, or the exception it raises. *)
Variable send_email : string -> string -> string -> res Notification.email_result.

(** The entry of the response about the confirmation mail. *)
Definition claim_mail (customer_email : option string) (new_claim_id : Z) : string :=
  match customer_email with
  | Some address =>
      if decide (address <> EmptyString) then
        try_except
          (email_result ← send_email address
                            ("Claim Submitted - Reference: CCP"
                             +:+ Appointments.six_digits new_claim_id)
                            "claim_update";
           Ok (if Notification.success email_result
               then "Confirmation email sent to " +:+ address
               else "Claim filed successfully, but email notification could not be sent"))
          (fun email_error => "Claim filed successfully, but email notification failed")
      else "Email not sent (no email address found in your profile)"
  | None => "Email not sent (no email address found in your profile)"
  end.

(** [file_ccp_claim(vehicle_registration, claim_type, description, service_center)]
    at the time [now]: the answer and the claims file afterwards.  [s]
    holds the vehicles and the warranties (a file of warranties exists),
    [centers] the column [center_name] of the service centers, [user_info]
    the rows of the customer who is logged in. *)
Definition file_ccp_claim (now : datetime) (s : store) (claims : list claim)
    (centers : list string) (user_info : list customer)
    (vehicle_registration claim_type description : string)
    (service_center : option string) : claim_result * list claim :=
  try_except
    (rows ← column "registration" (vehicles s);
     match first_with_registration vehicle_registration rows with
     | None =>
         Ok (ClaimError ("Vehicle with registration " +:+ vehicle_registration
                         +:+ " not found."), claims)
     | Some vehicle_info =>
         if negb (has_ccp vehicle_info) then
           Ok (ClaimError
                 "Vehicle does not have an active CCP package. Claims can only be filed with active CCP coverage.",
               claims)
         else if bool_decide (active_ccp vehicle_registration (warranties s) = []) then
           Ok (ClaimError "No active CCP warranty found for this vehicle.", claims)
         else if negb (bool_decide (claim_type ∈ valid_claim_types)) then
           Ok (ClaimError
                 "Invalid claim type. Must be one of: water_damage, fuel_damage, rodent_damage, insect_damage",
               claims)
         else
           center ←
             match service_center with
             | Some chosen =>
                 if decide (chosen <> EmptyString) then Ok chosen
                 else match centers with
                      | first :: _ => Ok first
                      | [] => Raise IndexError_iloc
                      end
             | None =>
                 match centers with
                 | first :: _ => Ok first
                 | [] => Raise IndexError_iloc
                 end
             end;
           let new_claim_id := next_id (claim_id <$> claims) in
           let date := strftime now in
           let new_claim :=
             Claim new_claim_id vehicle_registration claim_type description date
                   "submitted" center 0 EmptyString in
           let customer_email := email <$> head user_info in
           Ok (ClaimFiled
                 (Filed new_claim_id ("CCP" +:+ Appointments.six_digits new_claim_id)
                    vehicle_registration (model vehicle_info) (claim_title claim_type)
                    date center
                    (match customer_email with
                     | Some address =>
                         if decide (address <> EmptyString) then address
                         else "Email not available"
                     | None => "Email not available"
                     end)
                    (claim_mail customer_email new_claim_id)),
               claims ++ [new_claim])
     end)
    (fun e => (ClaimError ("An error occurred while filing the claim: " +:+ exn_str e),
               claims)).

(** A service center is at hand for the claim: one is named, or the file
    of the centers has a row. *)
Definition center_at_hand (centers : list string) (service_center : option string) : Prop :=
  (exists chosen, service_center = Some chosen /\ chosen <> EmptyString) \/ centers <> [].

(** The center that a claim is filed with. *)
Definition center_of (centers : list string) (service_center : option string) : string :=
  match service_center with
  | Some chosen => if decide (chosen <> EmptyString) then chosen else default EmptyString (head centers)
  | None => default EmptyString (head centers)
  end.

(** X12.  A claim is filed exactly when the first row of the vehicle has
    [has_ccp] set, the vehicle has a CCP warranty with status active, the
    claim type is one of the four valid ones and a service center is named
    or on file.  It then appends one row to the claims, with status
    submitted, cost 0, the date of the day, the center named or else the
    first on file, and an identifier above all those in the file; the
    earlier rows stay as they were.  Any other answer leaves the claims
    unchanged. *)
Theorem claim_filed_iff (now : datetime) (s : store) (claims : list claim)
    (centers : list string) (user_info : list customer)
    (r claim_type description : string) (service_center : option string) :
  let out := file_ccp_claim now s claims centers user_info r claim_type description
               service_center in
  ((exists response, out.1 = ClaimFiled response)
   <-> (exists rows v,
           vehicles s = Rows rows /\ first_with_registration r rows = Some v
           /\ has_ccp v = true)
       /\ active_ccp r (warranties s) <> []
       /\ claim_type ∈ valid_claim_types
       /\ center_at_hand centers service_center)
  /\ (forall response, out.1 = ClaimFiled response ->
        out.2 = claims ++ [Claim (filed_claim_id response) r claim_type description
                             (strftime now) "submitted"
                             (center_of centers service_center) 0 EmptyString]
        /\ (forall c, c ∈ claims -> claim_id c < filed_claim_id response)
        /\ claim_reference response
           = "CCP" +:+ Appointments.six_digits (filed_claim_id response))
  /\ (forall error, out.1 = ClaimError error -> out.2 = claims).
Proof.
  cbn zeta. unfold file_ccp_claim.
  assert (forall error : string,
    ((exists response, (ClaimError error, claims).1 = ClaimFiled response) <-> False)
    /\ (forall response, (ClaimError error, claims).1 = ClaimFiled response -> False)
    /\ (forall error', (ClaimError error, claims).1 = ClaimError error' ->
          (ClaimError error, claims).2 = claims)) as Hrefused.
  { intros error. cbn. split; [|split]; [|discriminate|done].
    split; [intros [response [=]]|done]. }
  assert (forall (error : string) (P : Prop) (Q : filed -> Prop), ~ P ->
    ((exists response, (ClaimError error, claims).1 = ClaimFiled response) <-> P)
    /\ (forall response, (ClaimError error, claims).1 = ClaimFiled response -> Q response)
    /\ (forall error', (ClaimError error, claims).1 = ClaimError error' ->
          (ClaimError error, claims).2 = claims)) as Hno.
  { intros error P Q HP. cbn. split; [|split]; [|discriminate|done].
    split; [intros [response [=]]|done]. }
  destruct (vehicles s) as [|rows] eqn:Hrows.
  { apply Hno. intros ((rows & v & [=] & _) & _). }
  cbn [column mbind res_bind].
  destruct (first_with_registration r rows) as [v|] eqn:Hv.
  2:{ apply Hno. intros ((rows' & v & [= <-] & Hv' & _) & _). congruence. }
  destruct (has_ccp v) eqn:Hccp; cbn [negb].
  2:{ apply Hno. intros ((rows' & v' & [= <-] & Hv' & Hccp') & _). congruence. }
  case_bool_decide as Hactive.
  { apply Hno. intros (_ & Hne & _). done. }
  case_bool_decide as Htype; cbn [negb].
  2:{ apply Hno. intros (_ & _ & Hin & _). done. }
  assert (forall c, c ∈ claims -> claim_id c < next_id (claim_id <$> claims)) as Hfresh.
  { intros c Hc. destruct claims as [|c0 claims']; [now apply elem_of_nil in Hc|].
    cbn. apply Z.lt_succ_r. apply fold_max_bound.
    apply elem_of_cons in Hc as [->|Hc]; [left; lia|right].
    now apply list_elem_of_fmap_2. }
  assert (forall center : string, center = center_of centers service_center ->
            center_at_hand centers service_center ->
    let out := try_except
      (center ← Ok center;
       Ok (ClaimFiled
             (Filed (next_id (claim_id <$> claims))
                ("CCP" +:+ Appointments.six_digits (next_id (claim_id <$> claims)))
                r (model v) (claim_title claim_type) (strftime now) center
                match email <$> head user_info with
                | Some address =>
                    if decide (address <> EmptyString) then address
                    else "Email not available"
                | None => "Email not available"
                end
                (claim_mail (email <$> head user_info) (next_id (claim_id <$> claims)))),
           claims ++ [Claim (next_id (claim_id <$> claims)) r claim_type description
                        (strftime now) "submitted" center 0 EmptyString]))
      (fun e => (ClaimError ("An error occurred while filing the claim: " +:+ exn_str e),
                 claims)) in
    ((exists response, out.1 = ClaimFiled response)
     <-> (exists rows' v', Rows rows = Rows rows'
            /\ first_with_registration r rows' = Some v' /\ has_ccp v' = true)
         /\ active_ccp r (warranties s) <> []
         /\ claim_type ∈ valid_claim_types
         /\ center_at_hand centers service_center)
    /\ (forall response, out.1 = ClaimFiled response ->
          out.2 = claims ++ [Claim (filed_claim_id response) r claim_type description
                               (strftime now) "submitted"
                               (center_of centers service_center) 0 EmptyString]
          /\ (forall c, c ∈ claims -> claim_id c < filed_claim_id response)
          /\ claim_reference response
             = "CCP" +:+ Appointments.six_digits (filed_claim_id response))
    /\ (forall error, out.1 = ClaimError error -> out.2 = claims)) as Hfiled.
  { intros center -> Hhand. cbn. split; [|split].
    - split; [|eauto]. intros _. split; [eauto|done].
    - intros response [= <-]. cbn. done.
    - discriminate. }
  assert (centers = [] -> (forall chosen, service_center = Some chosen -> chosen = EmptyString) ->
          ~ center_at_hand centers service_center) as Hnone.
  { intros -> Hblank [(chosen & Hsome & Hne)|Hne]; [|done]. now apply Hne, Hblank. }
  destruct service_center as [chosen|].
  - destruct (decide (chosen <> EmptyString)) as [Hgiven|Hblank].
    + apply Hfiled.
      * unfold center_of. now rewrite decide_True.
      * left. eauto.
    + destruct centers as [|first centers'].
      * apply Hno. intros (_ & _ & _ & Hhand). revert Hhand. apply Hnone; [done|].
        intros chosen' [= <-]. now destruct (decide (chosen = EmptyString)).
      * apply Hfiled.
        -- unfold center_of. now rewrite decide_False.
        -- now right.
  - destruct centers as [|first centers'].
    + apply Hno. intros (_ & _ & _ & Hhand). revert Hhand. now apply Hnone.
    + apply Hfiled; [done|now right].
Qed.

End File.

Section AfterPurchase.

Variable send_email : string -> string -> string -> res Notification.email_result.

(** X13.  A CCP that is bought but not paid cannot be claimed on: after a
    successful purchase for a vehicle that had no active CCP warranty the
    new warranty counts as active for [is_warranty_active], yet every
    claim for the vehicle is turned down for want of an active CCP
    warranty and leaves the claims unchanged; no tool of the source sets
    the status that a claim asks for. *)
Theorem unpaid_ccp_cannot_claim (s : store)
    (r package_type customer_email : string) (response : receipt) (s' : store) :
  purchase_ccp_package send_email s r package_type customer_email
  = (Purchased response, s') ->
  active_ccp r (warranties s) = [] ->
  is_warranty_active s' (receipt_warranty_id response) = true
  /\ forall now claims centers user_info claim_type description service_center,
      file_ccp_claim send_email now s' claims centers user_info r claim_type description
        service_center
      = (ClaimError "No active CCP warranty found for this vehicle.", claims).
Proof.
  intros Hbuy Hnone.
  destruct (Warranty.purchase_outcome send_email _ _ _ _ _ _ Hbuy)
    as (rows & v & w & Hrows & Hv & Hccp & -> & Hid & Hfresh & Hreg & Htype & Hstatus).
  split.
  - pose proof (first_with_id_fresh (warranties s) w Hfresh) as Hfirst.
    rewrite Hid in Hfirst.
    unfold is_warranty_active. cbn [warranties]. rewrite Hfirst, Hstatus. reflexivity.
  - intros. unfold file_ccp_claim. cbn [vehicles warranties column mbind res_bind].
    rewrite first_with_registration_set, Hv. cbn [fmap option_fmap option_map].
    assert (has_ccp (set_has_ccp r v) = true) as ->.
    { unfold set_has_ccp. rewrite decide_True; [done|].
      now apply first_with_registration_registration in Hv. }
    cbn [negb]. unfold active_ccp in *. rewrite filter_app, Hnone.
    rewrite filter_cons, decide_False by (rewrite Hstatus; intros (_ & _ & [=])).
    reflexivity.
Qed.

End AfterPurchase.

Definition workshop : list string := ["Andheri Service"; "Pune Service"].

Lemma unpaid_ccp_cannot_claim_witness :
  exists response s',
    purchase_ccp_package mail_fails showroom "MH02XX1234" "2year" "asha@example.com"
    = (Purchased response, s')
    /\ is_warranty_active s' (receipt_warranty_id response) = true
    /\ file_ccp_claim mail_fails (midnight (ymd2ord 2025 3 1)) s' [] workshop
         [Customer "asha@example.com" "Asha"] "MH02XX1234" "water_damage"
         "engine flooded" None
       = (ClaimError "No active CCP warranty found for this vehicle.", []).
Proof.
  eexists _, _. split; [vm_compute; reflexivity|].
  destruct (unpaid_ccp_cannot_claim mail_fails showroom "MH02XX1234" "2year"
              "asha@example.com" _ _ ltac:(vm_compute; reflexivity) eq_refl)
    as [Hactive Hclaim].
  split; [exact Hactive|apply Hclaim].
Defined.

End Claims.

(** ** The date calculator: [dates_calculator] of core.py *)

Module DatesCalculator.

Import Dates.

(** *** The calendar: [_ord2ymd] undoes [_ymd2ord] *)

Lemma days_before_year_decomp a b c e :
  0 <= a -> 0 <= b <= 3 -> 0 <= c <= 24 -> 0 <= e <= 3 ->
  days_before_year (400 * a + 100 * b + 4 * c + e + 1)
  = 146097 * a + 36524 * b + 1461 * c + 365 * e.
Proof.
  intros Ha Hb Hc He. unfold days_before_year. cbn zeta.
  replace (400 * a + 100 * b + 4 * c + e + 1 - 1) with (400 * a + 100 * b + 4 * c + e) by lia.
  assert ((400 * a + 100 * b + 4 * c + e) / 4 = 100 * a + 25 * b + c) as ->
    by (symmetry; apply (Z.div_unique _ _ _ e); lia).
  assert ((400 * a + 100 * b + 4 * c + e) / 100 = 4 * a + b) as ->
    by (symmetry; apply (Z.div_unique _ _ _ (4 * c + e)); lia).
  assert ((400 * a + 100 * b + 4 * c + e) / 400 = a) as ->
    by (symmetry; apply (Z.div_unique _ _ _ (100 * b + 4 * c + e)); lia).
  lia.
Qed.

Lemma is_leap_decomp a b c e :
  0 <= a -> 0 <= b <= 3 -> 0 <= c <= 24 -> 0 <= e <= 3 ->
  is_leap (400 * a + 100 * b + 4 * c + e + 1)
  = (e =? 3) && (negb (c =? 24) || (b =? 3)).
Proof.
  intros Ha Hb Hc He. unfold is_leap.
  assert ((400 * a + 100 * b + 4 * c + e + 1) mod 4 = (e + 1) mod 4) as ->.
  { replace (400 * a + 100 * b + 4 * c + e + 1) with ((e + 1) + (100 * a + 25 * b + c) * 4) by lia.
    apply Z.mod_add. lia. }
  assert ((400 * a + 100 * b + 4 * c + e + 1) mod 100 = (4 * c + e + 1) mod 100) as ->.
  { replace (400 * a + 100 * b + 4 * c + e + 1) with ((4 * c + e + 1) + (4 * a + b) * 100) by lia.
    apply Z.mod_add. lia. }
  assert ((400 * a + 100 * b + 4 * c + e + 1) mod 400 = (100 * b + 4 * c + e + 1) mod 400) as ->.
  { replace (400 * a + 100 * b + 4 * c + e + 1) with ((100 * b + 4 * c + e + 1) + a * 400) by lia.
    apply Z.mod_add. lia. }
  assert (e = 0 \/ e = 1 \/ e = 2 \/ e = 3) as [-> | [-> | [-> | -> ]]] by lia; try reflexivity.
  change ((3 + 1) mod 4 =? 0) with true. cbn [andb].
  destruct (Z.eqb_spec c 24) as [->|Hc24]; cbn [negb orb].
  - change ((4 * 24 + 3 + 1) mod 100) with 0. cbn [Z.eqb negb orb].
    replace (100 * b + 4 * 24 + 3 + 1) with (100 * b + 100) by lia.
    assert (b = 0 \/ b = 1 \/ b = 2 \/ b = 3) as [-> | [-> | [-> | -> ]]] by lia; reflexivity.
  - rewrite (Z.mod_small (4 * c + 3 + 1)) by lia.
    destruct (Z.eqb_spec (4 * c + 3 + 1) 0); [lia|]. reflexivity.
Qed.

Lemma days_before_year_mono y1 y2 : y1 <= y2 -> days_before_year y1 <= days_before_year y2.
Proof.
  intros Hle. unfold days_before_year. cbn zeta. Z.div_mod_to_equations. lia.
Qed.

(** The month and the day of the month of day [n] of a year, counted
    from 0: the second half of [_ord2ymd]. *)
Definition month_day (n : Z) (leapyear : bool) : Z * Z :=
  let month := Z.shiftr (n + 50) 5 in
  let preceding :=
    days_before_month_table month + (if (2 <? month) && leapyear then 1 else 0) in
  if n <? preceding then
    let month := month - 1 in
    let preceding :=
      preceding
      - (nth (Z.to_nat month) [0; 31; 28; 31; 30; 31; 30; 31; 31; 30; 31; 30; 31] 0
         + (if (month =? 2) && leapyear then 1 else 0)) in
    (month, n - preceding + 1)
  else (month, n - preceding + 1).

Definition month_day_ok (leapyear : bool) (k : nat) : bool :=
  let n := Z.of_nat k in
  let '(month, day) := month_day n leapyear in
  (1 <=? month) && (month <=? 12) && (1 <=? day)
  && (day <=? (if (month =? 2) && leapyear then 29
               else nth (Z.to_nat month) [0; 31; 28; 31; 30; 31; 30; 31; 31; 30; 31; 30; 31] 0))
  && (days_before_month_table month + (if (2 <? month) && leapyear then 1 else 0) + day
      =? n + 1).

Lemma month_day_checked :
  forallb (month_day_ok true) (seq 0 365) && forallb (month_day_ok false) (seq 0 365) = true.
Proof. vm_compute. reflexivity. Qed.

Lemma month_day_spec (year n : Z) :
  0 <= n < 365 ->
  let '(month, day) := month_day n (is_leap year) in
  1 <= month <= 12 /\ 1 <= day <= days_in_month year month
  /\ days_before_month year month + day = n + 1.
Proof.
  intros Hn.
  assert (month_day_ok (is_leap year) (Z.to_nat n) = true) as Hok.
  { pose proof month_day_checked as Hall. apply andb_true_iff in Hall as [Hleap Hplain].
    assert (Z.to_nat n ∈ seq 0 365) as Hin by (apply elem_of_seq; lia).
    apply list_elem_of_In in Hin.
    destruct (is_leap year); [exact (proj1 (forallb_forall _ _) Hleap _ Hin)|
                              exact (proj1 (forallb_forall _ _) Hplain _ Hin)]. }
  unfold month_day_ok in Hok. cbn zeta in Hok. rewrite Z2Nat.id in Hok by lia.
  destruct (month_day n (is_leap year)) as [month day].
  unfold days_in_month, days_before_month.
  repeat (apply andb_true_iff in Hok as [Hok ?]).
  repeat match goal with
         | H : (_ <=? _) = true |- _ => apply Z.leb_le in H
         | H : (_ =? _) = true |- _ => apply Z.eqb_eq in H
         end.
  lia.
Qed.

Lemma ord2ymd_month_day (ordinal : Z) :
  ord2ymd ordinal
  = let n := ordinal - 1 in
    let n400 := n / 146097 in
    let n := n mod 146097 in
    let n100 := n / 36524 in
    let n := n mod 36524 in
    let n4 := n / 1461 in
    let n := n mod 1461 in
    let n1 := n / 365 in
    let n := n mod 365 in
    let year := n400 * 400 + 1 + n100 * 100 + n4 * 4 + n1 in
    if (n1 =? 4) || (n100 =? 4) then (year - 1, 12, 31)
    else
      let '(month, day) :=
        month_day n ((n1 =? 3) && (negb (n4 =? 24) || (n100 =? 3))) in
      (year, month, day).
Proof.
  unfold ord2ymd, month_day. cbn zeta.
  destruct (_ || _); [reflexivity|].
  destruct (_ <? _); reflexivity.
Qed.

Lemma ord2ymd_spec (o : Z) :
  1 <= o ->
  exists year month day,
    ord2ymd o = (year, month, day)
    /\ 1 <= year /\ 1 <= month <= 12 /\ 1 <= day <= days_in_month year month
    /\ ymd2ord year month day = o
    /\ o <= days_before_year (year + 1).
Proof.
  intros Ho. rewrite ord2ymd_month_day. cbn zeta.
  pose proof (Z.div_mod (o - 1) 146097 ltac:(lia)) as E400.
  pose proof (Z.mod_pos_bound (o - 1) 146097 ltac:(lia)) as B400.
  pose proof (Z.div_pos (o - 1) 146097 ltac:(lia) ltac:(lia)) as P400.
  set (a := (o - 1) / 146097) in *. set (r1 := (o - 1) mod 146097) in *.
  pose proof (Z.div_mod r1 36524 ltac:(lia)) as E100.
  pose proof (Z.mod_pos_bound r1 36524 ltac:(lia)) as B100.
  pose proof (Z.div_pos r1 36524 ltac:(lia) ltac:(lia)) as P100.
  assert (r1 / 36524 < 5) as U100 by (apply Z.div_lt_upper_bound; lia).
  set (b := r1 / 36524) in *. set (r2 := r1 mod 36524) in *.
  pose proof (Z.div_mod r2 1461 ltac:(lia)) as E4.
  pose proof (Z.mod_pos_bound r2 1461 ltac:(lia)) as B4.
  pose proof (Z.div_pos r2 1461 ltac:(lia) ltac:(lia)) as P4.
  assert (r2 / 1461 < 25) as U4 by (apply Z.div_lt_upper_bound; lia).
  set (c := r2 / 1461) in *. set (r3 := r2 mod 1461) in *.
  pose proof (Z.div_mod r3 365 ltac:(lia)) as E1.
  pose proof (Z.mod_pos_bound r3 365 ltac:(lia)) as B1.
  pose proof (Z.div_pos r3 365 ltac:(lia) ltac:(lia)) as P1.
  assert (r3 / 365 < 5) as U1 by (apply Z.div_lt_upper_bound; lia).
  set (e := r3 / 365) in *. set (n := r3 mod 365) in *.
  clearbody a r1 b r2 c r3 e n.
  destruct (Z.eqb_spec e 4) as [He|He]; cbn [orb].
  { (* the last day of a leap year *)
    subst e. assert (n = 0) by lia. subst n. assert (c <= 23) by lia.
    assert (b <= 3) by lia.
    exists (a * 400 + 1 + b * 100 + c * 4 + 4 - 1), 12, 31.
    replace (a * 400 + 1 + b * 100 + c * 4 + 4 - 1)
      with (400 * a + 100 * b + 4 * c + 3 + 1) by lia.
    pose proof (days_before_year_decomp a b c 3 ltac:(lia) ltac:(lia) ltac:(lia) ltac:(lia)) as Hy.
    pose proof (is_leap_decomp a b c 3 ltac:(lia) ltac:(lia) ltac:(lia) ltac:(lia)) as Hl.
    change (3 =? 3) with true in Hl. destruct (Z.eqb_spec c 24); [lia|].
    cbn [negb orb andb] in Hl.
    replace (400 * a + 100 * b + 4 * c + 3 + 1 + 1)
      with (400 * a + 100 * b + 4 * (c + 1) + 0 + 1) by lia.
    rewrite (days_before_year_decomp a b (c + 1) 0) by lia.
    assert (days_in_month (400 * a + 100 * b + 4 * c + 3 + 1) 12 = 31) as Hdim by reflexivity.
    assert (days_before_month (400 * a + 100 * b + 4 * c + 3 + 1) 12 = 335) as Hdbm
      by (unfold days_before_month; rewrite Hl; reflexivity).
    unfold ymd2ord. rewrite Hy, Hdim, Hdbm. repeat split; lia. }
  destruct (Z.eqb_spec b 4) as [Hb|Hb].
  { (* the last day of a cycle of 400 years *)
    subst b. assert (r2 = 0) by lia. subst r2.
    assert (c = 0 /\ r3 = 0) as [-> ->] by lia. assert (e = 0 /\ n = 0) as [-> ->] by lia.
    exists (a * 400 + 1 + 4 * 100 + 0 * 4 + 0 - 1), 12, 31.
    replace (a * 400 + 1 + 4 * 100 + 0 * 4 + 0 - 1)
      with (400 * a + 100 * 3 + 4 * 24 + 3 + 1) by lia.
    pose proof (days_before_year_decomp a 3 24 3 ltac:(lia) ltac:(lia) ltac:(lia) ltac:(lia)) as Hy.
    pose proof (is_leap_decomp a 3 24 3 ltac:(lia) ltac:(lia) ltac:(lia) ltac:(lia)) as Hl.
    cbn in Hl.
    replace (400 * a + 100 * 3 + 4 * 24 + 3 + 1 + 1)
      with (400 * (a + 1) + 100 * 0 + 4 * 0 + 0 + 1) by lia.
    rewrite (days_before_year_decomp (a + 1) 0 0 0) by lia.
    assert (days_in_month (400 * a + 100 * 3 + 4 * 24 + 3 + 1) 12 = 31) as Hdim by reflexivity.
    assert (days_before_month (400 * a + 100 * 3 + 4 * 24 + 3 + 1) 12 = 335) as Hdbm
      by (unfold days_before_month; rewrite Hl; reflexivity).
    unfold ymd2ord. rewrite Hy, Hdim, Hdbm. repeat split; lia. }
  pose proof (days_before_year_decomp a b c e ltac:(lia) ltac:(lia) ltac:(lia) ltac:(lia)) as Hy.
  pose proof (is_leap_decomp a b c e ltac:(lia) ltac:(lia) ltac:(lia) ltac:(lia)) as Hl.
  replace (a * 400 + 1 + b * 100 + c * 4 + e) with (400 * a + 100 * b + 4 * c + e + 1) by lia.
  rewrite <- Hl.
  pose proof (month_day_spec (400 * a + 100 * b + 4 * c + e + 1) n ltac:(lia)) as Hmd.
  destruct (month_day n _) as [month day].
  exists (400 * a + 100 * b + 4 * c + e + 1), month, day.
  destruct Hmd as (Hm & Hd & Hsum).
  assert (days_before_year (400 * a + 100 * b + 4 * c + e + 1) + 365
          <= days_before_year (400 * a + 100 * b + 4 * c + e + 1 + 1)) as Hnext.
  { unfold days_before_year. cbn zeta. Z.div_mod_to_equations. lia. }
  unfold ymd2ord. repeat split; try lia.
Qed.

(** The ordinal of 01/01/1000, from which on [%Y] writes four digits. *)
Definition first_day_of_1000 : Z := 364878.

Example first_day_of_1000_is : ymd2ord 1000 1 1 = first_day_of_1000.
Proof. reflexivity. Qed.

Lemma ord2ymd_year_range (o year month day : Z) :
  first_day_of_1000 <= o <= MAXORDINAL ->
  ord2ymd o = (year, month, day) ->
  ymd2ord year month day = o ->
  1 <= month -> 1 <= day ->
  o <= days_before_year (year + 1) ->
  1000 <= year <= 9999.
Proof.
  unfold first_day_of_1000, MAXORDINAL. intros Ho _ Hord Hm Hd Hnext.
  pose proof (Warranty.days_before_month_nonneg year month) as Hdbm.
  unfold ymd2ord in Hord. split.
  - destruct (Z.le_gt_cases 1000 year) as [|Hlow]; [done|].
    pose proof (days_before_year_mono (year + 1) 1000 ltac:(lia)) as Hmono.
    change (days_before_year 1000) with 364877 in Hmono. lia.
  - destruct (Z.le_gt_cases year 9999) as [|Hhigh]; [done|].
    pose proof (days_before_year_mono 10000 year ltac:(lia)) as Hmono.
    change (days_before_year 10000) with 3652059 in Hmono. lia.
Qed.

Lemma digit_value_char (k : Z) : 0 <= k <= 9 -> digit_value (digit_char k) = Some k.
Proof.
  intros Hk.
  assert (k = 0 \/ k = 1 \/ k = 2 \/ k = 3 \/ k = 4 \/ k = 5 \/ k = 6 \/ k = 7
          \/ k = 8 \/ k = 9) as Hcases by lia.
  repeat destruct Hcases as [->|Hcases]; try subst k; reflexivity.
Qed.

Lemma parse_day_two_digits (day : Z) (rest : string) :
  1 <= day <= 31 -> parse_day (two_digits day +:+ rest) = Some (day, rest).
Proof.
  intros Hday.
  change (two_digits day +:+ rest)
    with (String (digit_char (day / 10)) (String (digit_char (day mod 10)) rest)).
  unfold parse_day.
  rewrite !digit_value_char by (Z.div_mod_to_equations; lia).
  replace (10 * (day / 10) + day mod 10) with day by (Z.div_mod_to_equations; lia).
  destruct (Z.leb_spec 1 day); [|lia]. destruct (Z.leb_spec day 31); [|lia]. reflexivity.
Qed.

Lemma parse_month_two_digits (month : Z) (rest : string) :
  1 <= month <= 12 -> parse_month (two_digits month +:+ rest) = Some (month, rest).
Proof.
  intros Hmonth.
  change (two_digits month +:+ rest)
    with (String (digit_char (month / 10)) (String (digit_char (month mod 10)) rest)).
  unfold parse_month.
  rewrite !digit_value_char by (Z.div_mod_to_equations; lia).
  replace (10 * (month / 10) + month mod 10) with month by (Z.div_mod_to_equations; lia).
  destruct (Z.leb_spec 1 month); [|lia]. destruct (Z.leb_spec month 12); [|lia].
  reflexivity.
Qed.

Lemma parse_year_four_digits (year : Z) :
  0 <= year <= 9999 -> parse_year (four_digits year) = Some (year, EmptyString).
Proof.
  intros Hyear.
  change (four_digits year)
    with (String (digit_char (year / 100 / 10))
            (String (digit_char ((year / 100) mod 10))
               (String (digit_char (year mod 100 / 10))
                  (String (digit_char ((year mod 100) mod 10)) EmptyString)))).
  unfold parse_year.
  rewrite !digit_value_char by (Z.div_mod_to_equations; lia).
  do 2 f_equal. Z.div_mod_to_equations. lia.
Qed.

(** A date from the year 1000 on that is written with [strftime] is read
    back by [strptime] as the same day. *)
Lemma strptime_strftime (o : Z) :
  first_day_of_1000 <= o <= MAXORDINAL ->
  strptime (strftime (midnight o)) = Ok (midnight o).
Proof.
  intros Ho.
  destruct (ord2ymd_spec o) as (year & month & day & Hymd & Hy & Hm & Hd & Hord & Hnext).
  { unfold first_day_of_1000 in Ho. lia. }
  pose proof (ord2ymd_year_range o year month day Ho Hymd Hord ltac:(lia) ltac:(lia) Hnext)
    as Hrange.
  unfold strftime. cbn [ordinal midnight]. rewrite Hymd. unfold strptime.
  assert (days_in_month year month <= 31) as Hdim.
  { unfold days_in_month. destruct (_ && _); [lia|].
    generalize (Z.to_nat month). intros n.
    do 13 (destruct n as [|n]; [cbn; lia|]). destruct n; cbn; lia. }
  rewrite parse_day_two_digits by lia. cbn [mbind option_bind].
  change (expect_slash ("/" +:+ ?rest)) with (Some rest). cbn [mbind option_bind].
  rewrite parse_month_two_digits by lia. cbn [mbind option_bind].
  change (expect_slash ("/" +:+ ?rest)) with (Some rest). cbn [mbind option_bind].
  rewrite parse_year_four_digits by lia. cbn [mbind option_bind].
  rewrite decide_True by done.
  destruct (Z.leb_spec 1 year); [|lia].
  destruct (Z.leb_spec day (days_in_month year month)); [|lia].
  cbn [andb]. now rewrite Hord.
Qed.

(** *** The tool *)

(** The dict of [dates_calculator].  [DateFormatError] stands for the
    error that begins with the words Date format error and goes on with
    the text of the [ValueError]. *)
Inductive calc_result :=
| CalcError (error : string)
| DateFormatError
| CalcDays (result : Z)
| CalcDate (result : string).

(** [timedelta(days=days)] *)
Definition timedelta (days : Z) : res Z :=
  if Z.abs days <=? 999999999 then Ok days
  else Raise (Exception
                ("OverflowError('days=" +:+ str_of_Z days
                 +:+ "; must have magnitude <= 999999999')")
                ("days=" +:+ str_of_Z days +:+ "; must have magnitude <= 999999999")).

(** [dates_calculator(operation, start_date, end_date, days)] at the time
    [now], for dates from the year 1000 on. *)
Definition dates_calculator (now : datetime) (operation start_date : string)
    (end_date : option string) (days : option Z) : calc_result :=
  match strptime start_date with
  | Raise ve => DateFormatError
  | Ok start =>
      if decide (operation = "duration") then CalcDays (days_between now start)
      else if decide (operation = "add_days") then
        match days with
        | None => CalcError "The 'days' argument is required for 'add_days' operation."
        | Some n =>
            try_except
              (delta ← timedelta n;
               future_date ← add_days start delta;
               Ok (CalcDate (strftime future_date)))
              (fun e => CalcError (exn_str e))
        end
      else if decide (operation = "subtract_days") then
        match days with
        | None => CalcError "The 'days' argument is required for 'subtract_days' operation."
        | Some n =>
            try_except
              (delta ← timedelta n;
               past_date ← add_days start (- delta);
               Ok (CalcDate (strftime past_date)))
              (fun e => CalcError (exn_str e))
        end
      else if decide (operation = "days_between") then
        match end_date with
        | None => CalcError "The 'end_date' argument is required for 'days_between' operation."
        | Some text =>
            match strptime text with
            | Raise ve => DateFormatError
            | Ok finish => CalcDays (days_between finish start)
            end
        end
      else
        CalcError ("Invalid operation '" +:+ operation
                   +:+ "'. Valid operations are 'duration', 'add_days', 'subtract_days', and 'days_between'.")
  end.

Lemma days_between_midnights (a b : Z) :
  days_between (midnight a) (midnight b) = a - b.
Proof.
  unfold days_between. cbn [ordinal micros midnight].
  replace ((a - b) * 86400000000 + (0 - 0)) with ((a - b) * 86400000000) by lia.
  apply Z.div_mul. lia.
Qed.

Lemma midnight_eta (d : datetime) : micros d = 0 -> d = midnight (ordinal d).
Proof. destruct d as [o u]. cbn. now intros ->. Qed.

(** X15.  [add_days] and [subtract_days] undo each other, and
    [days_between] measures what [add_days] adds: for a start date that
    parses and a number of days that leads to a day between 01/01/1000 and
    31/12/9999, adding the days gives a date from which subtracting them
    gives the start date, written in the format of the tool, and the days
    between the start date and the date given are the days added. *)
Theorem add_days_round_trip (now : datetime) (start_date : string) (start : datetime)
    (n : Z) :
  strptime start_date = Ok start ->
  first_day_of_1000 <= ordinal start <= MAXORDINAL ->
  first_day_of_1000 <= ordinal start + n <= MAXORDINAL ->
  exists later_date,
    dates_calculator now "add_days" start_date None (Some n) = CalcDate later_date
    /\ strptime later_date = Ok (midnight (ordinal start + n))
    /\ dates_calculator now "subtract_days" later_date None (Some n)
       = CalcDate (strftime start)
    /\ strptime (strftime start) = Ok start
    /\ dates_calculator now "days_between" start_date (Some later_date) None = CalcDays n
    /\ dates_calculator now "days_between" later_date (Some start_date) None
       = CalcDays (- n).
Proof.
  intros Hstart Hrange Hsum.
  pose proof (Warranty.strptime_midnight _ _ Hstart) as Hzero.
  destruct start as [o u]. cbn in Hzero. subst u.
  change (DateTime o 0) with (midnight o) in *.
  change (ordinal (midnight o)) with o in *.
  assert (timedelta n = Ok n) as Hdelta.
  { unfold timedelta. destruct (Z.leb_spec (Z.abs n) 999999999); [done|].
    unfold first_day_of_1000, MAXORDINAL in *. lia. }
  assert (forall a k, first_day_of_1000 <= a + k <= MAXORDINAL ->
            add_days (midnight a) k = Ok (midnight (a + k))) as Hadd.
  { intros a k Hk. unfold add_days. cbn [ordinal micros midnight].
    destruct (Z.leb_spec 1 (a + k)); [|unfold first_day_of_1000 in *; lia].
    destruct (Z.leb_spec (a + k) MAXORDINAL); [done|lia]. }
  pose proof (strptime_strftime (o + n) Hsum) as Hread.
  exists (strftime (midnight (o + n))).
  unfold dates_calculator. rewrite Hstart, Hread.
  repeat rewrite decide_False by discriminate.
  repeat rewrite decide_True by reflexivity.
  repeat rewrite decide_False by discriminate.
  repeat rewrite decide_True by reflexivity.
  rewrite Hdelta. cbn [mbind res_bind].
  rewrite (Hadd o n Hsum).
  rewrite (Hadd (o + n) (- n)) by (replace (o + n + - n) with o by lia; exact Hrange).
  replace (o + n + - n) with o by lia.
  cbn [mbind res_bind try_except].
  rewrite !days_between_midnights, (strptime_strftime o Hrange).
  repeat split; try done; f_equal; lia.
Qed.

Lemma add_days_round_trip_witness :
  dates_calculator (midnight (ymd2ord 2025 1 1)) "add_days" "31/01/2024" None (Some 30)
  = CalcDate "01/03/2024"
  /\ dates_calculator (midnight (ymd2ord 2025 1 1)) "subtract_days" "01/03/2024" None (Some 30)
     = CalcDate "31/01/2024"
  /\ dates_calculator (midnight (ymd2ord 2025 1 1)) "days_between" "31/01/2024"
       (Some "01/03/2024") None
     = CalcDays 30.
Proof.
  destruct (add_days_round_trip (midnight (ymd2ord 2025 1 1)) "31/01/2024"
              (midnight (ymd2ord 2024 1 31)) 30)
    as (later_date & Hadd & _ & Hsub & _ & Hbetween & _).
  - vm_compute. reflexivity.
  - vm_compute. split; discriminate.
  - vm_compute. split; discriminate.
  - assert (later_date = "01/03/2024") as ->.
    { assert (CalcDate later_date = CalcDate "01/03/2024") as [= ->]; [|done].
      rewrite <- Hadd. vm_compute. reflexivity. }
    split; [exact Hadd|]. split; [exact Hsub|exact Hbetween].
Defined.

(** X16.  [duration] counts whole days up to today and ignores the time
    of day: for a start date that parses it is the difference of the two
    days, negative for a start date in the future, and the same number as
    [days_between] from the start date to the date of today; the two
    optional arguments play no part. *)
Theorem duration_is_days_to_today (now : datetime) (start_date : string)
    (start : datetime) (end_date : option string) (days : option Z) :
  0 <= micros now < 86400000000 ->
  first_day_of_1000 <= ordinal now <= MAXORDINAL ->
  strptime start_date = Ok start ->
  dates_calculator now "duration" start_date end_date days
  = CalcDays (ordinal now - ordinal start)
  /\ dates_calculator now "days_between" start_date (Some (strftime now)) None
     = CalcDays (ordinal now - ordinal start).
Proof.
  intros Hnow Hrange Hstart.
  pose proof (Warranty.strptime_midnight _ _ Hstart) as Hzero.
  unfold dates_calculator. rewrite Hstart.
  rewrite decide_True by reflexivity.
  repeat rewrite decide_False by discriminate.
  rewrite decide_True by reflexivity.
  assert (strftime now = strftime (midnight (ordinal now))) as -> by reflexivity.
  rewrite (strptime_strftime (ordinal now) Hrange).
  split; f_equal.
  - unfold days_between. rewrite Hzero.
    symmetry. apply (Z.div_unique _ _ _ (micros now)); lia.
  - unfold days_between. cbn [ordinal micros midnight]. rewrite Hzero.
    replace ((ordinal now - ordinal start) * 86400000000 + (0 - 0))
      with ((ordinal now - ordinal start) * 86400000000) by lia.
    apply Z.div_mul. lia.
Qed.

Lemma duration_is_days_to_today_witness :
  dates_calculator (DateTime (ymd2ord 2024 3 1) 86399999999) "duration" "02/03/2024"
    None None
  = CalcDays (-1)
  /\ dates_calculator (DateTime (ymd2ord 2024 3 1) 86399999999) "duration" "29/02/2024"
       None None
     = CalcDays 1.
Proof.
  split.
  - refine (proj1 (duration_is_days_to_today (DateTime (ymd2ord 2024 3 1) 86399999999)
                     "02/03/2024" (midnight (ymd2ord 2024 3 2)) None None _ _ _)).
    + cbn. lia.
    + vm_compute. split; discriminate.
    + vm_compute. reflexivity.
  - refine (proj1 (duration_is_days_to_today (DateTime (ymd2ord 2024 3 1) 86399999999)
                     "29/02/2024" (midnight (ymd2ord 2024 2 29)) None None _ _ _)).
    + cbn. lia.
    + vm_compute. split; discriminate.
    + vm_compute. reflexivity.
Defined.

End DatesCalculator.

(** ** The turn driver: [chatloop] of assistant.py *)

Module Driver.

Definition max_retries : nat := 2.
Definition marker : string := "having trouble processing".
Definition clarification : string := "Can you clarify your request please!".
Definition retry_prompt : string := "Please help me with my request.".
Definition retry_prompt_exn : string := "Please help me with my previous request.".

(** The last message of the graph's answer, as [chatloop] looks at it: a
    plain [str]; an object with a [content] attribute; any other object,
    with its [str()] form. *)
Inductive reply :=
| ReplyStr (s : string)
| ReplyContent (c : content)
| ReplyObject (str_form : string).

Definition AttributeError_lower : exn :=
  Exception ("AttributeError(" +:+ dq +:+ "'list' object has no attribute 'lower'"
               +:+ dq +:+ ")")
            "'list' object has no attribute 'lower'".

(** What one pass through the [try] body decides. *)
Inductive verdict :=
| Return (s : string)
| Again.

Definition check_text (clean_message : string) : verdict :=
  if contains marker (lower clean_message) then Again else Return clean_message.

(** The body of the [try] block, after [part_1_graph.invoke] has answered
    with [r]. *)
Definition attempt (r : res (list reply)) : res verdict :=
  all_msg ← r;
  msg ← last_item all_msg;
  match msg with
  | ReplyStr s => Ok (Return s)
  | ReplyContent (CText s) => Ok (check_text s)
  | ReplyContent (CBlocks _) => Raise AttributeError_lower
  | ReplyObject s => Ok (check_text s)
  end.

Section Chatloop.

(** The compiled graph with its checkpoint store: [invoke prompt w] is the
    answer of [part_1_graph.invoke] to the user message [prompt] in store
    [w], and the store afterwards. *)
Variable world : Type.
Variable invoke : string -> world -> res (list reply) * world.

(** The [while retry_count < max_retries] loop.  [calls] collects the
    prompts handed to the graph, oldest first. *)
Fixpoint chatloop_from (fuel : nat) (retry_count : nat) (prompt : string)
    (w : world) (calls : list string) : option (string * world * list string) :=
  if (retry_count <? max_retries)%nat then
    match fuel with
    | O => None
    | S fuel' =>
        let '(r, w') := invoke prompt w in
        let calls' := calls ++ [prompt] in
        match attempt r with
        | Ok (Return s) => Some (s, w', calls')
        | Ok Again =>
            chatloop_from fuel' (S retry_count) retry_prompt w' calls'
        | Raise e =>
            let retry_count := S retry_count in
            if (retry_count <? max_retries)%nat
            then chatloop_from fuel' retry_count retry_prompt_exn w' calls'
            else Some (clarification, w', calls')
        end
    end
  else Some (clarification, w, calls).

Definition chatloop (prompt : string) (w : world) :
    option (string * world * list string) :=
  chatloop_from max_retries 0 prompt w [].

Lemma chatloop_from_returns fuel retry_count prompt w calls :
  (max_retries <= retry_count + fuel)%nat ->
  exists s w' calls',
    chatloop_from fuel retry_count prompt w calls = Some (s, w', calls')
    /\ (length calls' <= length calls + (max_retries - retry_count))%nat.
Proof.
  revert retry_count prompt w calls.
  induction fuel as [|fuel IH]; intros retry_count prompt w calls Hfuel;
    cbn [chatloop_from].
  - destruct (Nat.ltb_spec retry_count max_retries); [lia|].
    eexists _, _, _; split; [reflexivity|lia].
  - destruct (Nat.ltb_spec retry_count max_retries) as [Hlt|Hge].
    2: { eexists _, _, _; split; [reflexivity|lia]. }
    destruct (invoke prompt w) as [r w'].
    destruct (attempt r) as [[s|]|e].
    + eexists _, _, _; split; [reflexivity|]. rewrite length_app; cbn [length]. lia.
    + destruct (IH (S retry_count) retry_prompt w' (calls ++ [prompt]))
        as (s & w2 & calls2 & -> & Hlen); [lia|].
      eexists _, _, _; split; [reflexivity|].
      rewrite length_app in Hlen; cbn [length] in Hlen. lia.
    + destruct (Nat.ltb_spec (S retry_count) max_retries) as [Hlt'|Hge'].
      * destruct (IH (S retry_count) retry_prompt_exn w' (calls ++ [prompt]))
          as (s & w2 & calls2 & -> & Hlen); [lia|].
        eexists _, _, _; split; [reflexivity|].
        rewrite length_app in Hlen; cbn [length] in Hlen. lia.
      * eexists _, _, _; split; [reflexivity|]. rewrite length_app; cbn [length]. lia.
Qed.

(** C2.  [chatloop] returns a string on every path: the loop never runs
    out of its two iterations and every exception of the [try] body is
    absorbed, with at most two graph invocations.  When every invocation
    raises, the result is the string [Can you clarify your request
    please!], after exactly two invocations, the second with the prompt
    [Please help me with my previous request.].  Likewise when on both
    attempts the text taken from the last message, its content or its
    [str()] form, contains [having trouble processing] in any case of the
    letters: the result is the same string after exactly two invocations,
    the second with the prompt [Please help me with my request.]. *)
Theorem chatloop_always_returns (prompt : string) (w : world) :
  (exists s w' calls,
      chatloop prompt w = Some (s, w', calls) /\ (length calls <= 2)%nat)
  /\ ((forall p w0, exists e, (invoke p w0).1 = Raise e) ->
      exists w', chatloop prompt w
                 = Some ("Can you clarify your request please!", w',
                         [prompt; "Please help me with my previous request."]))
  /\ (forall msgs1 m1 s1 w1 msgs2 m2 s2 w2,
        invoke prompt w = (Ok msgs1, w1) ->
        last msgs1 = Some m1 ->
        m1 = ReplyContent (CText s1) \/ m1 = ReplyObject s1 ->
        contains "having trouble processing" (lower s1) = true ->
        invoke "Please help me with my request." w1 = (Ok msgs2, w2) ->
        last msgs2 = Some m2 ->
        m2 = ReplyContent (CText s2) \/ m2 = ReplyObject s2 ->
        contains "having trouble processing" (lower s2) = true ->
        chatloop prompt w
        = Some ("Can you clarify your request please!", w2,
                [prompt; "Please help me with my request."])).
Proof.
  split; [|split].
  - destruct (chatloop_from_returns max_retries 0 prompt w [])
      as (s & w' & calls & Heq & Hlen); [lia|].
    exists s, w', calls. split; [exact Heq|]. cbn in Hlen. lia.
  - intros Hraise. unfold chatloop. cbn.
    destruct (Hraise prompt w) as [e1 H1].
    destruct (invoke prompt w) as [r1 w1]. cbn in H1. subst r1. cbn.
    destruct (Hraise retry_prompt_exn w1) as [e2 H2].
    destruct (invoke retry_prompt_exn w1) as [r2 w2]. cbn in H2. subst r2. cbn.
    now exists w2.
  - intros msgs1 m1 s1 w1 msgs2 m2 s2 w2 H1 L1 M1 C1 H2 L2 M2 C2.
    assert (forall msgs m t, last msgs = Some m ->
              m = ReplyContent (CText t) \/ m = ReplyObject t ->
              contains "having trouble processing" (lower t) = true ->
              attempt (Ok msgs) = Ok Again) as Hagain.
    { intros msgs m t Hlast Hm Hmark. cbn. unfold last_item. rewrite Hlast. cbn.
      unfold check_text. change marker with "having trouble processing".
      destruct Hm as [-> | ->]; now rewrite Hmark. }
    unfold chatloop. cbn. rewrite H1, (Hagain _ _ _ L1 M1 C1).
    change retry_prompt with "Please help me with my request.".
    rewrite H2, (Hagain _ _ _ L2 M2 C2). reflexivity.
Qed.

End Chatloop.

(** A graph without a store whose every invocation raises, and one that
    answers with the assistant's apology every time. *)
Definition failing_graph (_ : string) (_ : unit) : res (list reply) * unit :=
  (Raise (Exception "RuntimeError('model unavailable')" "model unavailable"), tt).

Definition apology_graph (_ : string) (_ : unit) : res (list reply) * unit :=
  (Ok [ReplyContent (CText "I'm having trouble processing your request right now.")], tt).

Lemma chatloop_always_returns_witness :
  chatloop unit failing_graph "hello" tt
    = Some ("Can you clarify your request please!", tt,
            ["hello"; "Please help me with my previous request."])
  /\ chatloop unit apology_graph "hello" tt
    = Some ("Can you clarify your request please!", tt,
            ["hello"; "Please help me with my request."]).
Proof.
  split.
  - destruct (chatloop_always_returns unit failing_graph "hello" tt)
      as (_ & Hraise & _).
    destruct Hraise as [[] Heq]; [|exact Heq].
    intros p u. eexists. reflexivity.
  - destruct (chatloop_always_returns unit apology_graph "hello" tt)
      as (_ & _ & Hmark).
    eapply (Hmark _ _ "I'm having trouble processing your request right now." tt
                  _ _ "I'm having trouble processing your request right now." tt);
      try reflexivity; try (left; reflexivity).
Defined.

(** *** What [chatloop] hands to the graph and what it gives back *)

(** A text that [chatloop] passes on as it is: the last message [m] of
    an answer is a plain [str], or its content or [str()] form is free of
    the apology marker, whatever the case of its letters. *)
Definition passed_on (m : reply) (s : string) : Prop :=
  m = ReplyStr s
  \/ ((m = ReplyContent (CText s) \/ m = ReplyObject s)
      /\ contains marker (lower s) = false).

Lemma attempt_returns r s :
  attempt r = Ok (Return s) ->
  exists msgs m, r = Ok msgs /\ last msgs = Some m /\ passed_on m s.
Proof.
  destruct r as [msgs|e]; [|discriminate]. cbn. unfold last_item.
  destruct (last msgs) as [m|] eqn:Hlast; [|discriminate]. cbn.
  intros Hm. exists msgs, m. split; [done|]. split; [done|].
  unfold passed_on, check_text in *.
  destruct m as [t|[t|bs]|t]; try discriminate.
  - injection Hm as ->. now left.
  - destruct (contains marker (lower t)) eqn:Hmark; [discriminate|].
    injection Hm as ->. right. split; [now left|done].
  - destruct (contains marker (lower t)) eqn:Hmark; [discriminate|].
    injection Hm as ->. right. split; [now right|done].
Qed.

Section ChatloopFacts.

Variable world : Type.
Variable invoke : string -> world -> res (list reply) * world.

(** X20.  [chatloop] hands the words of the user to the graph once; a
    second invocation, on the store that the first has left, carries one
    of the two fixed sentences in their place.  What it returns is the
    clarification string or the text of the last message of the answer to
    its last invocation, and a text taken from a content or a [str()]
    form never carries the apology marker. *)
Theorem chatloop_passes_on (prompt : string) (w : world) (s : string) (w' : world)
    (calls : list string) :
  chatloop world invoke prompt w = Some (s, w', calls) ->
  exists r1 w1,
    invoke prompt w = (r1, w1)
    /\ ((calls = [prompt] /\ w' = w1 /\ attempt r1 = Ok (Return s))
        \/ exists again r2,
             (attempt r1 = Ok Again /\ again = retry_prompt
              \/ (exists e, attempt r1 = Raise e) /\ again = retry_prompt_exn)
             /\ invoke again w1 = (r2, w')
             /\ calls = [prompt; again]
             /\ (attempt r2 = Ok (Return s)
                 \/ s = clarification /\ forall t, attempt r2 <> Ok (Return t)))
    /\ (s = clarification
        \/ exists p w0 msgs m,
             last calls = Some p /\ (invoke p w0).1 = Ok msgs /\ last msgs = Some m
             /\ passed_on m s).
Proof.
  unfold chatloop. cbn [chatloop_from max_retries Nat.ltb Nat.leb].
  destruct (invoke prompt w) as [r1 w1] eqn:H1. cbn [app].
  assert (forall again r2 w2,
             invoke again w1 = (r2, w2) ->
             forall t, attempt r2 = Ok (Return t) ->
             exists p w0 msgs m,
               last [prompt; again] = Some p /\ (invoke p w0).1 = Ok msgs
               /\ last msgs = Some m /\ passed_on m t) as Hsecond.
  { intros again r2 w2 H2 t Ht.
    destruct (attempt_returns _ _ Ht) as (msgs & m & -> & Hlast & Hpass).
    exists again, w1, msgs, m. rewrite H2. done. }
  destruct (attempt r1) as [[s1|]|e1] eqn:A1.
  - intros [= <- <- <-]. exists r1, w1. split; [done|]. split; [left; done|].
    right. destruct (attempt_returns _ _ A1) as (msgs & m & -> & Hlast & Hpass).
    exists prompt, w, msgs, m. rewrite H1. done.
  - destruct (invoke retry_prompt w1) as [r2 w2] eqn:H2.
    destruct (attempt r2) as [[s2|]|e2] eqn:A2; intros [= <- <- <-];
      exists r1, w1; (split; [done|]); (split; [right|]).
    + exists retry_prompt, r2. split; [left; done|]. repeat split; try done. now left.
    + right. now apply (Hsecond retry_prompt r2 w2 H2).
    + exists retry_prompt, r2. split; [left; done|]. repeat split; try done.
      right. split; [done|]. intros t. rewrite A2. discriminate.
    + now left.
    + exists retry_prompt, r2. split; [left; done|]. repeat split; try done.
      right. split; [done|]. intros t. rewrite A2. discriminate.
    + now left.
  - destruct (invoke retry_prompt_exn w1) as [r2 w2] eqn:H2.
    destruct (attempt r2) as [[s2|]|e2] eqn:A2; intros [= <- <- <-];
      exists r1, w1; (split; [done|]); (split; [right|]).
    + exists retry_prompt_exn, r2. split; [right; eauto|]. repeat split; try done. now left.
    + right. now apply (Hsecond retry_prompt_exn r2 w2 H2).
    + exists retry_prompt_exn, r2. split; [right; eauto|]. repeat split; try done.
      right. split; [done|]. intros t. rewrite A2. discriminate.
    + now left.
    + exists retry_prompt_exn, r2. split; [right; eauto|]. repeat split; try done.
      right. split; [done|]. intros t. rewrite A2. discriminate.
    + now left.
Qed.

End ChatloopFacts.

(** A graph that apologises to the words of the user and answers the
    retry. *)
Definition moody_graph (prompt : string) (calls : nat) : res (list reply) * nat :=
  (if decide (prompt = retry_prompt)
   then Ok [ReplyContent (CText "Your claim was approved.")]
   else Ok [ReplyContent (CText "I'm HAVING TROUBLE PROCESSING your request right now.")],
   S calls).

Lemma chatloop_passes_on_witness :
  chatloop nat moody_graph "Where is my claim?" 0%nat
  = Some ("Your claim was approved.", 2%nat, ["Where is my claim?"; retry_prompt])
  /\ exists r1 w1, moody_graph "Where is my claim?" 0%nat = (r1, w1)
                   /\ attempt r1 = Ok Again.
Proof.
  split; [vm_compute; reflexivity|].
  destruct (chatloop_passes_on nat moody_graph "Where is my claim?" 0%nat
              "Your claim was approved." 2%nat ["Where is my claim?"; retry_prompt]
              ltac:(vm_compute; reflexivity))
    as (r1 & w1 & H1 & _ & _).
  exists r1, w1. split; [exact H1|].
  injection H1 as <- <-. vm_compute. reflexivity.
Defined.

End Driver.
